(** * The OAuth client of [src/client/auth.ts], embedded in Rocq

    Every function of the module is translated to a function of the
    same name.  JavaScript strings are [string]s, arrays are lists,
    [undefined] is [None], a thrown exception is the [Throw] branch of
    [result], and the asynchronous, effectful functions run in a
    state-and-exception monad over the state of everything outside the
    module (network, session provider, random source) together with a
    log of the HTTP requests performed. *)

From Stdlib Require Import Ascii String.
From stdpp Require Import base option list strings gmap pretty.

Open Scope string_scope.
Open Scope list_scope.

(** ** Strings as the code uses them *)

Module Str.

(** [s.startsWith(p)] *)
Fixpoint startsWith (s p : string) {struct p} : bool :=
  match p, s with
  | "", _ => true
  | String a p', String b s' => if decide (a = b) then startsWith s' p' else false
  | String _ _, "" => false
  end.

(** [s.endsWith(p)] *)
Fixpoint endsWith (s p : string) : bool :=
  if decide (s = p) then true
  else match s with
       | "" => false
       | String _ s' => endsWith s' p
       end.

(** [s.slice(0, -1)]: the string without its last character. *)
Fixpoint slice_0_m1 (s : string) : string :=
  match s with
  | "" => ""
  | String a "" => ""
  | String a s' => String a (slice_0_m1 s')
  end.

(** [s.includes(p)]: [p] occurs in [s] as a substring. *)
Fixpoint includes (s p : string) : bool :=
  if startsWith s p then true
  else match s with
       | "" => false
       | String _ s' => includes s' p
       end.

(** [s.split(c)] for a one-character separator: the pieces between the
    occurrences of [c], at least one. *)
Fixpoint split (c : ascii) (s : string) : list string :=
  match s with
  | "" => [""]
  | String a s' =>
      if decide (a = c) then "" :: split c s'
      else match split c s' with
           | piece :: pieces => String a piece :: pieces
           | [] => [String a ""]
           end
  end.

Definition lower_ascii (a : ascii) : ascii :=
  let n := Ascii.N_of_ascii a in
  if bool_decide (65 ≤ n ≤ 90)%N then Ascii.ascii_of_N (n + 32) else a.

(** [s.toLowerCase()]; on the one-byte characters of a header value
    only the letters A-Z change. *)
Fixpoint toLowerCase (s : string) : string :=
  match s with
  | "" => ""
  | String a s' => String (lower_ascii a) (toLowerCase s')
  end.

(** [s] without its prefix [p], when it starts with it. *)
Fixpoint strip_prefix (p s : string) {struct p} : option string :=
  match p, s with
  | "", _ => Some s
  | String a p', String b s' => if decide (a = b) then strip_prefix p' s' else None
  | String _ _, "" => None
  end.

(** The text after the first occurrence of [p] in [s]. *)
Fixpoint after (s p : string) : option string :=
  match strip_prefix p s with
  | Some r => Some r
  | None => match s with
            | "" => None
            | String _ s' => after s' p
            end
  end.

(** The text before the first occurrence of character [c], when there is one. *)
Fixpoint before_char (c : ascii) (s : string) : option string :=
  match s with
  | "" => None
  | String a s' =>
      if decide (a = c) then Some ""
      else String a <$> before_char c s'
  end.

End Str.

(** [arr.includes(x)] on an array of strings. *)
Definition includes (arr : list string) (x : string) : bool :=
  bool_decide (x ∈ arr).

(** ** Exceptions *)

(** The classes of [../server/auth/errors.js] this module tells apart
    with [instanceof]; every other OAuth error class is an
    [OtherOAuthError] with its error code. *)
Inductive OAuthErrorClass :=
  | InvalidClientError
  | UnauthorizedClientError
  | InvalidGrantError
  | ServerError
  | OtherOAuthError (code : string).

Inductive exn :=
  | Error (msg : string)              (* [new Error(msg)] *)
  | TypeError (msg : string)          (* failed fetch, invalid URL *)
  | SyntaxError                       (* [JSON.parse], [response.json()] *)
  | ZodError                          (* a schema's [parse] *)
  | OAuthError (cls : OAuthErrorClass) (message : string) (uri : option string)
  | DOMException (name : string)      (* [btoa] on a character outside Latin-1 *)
  | StringObject (text : string)      (* the object that [new Object(text)] is; not an error *)
  | Thrown (what : string).           (* anything else an embedder callback throws *)

Inductive result (A : Type) :=
  | Ok (a : A)
  | Throw (e : exn).
Arguments Ok {A} a.
Arguments Throw {A} e.

Global Instance OAuthErrorClass_eq_dec : EqDecision OAuthErrorClass.
Proof. solve_decision. Defined.
Global Instance exn_eq_dec : EqDecision exn.
Proof. solve_decision. Defined.

Definition result_bind {A B} (r : result A) (k : A → result B) : result B :=
  match r with
  | Ok a => k a
  | Throw e => Throw e
  end.

(** ** URLs *)

(** A parsed URL with an authority.  [protocol] ends with the colon,
    [host] carries the port when there is one, [searchParams] is the
    list view of the query, [hash] is empty or starts with the number
    sign. *)
Record URL := mkURL {
  protocol : string;
  host : string;
  pathname : string;
  searchParams : list (string * string);
  hash : string
}.

Global Instance URL_eq_dec : EqDecision URL.
Proof. solve_decision. Defined.

(** A [string | URL] argument. *)
Inductive url_like :=
  | UStr (s : string)
  | UObj (u : URL).

(** What the module takes from the JavaScript platform. *)
Class Platform := {
  (** [new URL(s)] on an absolute URL text; [None] is the [TypeError]. *)
  URL_parse : string → option URL;
  (** The host parser, applied to the authority of a scheme-relative
      reference; [None] is a parse failure. *)
  host_parse : string → option string;
  (** The [application/x-www-form-urlencoded] serializer. *)
  urlencoded : list (string * string) → string;
  (** [btoa]; [None] is the [InvalidCharacterError] that it throws for
      a text with a character outside Latin-1. *)
  btoa : string → option string;
}.

Section URLs.
Context {platform : Platform}.

(** The schemes whose URLs have a tuple origin; the origin of every
    other URL ([file:], [mcp:], ...) is opaque. *)
Definition tuple_origin (u : URL) : bool :=
  bool_decide (protocol u ∈ ["http:"; "https:"; "ws:"; "wss:"; "ftp:"]).

(** [u.origin]: the text of a tuple origin, [null] for an opaque one. *)
Definition origin (u : URL) : string :=
  if tuple_origin u then protocol u +:+ "//" +:+ host u else "null".

Definition search (u : URL) : string :=
  match searchParams u with
  | [] => ""
  | q => "?" +:+ urlencoded q
  end.

Definition href (u : URL) : string :=
  protocol u +:+ "//" +:+ host u +:+ pathname u +:+ search u +:+ hash u.

(** The URL that the text [u.origin] parses to as a base; the text
    [null] of an opaque origin is no URL. *)
Definition origin_URL (u : URL) : result URL :=
  if tuple_origin u then Ok (mkURL (protocol u) (host u) "/" [] "")
  else Throw (TypeError "Invalid URL").

(** [new URL(x)] for [x : string | URL]. *)
Definition new_URL (x : url_like) : result URL :=
  match x with
  | UStr s => match URL_parse s with
              | Some u => Ok u
              | None => Throw (TypeError "Invalid URL")
              end
  | UObj u => Ok u
  end.

(** Leading slashes of a scheme-relative reference are skipped. *)
Fixpoint skip_slashes (s : string) : string :=
  match s with
  | String "/" s' => skip_slashes s'
  | _ => s
  end.

Fixpoint split_authority (s : string) : string * string :=
  match s with
  | "" => ("", "")
  | String "/" _ => ("", s)
  | String a s' => let '(h, p) := split_authority s' in (String a h, p)
  end.

(** [new URL(ref, base)] for a reference made of path characters that
    starts with a slash, against a base with an authority.  One
    leading slash is a path on the base's origin.  Two or more open a
    scheme-relative reference: its first segment is an authority and
    only the rest is the path. *)
Definition URL_resolve (ref : string) (base : URL) : result URL :=
  match Str.strip_prefix "//" ref with
  | Some rest =>
      let '(auth, path) := split_authority (skip_slashes rest) in
      match host_parse auth with
      | Some h => Ok (mkURL (protocol base) h (if decide (path = "") then "/" else path) [] "")
      | None => Throw (TypeError "Invalid URL")
      end
  | None => Ok (mkURL (protocol base) (host base) ref [] "")
  end.

(** [new URL(ref, base)] for [base : string | URL]. *)
Definition new_URL_at (ref : string) (base : url_like) : result URL :=
  match new_URL base with
  | Ok base => URL_resolve ref base
  | Throw e => Throw e
  end.

(** [new URL(ref, u.origin)] *)
Definition new_URL_at_origin (ref : string) (u : URL) : result URL :=
  result_bind (origin_URL u) (URL_resolve ref).

(** [String(x)] for [x : string | URL]. *)
Definition String_of (x : url_like) : string :=
  match x with
  | UStr s => s
  | UObj u => href u
  end.

End URLs.

(** ** Discovery URL builder *)

Inductive discovery_type := oauth | oidc.

Global Instance discovery_type_eq_dec : EqDecision discovery_type.
Proof. solve_decision. Defined.

Section Builder.
Context {platform : Platform}.

Definition buildDiscoveryUrls (authorizationServerUrl : url_like)
  : result (list (URL * discovery_type)) :=
  result_bind (new_URL authorizationServerUrl) (λ url,
  let hasPath := negb (bool_decide (pathname url = "/")) in
  if negb hasPath then
    result_bind (new_URL_at_origin "/.well-known/oauth-authorization-server" url) (λ u1,
    result_bind (new_URL_at_origin "/.well-known/openid-configuration" url) (λ u2,
    Ok [(u1, oauth); (u2, oidc)]))
  else
    let pathname := pathname url in
    let pathname := if Str.endsWith pathname "/" then Str.slice_0_m1 pathname else pathname in
    result_bind (new_URL_at_origin ("/.well-known/oauth-authorization-server" +:+ pathname) url) (λ u1,
    result_bind (new_URL_at_origin "/.well-known/oauth-authorization-server" url) (λ u2,
    result_bind (new_URL_at_origin ("/.well-known/openid-configuration" +:+ pathname) url) (λ u3,
    result_bind (new_URL_at_origin (pathname +:+ "/.well-known/openid-configuration") url) (λ u4,
    Ok [(u1, oauth); (u2, oauth); (u3, oidc); (u4, oidc)]))))).

End Builder.

(** ** JSON values and the records of [../shared/auth.js] *)

#[warnings="-register-all"]
Inductive json :=
  | JNull
  | JBool (b : bool)
  | JNum (n : Z)
  | JStr (s : string)
  | JArr (l : list json)
  | JObj (m : gmap string json).

(** The own enumerable properties that [{...v}] copies. *)
Definition spread (v : json) : gmap string json :=
  match v with
  | JObj m => m
  | JArr l => list_to_map (imap (λ i x, (pretty i, x)) l)
  | JStr s => list_to_map (imap (λ i c, (pretty i, JStr (String c ""))) (String.list_ascii_of_string s))
  | _ => ∅
  end.

Record OAuthClientInformation := {
  client_id : string;
  client_secret : option string
}.

Record OAuthClientInformationFull := {
  full_information :> OAuthClientInformation;
  full_metadata : json
}.

Record OAuthClientMetadata := {
  metadata_scope : option string;
  metadata_body : json
}.

Record OAuthTokens := {
  access_token : string;
  token_type : option string;
  expires_in : option Z;
  scope : option string;
  refresh_token : option string
}.

Record AuthorizationServerMetadata := {
  authorization_endpoint : string;
  token_endpoint : string;
  registration_endpoint : option string;
  response_types_supported : list string;
  grant_types_supported : option (list string);
  code_challenge_methods_supported : option (list string);
  token_endpoint_auth_methods_supported : option (list string)
}.

Record OAuthProtectedResourceMetadata := {
  resource : string;
  authorization_servers : option (list string)
}.

Record OAuthErrorResponse := {
  error : string;
  error_description : option string;
  error_uri : option string
}.

(** A required string field of a schema. *)
Definition field_string (m : gmap string json) (k : string) : option string :=
  match m !! k with
  | Some (JStr s) => Some s
  | _ => None
  end.

(** An optional string field: absent, or a string; anything else is a
    parse failure. *)
Definition field_string_optional (m : gmap string json) (k : string) : option (option string) :=
  match m !! k with
  | None => Some None
  | Some (JStr s) => Some (Some s)
  | Some _ => None
  end.

Definition field_number_optional (m : gmap string json) (k : string) : option (option Z) :=
  match m !! k with
  | None => Some None
  | Some (JNum n) => Some (Some n)
  | Some _ => None
  end.

(** Modelled from the spec: the schema [OAuthTokensSchema] of
    [../shared/auth.js], which is not among the sources.  The data model
    gives [access_token] (string) and the optional [refresh_token],
    [token_type], [expires_in] and [scope]. *)
Definition OAuthTokensSchema_parse (v : json) : option OAuthTokens :=
  match v with
  | JObj m =>
      a ← field_string m "access_token";
      t ← field_string_optional m "token_type";
      e ← field_number_optional m "expires_in";
      s ← field_string_optional m "scope";
      r ← field_string_optional m "refresh_token";
      Some {| access_token := a; token_type := t; expires_in := e; scope := s; refresh_token := r |}
  | _ => None
  end.

(** Modelled from the spec: the schema [OAuthErrorResponseSchema] of
    [../shared/auth.js]; the error body is [error] (string) with the
    optional [error_description] and [error_uri]. *)
Definition OAuthErrorResponseSchema_parse (v : json) : option OAuthErrorResponse :=
  match v with
  | JObj m =>
      e ← field_string m "error";
      d ← field_string_optional m "error_description";
      u ← field_string_optional m "error_uri";
      Some {| error := e; error_description := d; error_uri := u |}
  | _ => None
  end.

(** What the module imports from files of the repository that are not
    among the sources: the remaining schemas of [../shared/auth.js], the
    helpers of [../shared/auth-utils.js], the error table of
    [../server/auth/errors.js] and the constant of [../types.js].
    [None] is a thrown [ZodError] for a schema and a thrown [TypeError]
    for [resourceUrlFromServerUrl]. *)
Class Imports := {
  LATEST_PROTOCOL_VERSION : string;
  OAuthMetadataSchema_parse : json → option AuthorizationServerMetadata;
  OpenIdProviderDiscoveryMetadataSchema_parse : json → option AuthorizationServerMetadata;
  OAuthProtectedResourceMetadataSchema_parse : json → option OAuthProtectedResourceMetadata;
  OAuthClientInformationFullSchema_parse : json → option OAuthClientInformationFull;
  resourceUrlFromServerUrl : url_like → option URL;
  checkResourceAllowed : URL → string → bool;
  OAUTH_ERRORS : string → option OAuthErrorClass;
}.

(** [JSON.parse] and the text of a caught exception inside a template
    string. *)
Class Json := {
  JSON_parse : string → option json;
  exn_text : exn → string;
}.

(** ** HTTP messages *)

(** A [Headers] object or a [URLSearchParams] object: an ordered list of
    pairs. *)
Definition pairs := list (string * string).

(** [p.set(k, v)]: the first pair named [k] takes the value, later ones
    are removed; without one the pair is added at the end. *)
Fixpoint pairs_set (k v : string) (p : pairs) : pairs :=
  match p with
  | [] => [(k, v)]
  | (k', v') :: p' =>
      if decide (k' = k) then (k, v) :: filter (λ kv, kv.1 ≠ k) p'
      else (k', v') :: pairs_set k v p'
  end.

(** [p.append(k, v)] *)
Definition pairs_append (k v : string) (p : pairs) : pairs := p ++ [(k, v)].

(** [p.get(k)]: the first value named [k]. *)
Definition pairs_get (k : string) (p : pairs) : option string :=
  snd <$> find (λ kv, bool_decide (kv.1 = k)) p.

Inductive body :=
  | FormBody (params : pairs)
  | JsonBody (v : json).

Record Request := {
  req_url : URL;
  req_method : string;
  req_headers : option pairs;
  req_body : option body
}.

Record Response := {
  status : N;
  res_headers : pairs;
  res_body : string
}.

(** [response.ok] *)
Definition ok (r : Response) : bool :=
  bool_decide (200 ≤ status r ≤ 299)%N.

(** [res.headers.get(name)]: header names compare without case; several
    values are joined. *)
Definition headers_get (name : string) (h : pairs) : option string :=
  match filter (λ kv, Str.toLowerCase kv.1 = Str.toLowerCase name) h with
  | [] => None
  | kv :: rest => Some (foldl (λ acc kv', acc +:+ ", " +:+ kv'.2) kv.2 rest)
  end.

(** ** Client authentication *)

Inductive ClientAuthMethod :=
  | client_secret_basic
  | client_secret_post
  | none.

Global Instance ClientAuthMethod_eq_dec : EqDecision ClientAuthMethod.
Proof. solve_decision. Defined.

Definition selectClientAuthMethod (clientInformation : OAuthClientInformation)
    (supportedMethods : list string) : ClientAuthMethod :=
  let hasClientSecret := bool_decide (client_secret clientInformation ≠ None) in
  if bool_decide (length supportedMethods = 0) then
    if hasClientSecret then client_secret_post else none
  else if hasClientSecret && includes supportedMethods "client_secret_basic" then
    client_secret_basic
  else if hasClientSecret && includes supportedMethods "client_secret_post" then
    client_secret_post
  else if includes supportedMethods "none" then
    none
  else
    if hasClientSecret then client_secret_post else none.

(** A string in a condition: [undefined] and the empty string are falsy. *)
Definition truthy (o : option string) : option string :=
  match o with
  | Some "" => None
  | _ => o
  end.

Section ClientAuthentication.
Context {platform : Platform}.

Definition applyBasicAuth (clientId : string) (clientSecret : option string)
    (headers : pairs) : result pairs :=
  match truthy clientSecret with
  | None => Throw (Error "client_secret_basic authentication requires a client_secret")
  | Some clientSecret =>
      match btoa (clientId +:+ ":" +:+ clientSecret) with
      | Some credentials => Ok (pairs_set "Authorization" ("Basic " +:+ credentials) headers)
      | None => Throw (DOMException "InvalidCharacterError")
      end
  end.

Definition applyPostAuth (clientId : string) (clientSecret : option string)
    (params : pairs) : pairs :=
  let params := pairs_set "client_id" clientId params in
  match truthy clientSecret with
  | Some clientSecret => pairs_set "client_secret" clientSecret params
  | None => params
  end.

Definition applyPublicAuth (clientId : string) (params : pairs) : pairs :=
  pairs_set "client_id" clientId params.

(** The headers and the parameters are changed in place; the model
    returns both. *)
Definition applyClientAuthentication (method : ClientAuthMethod)
    (clientInformation : OAuthClientInformation) (headers params : pairs)
  : result (pairs * pairs) :=
  match method with
  | client_secret_basic =>
      result_bind (applyBasicAuth (client_id clientInformation) (client_secret clientInformation) headers)
        (λ headers, Ok (headers, params))
  | client_secret_post =>
      Ok (headers, applyPostAuth (client_id clientInformation) (client_secret clientInformation) params)
  | none =>
      Ok (headers, applyPublicAuth (client_id clientInformation) params)
  end.

End ClientAuthentication.

(** ** Error responses *)

Section ErrorResponse.
Context {js : Json} {imports : Imports}.

(** [JSON.parse(text)] *)
Definition JSON_parse_text (text : string) : result json :=
  match JSON_parse text with
  | Some v => Ok v
  | None => Throw SyntaxError
  end.

(** [response.json()] *)
Definition response_json (r : Response) : result json :=
  JSON_parse_text (res_body r).

(** [Schema.parse(v)] *)
Definition schema_parse {A} (parse : json → option A) (v : json) : result A :=
  match parse v with
  | Some a => Ok a
  | None => Throw ZodError
  end.

(** What [OAUTH_ERRORS[code]] can be.  The table is a plain object: a
    code that is not a key of its own reaches the members that every
    object inherits. *)
Inductive table_member :=
  | ErrorClass (cls : OAuthErrorClass)  (* an entry of the table *)
  | ObjectConstructor                   (* [constructor]: the function [Object] *)
  | NotConstructor.                     (* an inherited method, or the prototype under [__proto__] *)

(** The members of [Object.prototype]. *)
Definition Object_prototype_member (key : string) : option table_member :=
  if decide (key = "constructor") then Some ObjectConstructor
  else if bool_decide (key ∈ ["__defineGetter__"; "__defineSetter__"; "hasOwnProperty";
                              "__lookupGetter__"; "__lookupSetter__"; "isPrototypeOf";
                              "propertyIsEnumerable"; "toString"; "valueOf"; "__proto__";
                              "toLocaleString"])
  then Some NotConstructor
  else None.

(** [OAUTH_ERRORS[code]] *)
Definition OAUTH_ERRORS_at (code : string) : option table_member :=
  match OAUTH_ERRORS code with
  | Some cls => Some (ErrorClass cls)
  | None => Object_prototype_member code
  end.

(** [new errorClass(description, uri)] for [errorClass = OAUTH_ERRORS[code] || ServerError].
    [new Object(text)] is a String object; a member that is no
    constructor makes [new] throw. *)
Definition new_errorClass (code description : string) (uri : option string) : result exn :=
  match OAUTH_ERRORS_at code with
  | Some (ErrorClass cls) => Ok (OAuthError cls description uri)
  | Some ObjectConstructor => Ok (StringObject description)
  | Some NotConstructor => Throw (TypeError "errorClass is not a constructor")
  | None => Ok (OAuthError ServerError description uri)
  end.

(** The function returns the value that its callers throw.  The input
    is a [Response] or the text of a body. *)
Definition parseErrorResponse (input : Response + string) : exn :=
  let statusCode := match input with inl r => Some (status r) | inr _ => None end in
  let body := match input with inl r => res_body r | inr text => text end in
  match result_bind (JSON_parse_text body) (λ v,
        result_bind (schema_parse OAuthErrorResponseSchema_parse v) (λ r,
        new_errorClass (error r) (default "" (truthy (error_description r))) (error_uri r))) with
  | Ok e => e
  | Throw e =>
      let errorMessage :=
        match statusCode with
        | Some statusCode =>
            if bool_decide (statusCode = 0%N) then "" else "HTTP " +:+ pretty statusCode +:+ ": "
        | None => ""
        end
        +:+ "Invalid OAuth error response: " +:+ exn_text e +:+ ". Raw body: " +:+ body in
      OAuthError ServerError errorMessage None
  end.

End ErrorResponse.

(** ** The [WWW-Authenticate] challenge *)

Definition dquote : ascii := "034"%char.

(** The regular expression of [extractResourceMetadataUrl], run with
    [exec] and reduced to its capture group: the text between the first
    occurrence of the parameter name (followed by the equals sign and
    an opening quote) and the next quote.  When no quote follows the
    first occurrence, none follows a later one, and there is no match. *)
Definition resource_metadata_regex_exec (s : string) : option string :=
  rest ← Str.after s ("resource_metadata=" +:+ String dquote "");
  Str.before_char dquote rest.

Section Extract.
Context {platform : Platform}.

Definition extractResourceMetadataUrl (res : Response) : option URL :=
  match truthy (headers_get "WWW-Authenticate" (res_headers res)) with
  | None => None
  | Some authenticateHeader =>
      let parts := Str.split " " authenticateHeader in
      let type := default "" (parts !! 0%nat) in
      let scheme := parts !! 1%nat in
      if negb (bool_decide (Str.toLowerCase type = "bearer")) || negb (bool_decide (is_Some (truthy scheme)))
      then None
      else match resource_metadata_regex_exec authenticateHeader with
           | None => None
           | Some m1 =>
               match new_URL (UStr m1) with
               | Ok u => Some u
               | Throw _ => None
               end
           end
  end.

End Extract.

(** ** Well-known paths *)

Definition buildWellKnownPath (wellKnownPrefix pathname : string) (prependPathname : bool) : string :=
  let pathname := if Str.endsWith pathname "/" then Str.slice_0_m1 pathname else pathname in
  if prependPathname
  then pathname +:+ "/.well-known/" +:+ wellKnownPrefix
  else "/.well-known/" +:+ wellKnownPrefix +:+ pathname.

Definition shouldAttemptFallback (response : option Response) (pathname : string) : bool :=
  match response with
  | None => true
  | Some response => bool_decide (status response = 404%N) && negb (bool_decide (pathname = "/"))
  end.

(** ** The world outside the module *)

Inductive credential_scope :=
  | scope_all
  | scope_client
  | scope_tokens
  | scope_verifier.

(** Which function a request went through: the [fetchFn] handed to the
    module, or the global [fetch]. *)
Inductive fetch_via :=
  | ViaFetchFn
  | ViaGlobalFetch.

Global Instance fetch_via_eq_dec : EqDecision fetch_via.
Proof. solve_decision. Defined.

(** The function of the module whose body holds the call. *)
Inductive fetch_site :=
  | InFetchWithCorsRetry
  | InExchangeAuthorization
  | InRefreshAuthorization
  | InRegisterClient.

Global Instance fetch_site_eq_dec : EqDecision fetch_site.
Proof. solve_decision. Defined.

Inductive ProviderCall :=
  | CallState
  | CallClientInformation
  | CallSaveClientInformation (information : OAuthClientInformationFull)
  | CallTokens
  | CallSaveTokens (tokens : OAuthTokens)
  | CallRedirectToAuthorization (authorizationUrl : URL)
  | CallSaveCodeVerifier (codeVerifier : string)
  | CallCodeVerifier
  | CallAddClientAuthentication
  | CallValidateResourceURL
  | CallInvalidateCredentials (scope : credential_scope).

Inductive Event :=
  | EFetch (via : fetch_via) (site : fetch_site) (request : Request)
  | ECall (call : ProviderCall)
  | EPkceChallenge.

(** The state of the network, of the session provider and of the random
    source, of some type [S], and the log of what the module did. *)
Record World (S : Type) := mkWorld {
  log : list Event;
  outside : S
}.
Arguments mkWorld {S} log outside.
Arguments log {S} w.
Arguments outside {S} w.

(** An effect of the outside world. *)
Definition effect (S A : Type) := S → result A * S.

(** A [FetchLike] function; a network failure is a thrown [TypeError]. *)
Definition FetchLike (S : Type) := Request → effect S Response.

Record OAuthClientProvider (S : Type) := {
  redirectUrl : url_like;
  clientMetadata : OAuthClientMetadata;
  state : option (effect S string);
  clientInformation : effect S (option OAuthClientInformation);
  saveClientInformation : option (OAuthClientInformationFull → effect S unit);
  tokens : effect S (option OAuthTokens);
  saveTokens : OAuthTokens → effect S unit;
  redirectToAuthorization : URL → effect S unit;
  saveCodeVerifier : string → effect S unit;
  codeVerifier : effect S string;
  addClientAuthentication :
    option (pairs → pairs → url_like → option AuthorizationServerMetadata → effect S (pairs * pairs));
  validateResourceURL : option (URL → option string → effect S (option URL));
  invalidateCredentials : option (credential_scope → effect S unit)
}.
Arguments redirectUrl {S} _.
Arguments clientMetadata {S} _.
Arguments state {S} _.
Arguments clientInformation {S} _.
Arguments saveClientInformation {S} _.
Arguments tokens {S} _.
Arguments saveTokens {S} _.
Arguments redirectToAuthorization {S} _.
Arguments saveCodeVerifier {S} _.
Arguments codeVerifier {S} _.
Arguments addClientAuthentication {S} _.
Arguments validateResourceURL {S} _.
Arguments invalidateCredentials {S} _.

(** The global [fetch] and the [pkce-challenge] package, which yields a
    verifier and its challenge. *)
Class Globals (S : Type) := {
  fetch : FetchLike S;
  pkceChallenge : effect S (string * string);
}.

Inductive AuthResult :=
  | AUTHORIZED
  | REDIRECT.

(** ** The monad of the asynchronous functions *)

Definition M (S A : Type) := World S → result A * World S.

Section Monad.
Context {S : Type}.

Definition ret {A} (a : A) : M S A := λ w, (Ok a, w).

Definition bind {A B} (m : M S A) (k : A → M S B) : M S B :=
  λ w, match m w with
       | (Ok a, w') => k a w'
       | (Throw e, w') => (Throw e, w')
       end.

Definition throw {A} (e : exn) : M S A := λ w, (Throw e, w).

(** [try { m } catch (error) { h error }] *)
Definition try_catch {A} (m : M S A) (h : exn → M S A) : M S A :=
  λ w, match m w with
       | (Ok a, w') => (Ok a, w')
       | (Throw e, w') => h e w'
       end.

(** A synchronous computation that may throw. *)
Definition lift {A} (r : result A) : M S A := λ w, (r, w).

(** An effect of the outside world, recorded in the log. *)
Definition perform {A} (e : Event) (f : effect S A) : M S A :=
  λ w, let '(r, s) := f (outside w) in (r, mkWorld (log w ++ [e]) s).

End Monad.

Global Instance M_ret {S} : MRet (M S) := @ret S.
Global Instance M_bind {S} : MBind (M S) := λ A B k m, bind m k.

Section Fetching.
Context {S : Type} {platform : Platform} {js : Json} {imports : Imports} {globals : Globals S}.

(** [(fetchFn ?? fetch)(url, init)], also for a parameter that
    defaults to [fetch]: [None] is the global function. *)
Definition call_fetch (site : fetch_site) (fetchFn : option (FetchLike S))
    (request : Request) : M S Response :=
  match fetchFn with
  | Some f => perform (EFetch ViaFetchFn site request) (f request)
  | None => perform (EFetch ViaGlobalFetch site request) (fetch request)
  end.

Definition fetchWithCorsRetry_body (retry : M S (option Response))
    (url : URL) (headers : option pairs) (fetchFn : option (FetchLike S))
  : M S (option Response) :=
  try_catch
    (response ← call_fetch InFetchWithCorsRetry fetchFn
                  {| req_url := url; req_method := "GET"; req_headers := headers; req_body := None |};
     ret (Some response))
    (λ error,
       match error with
       | TypeError _ =>
           match headers with
           | Some _ => retry
           | None => ret None
           end
       | _ => throw error
       end).

(** The function calls itself once at most, without headers, and that
    call cannot call again: two copies of the body are the function. *)
Definition fetchWithCorsRetry (url : URL) (headers : option pairs)
    (fetchFn : option (FetchLike S)) : M S (option Response) :=
  fetchWithCorsRetry_body (fetchWithCorsRetry_body (ret None) url None fetchFn)
    url headers fetchFn.

Definition tryMetadataDiscovery (url : URL) (protocolVersion : string)
    (fetchFn : option (FetchLike S)) : M S (option Response) :=
  let headers := [("MCP-Protocol-Version", protocolVersion)] in
  fetchWithCorsRetry url (Some headers) fetchFn.

(** A [string | URL] in a condition: the empty string is falsy. *)
Definition truthy_url (o : option url_like) : option url_like :=
  match o with
  | Some (UStr "") => None
  | _ => o
  end.

Definition discoverMetadataWithFallback (serverUrl : url_like) (wellKnownType : string)
    (fetchFn : option (FetchLike S))
    (protocolVersion : option string) (metadataUrl metadataServerUrl : option url_like)
  : M S (option Response) :=
  issuer ← lift (new_URL serverUrl);
  let protocolVersion := default LATEST_PROTOCOL_VERSION protocolVersion in
  url ← match truthy_url metadataUrl with
        | Some metadataUrl => lift (new_URL metadataUrl)
        | None =>
            let wellKnownPath := buildWellKnownPath wellKnownType (pathname issuer) false in
            base ← lift (new_URL (default (UObj issuer) metadataServerUrl));
            url ← lift (URL_resolve wellKnownPath base);
            ret (mkURL (protocol url) (host url) (pathname url) (searchParams issuer) (hash url))
        end;
  response ← tryMetadataDiscovery url protocolVersion fetchFn;
  if negb (bool_decide (is_Some (truthy_url metadataUrl)))
     && shouldAttemptFallback response (pathname issuer)
  then
    rootUrl ← lift (URL_resolve ("/.well-known/" +:+ wellKnownType) issuer);
    tryMetadataDiscovery rootUrl protocolVersion fetchFn
  else ret response.

Definition discoverOAuthProtectedResourceMetadata (serverUrl : url_like)
    (protocolVersion : option string) (resourceMetadataUrl : option url_like)
    (fetchFn : option (FetchLike S)) : M S OAuthProtectedResourceMetadata :=
  response ← discoverMetadataWithFallback serverUrl "oauth-protected-resource" fetchFn
               protocolVersion resourceMetadataUrl None;
  match response with
  | None => throw (Error "Resource server does not implement OAuth 2.0 Protected Resource Metadata.")
  | Some response =>
      if bool_decide (status response = 404%N) then
        throw (Error "Resource server does not implement OAuth 2.0 Protected Resource Metadata.")
      else if negb (ok response) then
        throw (Error ("HTTP " +:+ pretty (status response)
                      +:+ " trying to load well-known OAuth protected resource metadata."))
      else
        v ← lift (response_json response);
        lift (schema_parse OAuthProtectedResourceMetadataSchema_parse v)
  end.

(** The deprecated lookup of RFC 8414 metadata. *)
Definition discoverOAuthMetadata (issuer : url_like)
    (authorizationServerUrl : option url_like) (protocolVersion : option string)
    (fetchFn : option (FetchLike S)) : M S (option AuthorizationServerMetadata) :=
  issuer ← lift (new_URL issuer);
  authorizationServerUrl ← lift (new_URL (default (UObj issuer) (truthy_url authorizationServerUrl)));
  let protocolVersion := default LATEST_PROTOCOL_VERSION protocolVersion in
  response ← discoverMetadataWithFallback (UObj authorizationServerUrl)
               "oauth-authorization-server" fetchFn
               (Some protocolVersion) None (Some (UObj authorizationServerUrl));
  match response with
  | None => ret None
  | Some response =>
      if bool_decide (status response = 404%N) then ret None
      else if negb (ok response) then
        throw (Error ("HTTP " +:+ pretty (status response)
                      +:+ " trying to load well-known OAuth metadata"))
      else
        v ← lift (response_json response);
        metadata ← lift (schema_parse OAuthMetadataSchema_parse v);
        ret (Some metadata)
  end.

Definition type_name (type : discovery_type) : string :=
  match type with
  | oauth => "OAuth"
  | oidc => "OpenID provider"
  end.

(** The loop of [discoverAuthorizationServerMetadata] over the
    candidates that are left. *)
Fixpoint discoverAuthorizationServerMetadata_loop (headers : pairs)
    (fetchFn : option (FetchLike S)) (urlsToTry : list (URL * discovery_type))
  : M S (option AuthorizationServerMetadata) :=
  match urlsToTry with
  | [] => ret None
  | (endpointUrl, type) :: urlsToTry =>
      response ← fetchWithCorsRetry endpointUrl (Some headers) fetchFn;
      match response with
      | None =>
          throw (Error ("CORS error trying to load " +:+ type_name type
                        +:+ " metadata from " +:+ href endpointUrl))
      | Some response =>
          if negb (ok response) then
            if bool_decide (400 ≤ status response)%N && bool_decide (status response < 500)%N
            then discoverAuthorizationServerMetadata_loop headers fetchFn urlsToTry
            else throw (Error ("HTTP " +:+ pretty (status response) +:+ " trying to load "
                               +:+ type_name type +:+ " metadata from " +:+ href endpointUrl))
          else
            match type with
            | oauth =>
                v ← lift (response_json response);
                metadata ← lift (schema_parse OAuthMetadataSchema_parse v);
                ret (Some metadata)
            | oidc =>
                v ← lift (response_json response);
                metadata ← lift (schema_parse OpenIdProviderDiscoveryMetadataSchema_parse v);
                if negb (from_option (λ l, includes l "S256") false
                           (code_challenge_methods_supported metadata))
                then throw (Error ("Incompatible OIDC provider at " +:+ href endpointUrl
                       +:+ ": does not support S256 code challenge method required by MCP specification"))
                else ret (Some metadata)
            end
      end
  end.

Definition discoverAuthorizationServerMetadata (authorizationServerUrl : url_like)
    (fetchFn : option (FetchLike S)) (protocolVersion : option string)
  : M S (option AuthorizationServerMetadata) :=
  let protocolVersion := default LATEST_PROTOCOL_VERSION protocolVersion in
  let headers := [("MCP-Protocol-Version", protocolVersion)] in
  urlsToTry ← lift (buildDiscoveryUrls authorizationServerUrl);
  discoverAuthorizationServerMetadata_loop headers fetchFn urlsToTry.

End Fetching.

(** ** Flow primitives *)

Section Primitives.
Context {S : Type} {platform : Platform} {js : Json} {imports : Imports} {globals : Globals S}.

(** The type of [provider.addClientAuthentication]. *)
Definition ClientAuthenticator :=
  pairs → pairs → url_like → option AuthorizationServerMetadata → effect S (pairs * pairs).

(** [arr && !arr.includes(x)] and [!arr || !arr.includes(x)] on an
    optional array. *)
Definition present_without (arr : option (list string)) (x : string) : bool :=
  from_option (λ l, negb (includes l x)) false arr.
Definition absent_or_without (arr : option (list string)) (x : string) : bool :=
  from_option (λ l, negb (includes l x)) true arr.

Definition set_resource (resource : option URL) (params : pairs) : pairs :=
  match resource with
  | Some resource => pairs_set "resource" (href resource) params
  | None => params
  end.

Definition startAuthorization (authorizationServerUrl : url_like)
    (metadata : option AuthorizationServerMetadata)
    (clientInformation : OAuthClientInformation) (redirectUrl : url_like)
    (scope state : option string) (resource : option URL)
  : M S (URL * string) :=
  let responseType := "code" in
  let codeChallengeMethod := "S256" in
  authorizationUrl ←
    match metadata with
    | Some metadata =>
        authorizationUrl ← lift (new_URL (UStr (authorization_endpoint metadata)));
        if negb (includes (response_types_supported metadata) responseType) then
          throw (Error ("Incompatible auth server: does not support response type "
                        +:+ responseType))
        else if absent_or_without (code_challenge_methods_supported metadata) codeChallengeMethod then
          throw (Error ("Incompatible auth server: does not support code challenge method "
                        +:+ codeChallengeMethod))
        else ret authorizationUrl
    | None => lift (new_URL_at "/authorize" authorizationServerUrl)
    end;
  challenge ← perform EPkceChallenge pkceChallenge;
  let codeVerifier := challenge.1 in
  let codeChallenge := challenge.2 in
  let q := searchParams authorizationUrl in
  let q := pairs_set "response_type" responseType q in
  let q := pairs_set "client_id" (client_id clientInformation) q in
  let q := pairs_set "code_challenge" codeChallenge q in
  let q := pairs_set "code_challenge_method" codeChallengeMethod q in
  let q := pairs_set "redirect_uri" (String_of redirectUrl) q in
  let q := match truthy state with
           | Some state => pairs_set "state" state q
           | None => q
           end in
  let q := match truthy scope with
           | Some scope => pairs_set "scope" scope q
           | None => q
           end in
  let q := if from_option (λ scope, Str.includes scope "offline_access") false scope
           then pairs_append "prompt" "consent" q
           else q in
  let q := set_resource resource q in
  ret (mkURL (protocol authorizationUrl) (host authorizationUrl) (pathname authorizationUrl)
         q (hash authorizationUrl), codeVerifier).

(** The provider's authenticator when there is one (it is called, not
    awaited), the selector otherwise. *)
Definition authenticate (addClientAuthentication : option ClientAuthenticator)
    (authorizationServerUrl : url_like) (metadata : option AuthorizationServerMetadata)
    (clientInformation : OAuthClientInformation) (headers params : pairs)
  : M S (pairs * pairs) :=
  match addClientAuthentication with
  | Some addClientAuthentication =>
      perform (ECall CallAddClientAuthentication)
        (addClientAuthentication headers params authorizationServerUrl metadata)
  | None =>
      let supportedMethods :=
        default [] (metadata ≫= token_endpoint_auth_methods_supported) in
      let authMethod := selectClientAuthMethod clientInformation supportedMethods in
      lift (applyClientAuthentication authMethod clientInformation headers params)
  end.

Definition exchangeAuthorization (authorizationServerUrl : url_like)
    (metadata : option AuthorizationServerMetadata)
    (clientInformation : OAuthClientInformation)
    (authorizationCode codeVerifier : string) (redirectUri : url_like)
    (resource : option URL) (addClientAuthentication : option ClientAuthenticator)
    (fetchFn : option (FetchLike S)) : M S OAuthTokens :=
  let grantType := "authorization_code" in
  tokenUrl ← match truthy (token_endpoint <$> metadata) with
             | Some token_endpoint => lift (new_URL (UStr token_endpoint))
             | None => lift (new_URL_at "/token" authorizationServerUrl)
             end;
  if present_without (metadata ≫= grant_types_supported) grantType then
    throw (Error ("Incompatible auth server: does not support grant type " +:+ grantType))
  else
    let headers := [("Content-Type", "application/x-www-form-urlencoded");
                    ("Accept", "application/json")] in
    let params := [("grant_type", grantType); ("code", authorizationCode);
                   ("code_verifier", codeVerifier);
                   ("redirect_uri", String_of redirectUri)] in
    '(headers, params) ← authenticate addClientAuthentication authorizationServerUrl
                           metadata clientInformation headers params;
    let params := set_resource resource params in
    response ← call_fetch InExchangeAuthorization fetchFn
                 {| req_url := tokenUrl; req_method := "POST";
                    req_headers := Some headers; req_body := Some (FormBody params) |};
    if negb (ok response) then throw (parseErrorResponse (inl response))
    else
      v ← lift (response_json response);
      lift (schema_parse OAuthTokensSchema_parse v).

Definition refreshAuthorization (authorizationServerUrl : url_like)
    (metadata : option AuthorizationServerMetadata)
    (clientInformation : OAuthClientInformation) (refreshToken : string)
    (resource : option URL) (addClientAuthentication : option ClientAuthenticator)
    (fetchFn : option (FetchLike S)) : M S OAuthTokens :=
  let grantType := "refresh_token" in
  tokenUrl ←
    match metadata with
    | Some metadata =>
        tokenUrl ← lift (new_URL (UStr (token_endpoint metadata)));
        if present_without (grant_types_supported metadata) grantType then
          throw (Error ("Incompatible auth server: does not support grant type " +:+ grantType))
        else ret tokenUrl
    | None => lift (new_URL_at "/token" authorizationServerUrl)
    end;
  let headers := [("Content-Type", "application/x-www-form-urlencoded")] in
  let params := [("grant_type", grantType); ("refresh_token", refreshToken)] in
  '(headers, params) ← authenticate addClientAuthentication authorizationServerUrl
                         metadata clientInformation headers params;
  let params := set_resource resource params in
  response ← call_fetch InRefreshAuthorization fetchFn
               {| req_url := tokenUrl; req_method := "POST";
                  req_headers := Some headers; req_body := Some (FormBody params) |};
  if negb (ok response) then throw (parseErrorResponse (inl response))
  else
    v ← lift (response_json response);
    lift (schema_parse OAuthTokensSchema_parse
            (JObj (spread v ∪ {[ "refresh_token" := JStr refreshToken ]}))).

Definition registerClient (authorizationServerUrl : url_like)
    (metadata : option AuthorizationServerMetadata) (clientMetadata : OAuthClientMetadata)
    (fetchFn : option (FetchLike S)) : M S OAuthClientInformationFull :=
  registrationUrl ←
    match metadata with
    | Some metadata =>
        match truthy (registration_endpoint metadata) with
        | None => throw (Error "Incompatible auth server: does not support dynamic client registration")
        | Some registration_endpoint => lift (new_URL (UStr registration_endpoint))
        end
    | None => lift (new_URL_at "/register" authorizationServerUrl)
    end;
  response ← call_fetch InRegisterClient fetchFn
               {| req_url := registrationUrl; req_method := "POST";
                  req_headers := Some [("Content-Type", "application/json")];
                  req_body := Some (JsonBody (metadata_body clientMetadata)) |};
  if negb (ok response) then throw (parseErrorResponse (inl response))
  else
    v ← lift (response_json response);
    lift (schema_parse OAuthClientInformationFullSchema_parse v).

End Primitives.

(** ** Orchestrator *)

Definition instanceof_OAuthError (e : exn) : bool :=
  match e with
  | OAuthError _ _ _ => true
  | _ => false
  end.

Definition instanceof (cls : OAuthErrorClass) (e : exn) : bool :=
  match e with
  | OAuthError c _ _ => bool_decide (c = cls)
  | _ => false
  end.

Section Orchestrator.
Context {S : Type} {platform : Platform} {js : Json} {imports : Imports} {globals : Globals S}.

Definition selectResourceURL (serverUrl : url_like) (provider : OAuthClientProvider S)
    (resourceMetadata : option OAuthProtectedResourceMetadata) : M S (option URL) :=
  defaultResource ← lift (match resourceUrlFromServerUrl serverUrl with
                          | Some u => Ok u
                          | None => Throw (TypeError "Invalid URL")
                          end);
  match validateResourceURL provider with
  | Some validateResourceURL =>
      perform (ECall CallValidateResourceURL)
        (validateResourceURL defaultResource (resource <$> resourceMetadata))
  | None =>
      match resourceMetadata with
      | None => ret None
      | Some resourceMetadata =>
          if negb (checkResourceAllowed defaultResource (resource resourceMetadata)) then
            throw (Error ("Protected resource " +:+ resource resourceMetadata
                          +:+ " does not match expected " +:+ href defaultResource
                          +:+ " (or origin)"))
          else
            u ← lift (new_URL (UStr (resource resourceMetadata)));
            ret (Some u)
      end
  end.

(** [provider.invalidateCredentials?.(scope)] *)
Definition invalidate (provider : OAuthClientProvider S) (scope : credential_scope) : M S unit :=
  match invalidateCredentials provider with
  | Some invalidateCredentials =>
      perform (ECall (CallInvalidateCredentials scope)) (invalidateCredentials scope)
  | None => ret ()
  end.

Definition authInternal (provider : OAuthClientProvider S) (serverUrl : url_like)
    (authorizationCode scope : option string) (resourceMetadataUrl : option URL)
    (fetchFn : option (FetchLike S)) : M S AuthResult :=
  '(resourceMetadata, authorizationServerUrl) ←
    try_catch
      (resourceMetadata ← discoverOAuthProtectedResourceMetadata serverUrl None
                            (UObj <$> resourceMetadataUrl) fetchFn;
       ret (Some resourceMetadata,
            match authorization_servers resourceMetadata with
            | Some (first :: _) => Some (UStr first)
            | _ => None
            end))
      (λ _, ret (None, None));
  let authorizationServerUrl := default serverUrl (truthy_url authorizationServerUrl) in
  resource ← selectResourceURL serverUrl provider resourceMetadata;
  metadata ← discoverAuthorizationServerMetadata authorizationServerUrl fetchFn None;
  clientInformation ← perform (ECall CallClientInformation) (clientInformation provider);
  clientInformation ←
    match clientInformation with
    | Some clientInformation => ret clientInformation
    | None =>
        if bool_decide (authorizationCode ≠ None) then
          throw (Error "Existing OAuth client information is required when exchanging an authorization code")
        else
          match saveClientInformation provider with
          | None => throw (Error "OAuth client information must be saveable for dynamic registration")
          | Some saveClientInformation =>
              fullInformation ← registerClient authorizationServerUrl metadata
                                  (clientMetadata provider) None;
              _ ← perform (ECall (CallSaveClientInformation fullInformation))
                    (saveClientInformation fullInformation);
              ret (full_information fullInformation)
          end
    end;
  match authorizationCode with
  | Some authorizationCode =>
      codeVerifier ← perform (ECall CallCodeVerifier) (codeVerifier provider);
      tokens ← exchangeAuthorization authorizationServerUrl metadata clientInformation
                 authorizationCode codeVerifier (redirectUrl provider) resource
                 (addClientAuthentication provider) fetchFn;
      _ ← perform (ECall (CallSaveTokens tokens)) (saveTokens provider tokens);
      ret AUTHORIZED
  | None =>
      tokens ← perform (ECall CallTokens) (tokens provider);
      refreshed ←
        match truthy (tokens ≫= refresh_token) with
        | Some refresh_token =>
            try_catch
              (newTokens ← refreshAuthorization authorizationServerUrl metadata
                             clientInformation refresh_token resource
                             (addClientAuthentication provider) None;
               _ ← perform (ECall (CallSaveTokens newTokens)) (saveTokens provider newTokens);
               ret (Some AUTHORIZED))
              (λ error,
                 if negb (instanceof_OAuthError error) || instanceof ServerError error
                 then ret None
                 else throw error)
        | None => ret None
        end;
      match refreshed with
      | Some authorized => ret authorized
      | None =>
          state ← match state provider with
                  | Some state => s ← perform (ECall CallState) state; ret (Some s)
                  | None => ret None
                  end;
          '(authorizationUrl, codeVerifier) ←
            startAuthorization authorizationServerUrl metadata clientInformation
              (redirectUrl provider)
              (match truthy scope with
               | Some scope => Some scope
               | None => metadata_scope (clientMetadata provider)
               end)
              state resource;
          _ ← perform (ECall (CallSaveCodeVerifier codeVerifier))
                (saveCodeVerifier provider codeVerifier);
          _ ← perform (ECall (CallRedirectToAuthorization authorizationUrl))
                (redirectToAuthorization provider authorizationUrl);
          ret REDIRECT
      end
  end.

Definition auth (provider : OAuthClientProvider S) (serverUrl : url_like)
    (authorizationCode scope : option string) (resourceMetadataUrl : option URL)
    (fetchFn : option (FetchLike S)) : M S AuthResult :=
  try_catch
    (authInternal provider serverUrl authorizationCode scope resourceMetadataUrl fetchFn)
    (λ error,
       if instanceof InvalidClientError error || instanceof UnauthorizedClientError error then
         _ ← invalidate provider scope_all;
         authInternal provider serverUrl authorizationCode scope resourceMetadataUrl fetchFn
       else if instanceof InvalidGrantError error then
         _ ← invalidate provider scope_tokens;
         authInternal provider serverUrl authorizationCode scope resourceMetadataUrl fetchFn
       else throw error).

End Orchestrator.

(** ** Notions of the specification *)

(** [P] is the path [p] with any trailing slash stripped. *)
Definition stripped (p P : string) : Prop :=
  p = P +:+ "/" ∨ (P = p ∧ ∀ q, p ≠ q +:+ "/").

(** The well-known paths of the discovery URL builder. *)
Definition oauth_well_known : string := "/.well-known/oauth-authorization-server".
Definition oidc_well_known : string := "/.well-known/openid-configuration".

(** The URL [{origin}{path}] on the origin of [u]. *)
Definition at_origin (u : URL) (path : string) : URL :=
  mkURL (protocol u) (host u) path [] "".

(** Modelled from the spec: the error kinds of the specification, which
    the code does not have as types.  Every error the module raises
    itself is an [Error] with a message; its kind is read off the
    message.  A [TypeError] is what a failed request throws. *)
Inductive error_kind :=
  | NotImplemented
  | Transport
  | Server
  | Incompatible
  | MissingSecret
  | ResourceMismatch
  | StateMissing
  | Unsupported
  | OAuthTaxonomy
  | Unclassified.

Definition kind_of (e : exn) : error_kind :=
  match e with
  | OAuthError ServerError _ _ => Server
  | OAuthError _ _ _ => OAuthTaxonomy
  | TypeError _ => Transport
  | Error msg =>
      if Str.startsWith msg "Resource server does not implement" then NotImplemented
      else if Str.startsWith msg "CORS error" then Transport
      else if Str.startsWith msg "HTTP " then Server
      else if Str.startsWith msg "Incompatible" then Incompatible
      else if Str.startsWith msg "client_secret_basic authentication requires a client_secret"
      then MissingSecret
      else if Str.startsWith msg "Protected resource" then ResourceMismatch
      else if Str.startsWith msg "Existing OAuth client information is required" then StateMissing
      else if Str.startsWith msg "OAuth client information must be saveable" then Unsupported
      else Unclassified
  | _ => Unclassified
  end.

(** The scheme token of a challenge: the text before the first space. *)
Definition scheme_token (h : string) : string :=
  default h (Str.before_char " " h).

(** ** A platform to run the examples on *)

(** A parser for texts of the form scheme://host/path, enough for the
    URLs of the examples. *)
Definition example_URL_parse (s : string) : option URL :=
  scheme ← Str.before_char ":" s;
  rest ← Str.strip_prefix (scheme +:+ "://") s;
  let '(h, p) := split_authority rest in
  if decide (h = "") then None
  else Some (mkURL (scheme +:+ ":") h (if decide (p = "") then "/" else p) [] "").

Definition example_urlencoded (q : list (string * string)) : string :=
  foldl (λ acc kv, (if decide (acc = "") then "" else acc +:+ "&") +:+ kv.1 +:+ "=" +:+ kv.2) "" q.

Definition example_platform : Platform := {|
  URL_parse := example_URL_parse;
  host_parse := λ a, if decide (a = "") then None else Some a;
  urlencoded := example_urlencoded;
  btoa := λ s,
    if forallb (λ c, Nat.ltb (nat_of_ascii c) 196) (list_ascii_of_string s)
    then Some ("base64(" +:+ s +:+ ")") else None
|}.

(** ** Inputs of the examples *)

Definition example_tenant_url : URL :=
  mkURL "https:" "auth.example.com" "/tenant1/" [] "".

Definition example_challenge (gap : string) : Response :=
  {| status := 401;
     res_headers :=
       [("WWW-Authenticate",
         "Bearer" +:+ gap +:+ "resource_metadata=" +:+ String dquote
           ("https://srv/.well-known/oauth-protected-resource" +:+ String dquote ""))];
     res_body := "" |}.

(** ** What a computation adds to the log *)

(** Every run of [m] appends to the log, and only events of [Q]. *)
Definition emits {S A} (Q : Event → Prop) (m : M S A) : Prop :=
  ∀ w, ∃ evs, log (m w).2 = log w ++ evs ∧ Forall Q evs.

(** ** Notions of the specification: protected-resource discovery *)

(** The path-aware well-known URL of a server and the one at the root
    of its origin. *)
Definition protected_resource_url (issuer : URL) (P : string) : URL :=
  mkURL (protocol issuer) (host issuer) ("/.well-known/oauth-protected-resource" +:+ P)
    (searchParams issuer) "".

Definition protected_resource_root (issuer : URL) : URL :=
  at_origin issuer "/.well-known/oauth-protected-resource".

(** The first attempt is absent: no response, or a 404 away from the
    root path. *)
Definition absent (response : option Response) (issuer : URL) : Prop :=
  response = None
  ∨ ∃ r, response = Some r ∧ status r = 404%N ∧ pathname issuer ≠ "/".

(** The request of a discovery attempt. *)
Definition discovery_request (url : URL) (headers : option pairs) : Request :=
  {| req_url := url; req_method := "GET"; req_headers := headers; req_body := None |}.

Definition via_of {S} (fetchFn : option (FetchLike S)) : fetch_via :=
  match fetchFn with
  | Some _ => ViaFetchFn
  | None => ViaGlobalFetch
  end.

Definition not_implemented : exn :=
  Error "Resource server does not implement OAuth 2.0 Protected Resource Metadata.".

(** ** A session, a server and a provider to run the examples on *)

Record Session := {
  session_client : option OAuthClientInformation;
  session_tokens : option OAuthTokens;
  session_verifier : string
}.

(** The bodies that the example server sends, by name. *)
Definition example_JSON_parse (body : string) : option json :=
  if decide (body = "tokens A2") then
    Some (JObj (list_to_map [("access_token", JStr "A2"); ("token_type", JStr "Bearer")]))
  else if decide (body = "tokens A2 R2") then
    Some (JObj (list_to_map [("access_token", JStr "A2"); ("token_type", JStr "Bearer");
                             ("refresh_token", JStr "R2")]))
  else if decide (body = "error invalid_client") then
    Some (JObj (list_to_map [("error", JStr "invalid_client")]))
  else if decide (body = "error invalid_grant") then
    Some (JObj (list_to_map [("error", JStr "invalid_grant")]))
  else if decide (body = "openid plain") then
    Some (JObj (list_to_map [("authorization_endpoint", JStr "https://auth.example.com/authorize");
                             ("token_endpoint", JStr "https://auth.example.com/token");
                             ("code_challenge_methods_supported", JArr [JStr "plain"])]))
  else if decide (body = "error constructor") then
    Some (JObj (list_to_map [("error", JStr "constructor");
                             ("error_description", JStr "no such client")]))
  else None.

Definition example_json : Json := {|
  JSON_parse := example_JSON_parse;
  exn_text := λ e, match e with
                   | SyntaxError => "SyntaxError"
                   | ZodError => "ZodError"
                   | _ => "Error"
                   end
|}.

Definition field_strings (m : gmap string json) (k : string) : option (option (list string)) :=
  match m !! k with
  | None => Some None
  | Some (JArr l) =>
      Some <$> mapM (λ v, match v with JStr s => Some s | _ => None end) l
  | Some _ => None
  end.

Definition example_metadata_parse (v : json) : option AuthorizationServerMetadata :=
  match v with
  | JObj m =>
      a ← field_string m "authorization_endpoint";
      t ← field_string m "token_endpoint";
      r ← field_string_optional m "registration_endpoint";
      rt ← field_strings m "response_types_supported";
      g ← field_strings m "grant_types_supported";
      c ← field_strings m "code_challenge_methods_supported";
      am ← field_strings m "token_endpoint_auth_methods_supported";
      Some {| authorization_endpoint := a; token_endpoint := t; registration_endpoint := r;
              response_types_supported := default [] rt; grant_types_supported := g;
              code_challenge_methods_supported := c;
              token_endpoint_auth_methods_supported := am |}
  | _ => None
  end.

Definition example_imports : Imports := {|
  LATEST_PROTOCOL_VERSION := "2025-06-18";
  OAuthMetadataSchema_parse := example_metadata_parse;
  OpenIdProviderDiscoveryMetadataSchema_parse := example_metadata_parse;
  OAuthProtectedResourceMetadataSchema_parse := λ v,
    match v with
    | JObj m =>
        r ← field_string m "resource";
        a ← field_strings m "authorization_servers";
        Some {| resource := r; authorization_servers := a |}
    | _ => None
    end;
  OAuthClientInformationFullSchema_parse := λ v,
    match v with
    | JObj m =>
        i ← field_string m "client_id";
        s ← field_string_optional m "client_secret";
        Some {| full_information := {| client_id := i; client_secret := s |};
                full_metadata := v |}
    | _ => None
    end;
  resourceUrlFromServerUrl := λ x,
    match x with
    | UStr s => example_URL_parse s
    | UObj u => Some (mkURL (protocol u) (host u) (pathname u) (searchParams u) "")
    end;
  checkResourceAllowed := λ requested configured,
    from_option (λ c, bool_decide (protocol c = protocol requested ∧ host c = host requested))
      false (example_URL_parse configured);
  OAUTH_ERRORS := λ code,
    if decide (code = "invalid_client") then Some InvalidClientError
    else if decide (code = "unauthorized_client") then Some UnauthorizedClientError
    else if decide (code = "invalid_grant") then Some InvalidGrantError
    else if decide (code = "server_error") then Some ServerError
    else if decide (code = "invalid_request") then Some (OtherOAuthError code)
    else None
|}.

Definition form_value (request : Request) (k : string) : option string :=
  match req_body request with
  | Some (FormBody params) => pairs_get k params
  | _ => None
  end.

Definition respond (code : N) (text : string) : Response :=
  {| status := code; res_headers := []; res_body := text |}.

(** A server without metadata documents: every well-known URL is a 404;
    the token endpoint of the origin answers the two grants (it keeps
    the refresh token [R1] and rotates [R0]), rejects the refresh token
    [revoked] and the client of the refresh token [stranger]. *)
Definition example_server (request : Request) : Response :=
  if decide (req_method request = "GET") then respond 404 ""
  else if decide (pathname (req_url request) = "/token") then
    match form_value request "grant_type", form_value request "refresh_token" with
    | Some "authorization_code", _ => respond 200 "tokens A2 R2"
    | Some "refresh_token", Some "R1" => respond 200 "tokens A2"
    | Some "refresh_token", Some "R0" => respond 200 "tokens A2 R2"
    | Some "refresh_token", Some "revoked" => respond 400 "error invalid_grant"
    | Some "refresh_token", Some "stranger" => respond 401 "error invalid_client"
    | _, _ => respond 500 ""
    end
  else respond 404 "".

Definition example_fetch : FetchLike Session :=
  λ request s, (Ok (example_server request), s).

(** A network on which every request fails. *)
Definition failing_fetch : FetchLike Session :=
  λ request s, (Throw (TypeError "Failed to fetch"), s).

(** A server that answers every request with one status. *)
Definition constant_fetch (code : N) (text : string) : FetchLike Session :=
  λ request s, (Ok (respond code text), s).

Definition example_globals : Globals Session := {|
  fetch := example_fetch;
  pkceChallenge := λ s, (Ok ("verifier", "challenge"), s)
|}.

(** A provider over the session store; [can_invalidate] tells whether it
    implements [invalidateCredentials]. *)
Definition example_provider (can_invalidate : bool) : OAuthClientProvider Session := {|
  redirectUrl := UStr "https://app.example.com/callback";
  clientMetadata := {| metadata_scope := None; metadata_body := JObj ∅ |};
  state := None;
  clientInformation := λ s, (Ok (session_client s), s);
  saveClientInformation := None;
  tokens := λ s, (Ok (session_tokens s), s);
  saveTokens := λ t s,
    (Ok (), {| session_client := session_client s; session_tokens := Some t;
               session_verifier := session_verifier s |});
  redirectToAuthorization := λ _ s, (Ok (), s);
  saveCodeVerifier := λ v s,
    (Ok (), {| session_client := session_client s; session_tokens := session_tokens s;
               session_verifier := v |});
  codeVerifier := λ s, (Ok (session_verifier s), s);
  addClientAuthentication := None;
  validateResourceURL := None;
  invalidateCredentials :=
    if can_invalidate then
      Some (λ scope s,
              (Ok (), match scope with
                      | scope_all =>
                          {| session_client := None; session_tokens := None;
                             session_verifier := "" |}
                      | scope_client =>
                          {| session_client := None; session_tokens := session_tokens s;
                             session_verifier := session_verifier s |}
                      | scope_tokens =>
                          {| session_client := session_client s; session_tokens := None;
                             session_verifier := session_verifier s |}
                      | scope_verifier =>
                          {| session_client := session_client s;
                             session_tokens := session_tokens s; session_verifier := "" |}
                      end))
    else None
|}.

Definition example_client : OAuthClientInformation :=
  {| client_id := "abc"; client_secret := None |}.

Definition held_tokens (refresh : string) : OAuthTokens :=
  {| access_token := "A1"; token_type := Some "Bearer"; expires_in := None;
     scope := None; refresh_token := Some refresh |}.

Definition example_session (refresh : string) : Session :=
  {| session_client := Some example_client;
     session_tokens := Some (held_tokens refresh);
     session_verifier := "" |}.

Definition example_world (refresh : string) : World Session :=
  mkWorld [] (example_session refresh).

Definition example_server_url : URL :=
  mkURL "https:" "srv.example" "/mcp" [] "".

(** ** Notions of the specification: the authorization request *)






(** ** Notions of the specification: authorization-server discovery *)

(** The function behind a [fetchFn] argument. *)
Definition resolved {S} {globals : Globals S} (fetchFn : option (FetchLike S)) : FetchLike S :=
  default fetch fetchFn.

(** Starting in [w], every candidate of the list answers with a 4xx
    status, and the last answer leaves the world [w']. *)
Inductive all_client_errors {S} {globals : Globals S} (headers : pairs)
    (fetchFn : option (FetchLike S)) : list (URL * discovery_type) → World S → World S → Prop :=
  | all_client_errors_nil w :
      all_client_errors headers fetchFn [] w w
  | all_client_errors_cons endpointUrl type urlsToTry w r w1 w' :
      fetchWithCorsRetry endpointUrl (Some headers) fetchFn w = (Ok (Some r), w1) →
      (400 ≤ status r < 500)%N →
      all_client_errors headers fetchFn urlsToTry w1 w' →
      all_client_errors headers fetchFn ((endpointUrl, type) :: urlsToTry) w w'.

(** The metadata advertises [S256]. *)
Definition supports_S256 (metadata : AuthorizationServerMetadata) : Prop :=
  ∃ l, code_challenge_methods_supported metadata = Some l ∧ "S256" ∈ l.

(** A server whose only metadata document is an OpenID one that
    advertises the [plain] challenge method alone. *)
Definition oidc_plain_fetch : FetchLike Session :=
  λ request s,
    (Ok (if Str.includes (pathname (req_url request)) "openid-configuration"
         then respond 200 "openid plain"
         else respond 404 ""), s).

Definition example_issuer_url : URL :=
  mkURL "https:" "auth.example.com" "/" [] "".

(** ** Notions of the specification: token refresh *)

(** [response.refresh_token] of a response body, when it is a string. *)
Definition response_refresh_token (v : json) : option string :=
  match spread v !! "refresh_token" with
  | Some (JStr s) => Some s
  | _ => None
  end.

(** ** Notions of the specification: which function carries a request *)








(** ** Notions used by the further properties *)

(** How many pairs of a list are named [k]. *)
Definition key_count (k : string) (p : list (string * string)) : nat :=
  length (filter (λ kv, kv.1 = k) p).

(** The path of a URL replaced. *)
Definition with_pathname (u : URL) (p : string) : URL :=
  mkURL (protocol u) (host u) p (searchParams u) (hash u).

(** The path-aware well-known URL of the deprecated metadata lookup. *)
Definition oauth_metadata_url (issuer : URL) (P : string) : URL :=
  mkURL (protocol issuer) (host issuer) ("/.well-known/oauth-authorization-server" +:+ P)
    (searchParams issuer) "".

(** A request of [fetchWithCorsRetry] to [url], with some headers or
    without. *)
Definition requests_only {S} (fetchFn : option (FetchLike S)) (url : URL) (e : Event) : Prop :=
  ∃ h, e = EFetch (via_of fetchFn) InFetchWithCorsRetry (discovery_request url h).

(** What a run of [auth] may do: the network and provider steps that
    belong to the branch of the authorization code, to the branch
    without one, and to the optional methods of the provider. *)
Definition flow_event {S} (provider : OAuthClientProvider S)
    (authorizationCode : option string) (e : Event) : Prop :=
  match e with
  | EFetch _ InFetchWithCorsRetry _ => True
  | EFetch _ InExchangeAuthorization _ => is_Some authorizationCode
  | EFetch _ InRefreshAuthorization _ => authorizationCode = None
  | EFetch _ InRegisterClient _ =>
      authorizationCode = None ∧ is_Some (saveClientInformation provider)
  | ECall CallClientInformation => True
  | ECall (CallSaveTokens _) => True
  | ECall CallCodeVerifier => is_Some authorizationCode
  | ECall CallTokens => authorizationCode = None
  | ECall CallState => authorizationCode = None ∧ is_Some (state provider)
  | ECall (CallSaveCodeVerifier _) => authorizationCode = None
  | ECall (CallRedirectToAuthorization _) => authorizationCode = None
  | ECall (CallSaveClientInformation _) =>
      authorizationCode = None ∧ is_Some (saveClientInformation provider)
  | ECall CallAddClientAuthentication => is_Some (addClientAuthentication provider)
  | ECall CallValidateResourceURL => is_Some (validateResourceURL provider)
  | ECall (CallInvalidateCredentials _) => is_Some (invalidateCredentials provider)
  | EPkceChallenge => authorizationCode = None
  end.

(** How a run of [auth] that returns [result] ends.  From the world
    [w0] on, the run obtained what it then persisted, and the
    persisting steps are its last ones, ending in the world [w'].
    With [AUTHORIZED]: the tokens that [saveTokens] is given are the
    ones that the code exchange returned, called with the code and
    with the verifier read from the provider, or the ones that the
    refresh returned, called with the refresh token of the tokens read
    from the provider.  With [REDIRECT]: the verifier that is saved and
    the URL of the redirect are the pair that [startAuthorization]
    returned. *)
Definition auth_outcome {S} `{Platform} `{Json} `{Imports} `{Globals S}
    (provider : OAuthClientProvider S) (authorizationCode : option string)
    (fetchFn : option (FetchLike S)) (result : AuthResult) (w0 w' : World S) : Prop :=
  match result with
  | AUTHORIZED =>
      ∃ authorizationServerUrl metadata information resource newTokens w1,
        match authorizationCode with
        | Some code =>
            ∃ verifier s,
              codeVerifier provider s = (Ok verifier, outside w0)
              ∧ exchangeAuthorization authorizationServerUrl metadata information code
                  verifier (redirectUrl provider) resource (addClientAuthentication provider)
                  fetchFn w0 = (Ok newTokens, w1)
        | None =>
            ∃ held refreshToken s,
              tokens provider s = (Ok held, outside w0)
              ∧ truthy (held ≫= refresh_token) = Some refreshToken
              ∧ refreshAuthorization authorizationServerUrl metadata information
                  refreshToken resource (addClientAuthentication provider) None w0
                = (Ok newTokens, w1)
        end
        ∧ saveTokens provider newTokens (outside w1) = (Ok (), outside w')
        ∧ log w' = log w1 ++ [ECall (CallSaveTokens newTokens)]
  | REDIRECT =>
      authorizationCode = None
      ∧ ∃ authorizationServerUrl metadata information scope state resource url verifier w1 s2,
          startAuthorization authorizationServerUrl metadata information
            (redirectUrl provider) scope state resource w0 = (Ok (url, verifier), w1)
          ∧ saveCodeVerifier provider verifier (outside w1) = (Ok (), s2)
          ∧ redirectToAuthorization provider url s2 = (Ok (), outside w')
          ∧ log w' = log w1 ++ [ECall (CallSaveCodeVerifier verifier);
                                ECall (CallRedirectToAuthorization url)]
  end.

(** Every run of [m] from a world [w] that returns a value [a] and
    leaves the world [w'] has passed a world [w0] from which it ends as
    [tail a] says. *)
Definition finishes {S A} (tail : A → World S → World S → Prop) (m : M S A) : Prop :=
  ∀ w a w', m w = (Ok a, w') →
    ∃ w0, (∃ evs, log w0 = log w ++ evs) ∧ tail a w0 w'.

(** A request to the token endpoint: a POST of a form, from [site],
    to [metadata.token_endpoint] or without metadata to [/token] on
    the server URL; the form has the [fields] of the grant, names the
    [resource] exactly when there is one, and the client is named in
    the form or in the [Authorization] header. *)
Definition token_request {S} `{Platform} (site : fetch_site) (fetchFn : option (FetchLike S))
    (authorizationServerUrl : url_like) (metadata : option AuthorizationServerMetadata)
    (clientInformation : OAuthClientInformation) (fields : list (string * string))
    (resource : option URL) (e : Event) : Prop :=
  ∃ (tokenUrl : URL) (headers params : list (string * string)),
    e = EFetch (via_of fetchFn) site
          {| req_url := tokenUrl; req_method := "POST"; req_headers := Some headers;
             req_body := Some (FormBody params) |}
    ∧ (metadata = None → new_URL_at "/token" authorizationServerUrl = Ok tokenUrl)
    ∧ (∀ md, metadata = Some md → token_endpoint md ≠ "" →
             new_URL (UStr (token_endpoint md)) = Ok tokenUrl)
    ∧ pairs_get "Content-Type" headers = Some "application/x-www-form-urlencoded"
    ∧ Forall (λ kv, pairs_get kv.1 params = Some kv.2) fields
    ∧ pairs_get "resource" params = href <$> resource
    ∧ (pairs_get "client_id" params = Some (client_id clientInformation)
       ∨ ∃ secret credentials,
           client_secret clientInformation = Some secret
           ∧ btoa (client_id clientInformation +:+ ":" +:+ secret) = Some credentials
           ∧ pairs_get "Authorization" headers = Some ("Basic " +:+ credentials)).

(** A discovery request for one of the [paths] on the origin of [u]: a
    GET without query and fragment, with the protocol version header or
    without headers. *)
Definition origin_request {S} (fetchFn : option (FetchLike S)) (u : URL) (version : string)
    (paths : list string) (e : Event) : Prop :=
  ∃ path h,
    e = EFetch (via_of fetchFn) InFetchWithCorsRetry (discovery_request (at_origin u path) h)
    ∧ path ∈ paths
    ∧ (h = Some [("MCP-Protocol-Version", version)] ∨ h = None).

(** Metadata of a server that offers the client credentials grant only
    and no registration. *)
Definition example_closed_metadata : AuthorizationServerMetadata :=
  {| authorization_endpoint := "https://auth.example.com/authorize";
     token_endpoint := "https://auth.example.com/token";
     registration_endpoint := None;
     response_types_supported := ["code"];
     grant_types_supported := Some ["client_credentials"];
     code_challenge_methods_supported := Some ["S256"];
     token_endpoint_auth_methods_supported := None |}.

(** ** A session with a journal of the calls *)









(** * Theorems *)

Section StringFacts.

Lemma str_app_nil_r (s : string) : s +:+ "" = s.
Proof. induction s as [|a s IH]; [done|]. unfold String.app in *. simpl. by rewrite IH. Qed.

Lemma str_app_assoc (s t u : string) : (s +:+ t) +:+ u = s +:+ t +:+ u.
Proof. induction s as [|a s IH]; [done|]. unfold String.app in *. simpl. by rewrite IH. Qed.

Lemma str_app_nil_l (s : string) : "" +:+ s = s.
Proof. done. Qed.

Lemma str_app_cons (a : ascii) (s t : string) : String a s +:+ t = String a (s +:+ t).
Proof. done. Qed.

Lemma str_app_length (s t : string) :
  String.length (s +:+ t) = String.length s + String.length t.
Proof. induction s as [|a s IH]; [done|]. rewrite str_app_cons. simpl. by rewrite IH. Qed.

Lemma str_app_inv_tail (s t u : string) : s +:+ u = t +:+ u → s = t.
Proof.
  revert t. induction s as [|a s IH]; intros [|b t] Heq; try done.
  - apply (f_equal String.length) in Heq. rewrite !str_app_length in Heq.
    simpl in Heq. exfalso. lia.
  - apply (f_equal String.length) in Heq. rewrite !str_app_length in Heq.
    simpl in Heq. exfalso. lia.
  - rewrite !str_app_cons in Heq. injection Heq as -> Heq. f_equal. by apply IH.
Qed.

Lemma endsWith_slash (p : string) :
  Str.endsWith p "/" = true ↔ ∃ q, p = q +:+ "/".
Proof.
  induction p as [|a p IH]; simpl.
  - split; [done|]. intros [[|b q] Hq]; discriminate.
  - destruct (decide (String a p = "/")) as [Heq|Hne].
    + split; [|done]. intros _. exists "". by rewrite Heq.
    + rewrite IH. split.
      * intros [q ->]. by exists (String a q).
      * intros [[|b q] Hq]; [done|]. rewrite str_app_cons in Hq.
        injection Hq as -> ->. by exists q.
Qed.

Lemma slice_0_m1_app (q : string) : Str.slice_0_m1 (q +:+ "/") = q.
Proof.
  induction q as [|a q IH]; [done|]. rewrite str_app_cons. simpl.
  rewrite IH. by destruct q.
Qed.

(** What the code computes is the stripped path. *)
Lemma stripped_code (p : string) :
  stripped p (if Str.endsWith p "/" then Str.slice_0_m1 p else p).
Proof.
  destruct (Str.endsWith p "/") eqn:He.
  - apply endsWith_slash in He as [q ->]. left. by rewrite slice_0_m1_app.
  - right. split; [done|]. intros q Hq.
    assert (Str.endsWith p "/" = true) by (apply endsWith_slash; eauto). congruence.
Qed.

Lemma stripped_unique (p P P' : string) : stripped p P → stripped p P' → P = P'.
Proof.
  intros [H1|[H1 N1]] [H2|[H2 N2]]; subst.
  - by apply str_app_inv_tail in H2.
  - by destruct (N2 P).
  - by destruct (N1 P').
  - done.
Qed.

End StringFacts.

Section BuilderFacts.
Context {platform : Platform}.

Lemma href_at_origin (u : URL) (path : string) :
  tuple_origin u = true → href (at_origin u path) = origin u +:+ path.
Proof.
  intros Hu. unfold href, origin, search. rewrite Hu. simpl.
  by rewrite !str_app_nil_r, <- !str_app_assoc.
Qed.

Lemma strip_prefix_startsWith (p s : string) :
  Str.startsWith s p = false → Str.strip_prefix p s = None.
Proof.
  revert s. induction p as [|a p IH]; intros [|b s]; simpl; try done.
  case_decide; auto.
Qed.

(** A reference that starts with one slash only is a path on the origin
    of a base that has a tuple origin. *)
Lemma URL_resolve_path (ref : string) (base : URL) :
  tuple_origin base = true →
  Str.startsWith ref "//" = false →
  new_URL_at_origin ref base = Ok (at_origin base ref).
Proof.
  intros Hb Hs. unfold new_URL_at_origin, origin_URL, URL_resolve. rewrite Hb.
  cbn [result_bind]. by rewrite (strip_prefix_startsWith _ _ Hs).
Qed.

(** Nothing resolves against an opaque origin. *)
Lemma URL_resolve_opaque (ref : string) (base : URL) :
  tuple_origin base = false →
  new_URL_at_origin ref base = Throw (TypeError "Invalid URL").
Proof. intros Hb. unfold new_URL_at_origin, origin_URL. by rewrite Hb. Qed.

Lemma endsWith_app (p t : string) : Str.endsWith (p +:+ t) t = true.
Proof.
  induction p as [|a p IH].
  - change ("" +:+ t) with t. destruct t; simpl; [done|]. by case_decide.
  - rewrite str_app_cons. simpl. by case_decide.
Qed.

Lemma stripped_path (p P : string) :
  stripped p P → p ≠ "/" →
  Str.startsWith p "/" = true → Str.startsWith p "//" = false →
  P ≠ "" ∧ Str.startsWith (P +:+ oidc_well_known) "//" = false.
Proof.
  intros HP Hroot H1 H2.
  destruct p as [|a [|b p]]; simpl in H1, H2; try done.
  { repeat case_decide; by subst. }
  destruct (decide ("/"%char = a)) as [<-|]; [|done].
  destruct (decide ("/"%char = b)) as [<-|Hb]; [done|].
  destruct HP as [HP|[-> _]].
  - destruct P as [|a' [|b' P]]; rewrite ?str_app_cons, ?str_app_nil_l in HP; simplify_eq.
    split; [done|]. rewrite !str_app_cons. simpl. by repeat case_decide.
  - split; [done|]. rewrite !str_app_cons. simpl. by repeat case_decide.
Qed.

Lemma oauth_ne_oidc_app (P : string) :
  oauth_well_known ≠ oidc_well_known +:+ P.
Proof. intros Heq. vm_compute in Heq. discriminate. Qed.

Lemma oauth_app_ne_app_oidc (P : string) :
  oauth_well_known +:+ P ≠ P +:+ oidc_well_known.
Proof.
  intros Heq. apply (f_equal String.length) in Heq.
  rewrite !str_app_length in Heq. unfold oauth_well_known, oidc_well_known in Heq.
  simpl in Heq. lia.
Qed.

Lemma oauth_ne_app_oidc (P : string) :
  oauth_well_known ≠ P +:+ oidc_well_known.
Proof.
  intros Heq. pose proof (endsWith_app P oidc_well_known) as He.
  rewrite <- Heq in He. vm_compute in He. discriminate.
Qed.

(** The four candidates are pairwise distinct except for the two OpenID
    ones, which coincide exactly when the path commutes with the OpenID
    well-known path. *)
Lemma four_candidates_NoDup (o P : string) :
  P ≠ "" →
  NoDup [o +:+ oauth_well_known +:+ P; o +:+ oauth_well_known;
         o +:+ oidc_well_known +:+ P; o +:+ P +:+ oidc_well_known]
  ↔ oidc_well_known +:+ P ≠ P +:+ oidc_well_known.
Proof.
  intros HP. rewrite !NoDup_cons, !not_elem_of_cons. split.
  - intros (_ & _ & (Hne & _) & _) Heq. apply Hne. by rewrite Heq.
  - intros Hne. repeat split; try apply NoDup_nil_2; try apply not_elem_of_nil;
      intros Heq; apply (inj (String.app o)) in Heq.
    + apply HP. apply (inj (String.app oauth_well_known)). by rewrite str_app_nil_r.
    + apply str_app_inv_tail in Heq. discriminate.
    + by apply oauth_app_ne_app_oidc in Heq.
    + by apply oauth_ne_oidc_app in Heq.
    + by apply oauth_ne_app_oidc in Heq.
    + done.
Qed.

End BuilderFacts.

Section BuilderTheorems.
Context {platform : Platform}.

Lemma buildDiscoveryUrls_root (x : url_like) (url : URL) :
  new_URL x = Ok url → tuple_origin url = true → pathname url = "/" →
  buildDiscoveryUrls x =
    Ok [(at_origin url oauth_well_known, oauth); (at_origin url oidc_well_known, oidc)].
Proof.
  intros Hx Ht Hp. unfold buildDiscoveryUrls. rewrite Hx. cbn [result_bind].
  rewrite bool_decide_true by done. cbn [negb].
  by rewrite !URL_resolve_path.
Qed.

Lemma buildDiscoveryUrls_path (x : url_like) (url : URL) (P : string) :
  new_URL x = Ok url → tuple_origin url = true → pathname url ≠ "/" →
  Str.startsWith (pathname url) "/" = true →
  Str.startsWith (pathname url) "//" = false →
  stripped (pathname url) P →
  buildDiscoveryUrls x =
    Ok [(at_origin url (oauth_well_known +:+ P), oauth);
        (at_origin url oauth_well_known, oauth);
        (at_origin url (oidc_well_known +:+ P), oidc);
        (at_origin url (P +:+ oidc_well_known), oidc)].
Proof.
  intros Hx Ht Hp H1 H2 HP. unfold buildDiscoveryUrls. rewrite Hx. cbn [result_bind].
  rewrite bool_decide_false by done. cbn [negb].
  rewrite (stripped_unique _ _ _ (stripped_code (pathname url)) HP).
  destruct (stripped_path _ _ HP Hp H1 H2) as [_ H4].
  rewrite !URL_resolve_path; done.
Qed.

(** For a URL with an opaque origin the text [url.origin] is [null],
    and the first candidate already fails to resolve. *)
Lemma buildDiscoveryUrls_opaque (x : url_like) (url : URL) :
  new_URL x = Ok url → tuple_origin url = false →
  buildDiscoveryUrls x = Throw (TypeError "Invalid URL").
Proof.
  intros Hx Ht. unfold buildDiscoveryUrls. rewrite Hx. cbn [result_bind].
  destruct (negb (negb _)); by rewrite URL_resolve_opaque.
Qed.

(** C1, amended.  For an authorization server URL with a tuple origin
    whose path starts with one slash only, [buildDiscoveryUrls] returns
    the two candidates of the root case when the path is the single
    slash, and otherwise the four candidates built from the path [P]
    without its trailing slash, in the order of the specification; the
    URL of a candidate is the origin followed by its path; the first
    entry is an OAuth endpoint; and the URLs are free of duplicates
    exactly when the path is the single slash or the OpenID well-known
    path followed by [P] differs from [P] followed by it.  For a URL
    with an opaque origin the builder throws a [TypeError]. *)
Theorem buildDiscoveryUrls_spec (x : url_like) (url : URL) (P : string) :
  new_URL x = Ok url →
  Str.startsWith (pathname url) "/" = true →
  Str.startsWith (pathname url) "//" = false →
  stripped (pathname url) P →
  (tuple_origin url = false →
   origin url = "null" ∧ buildDiscoveryUrls x = Throw (TypeError "Invalid URL"))
  ∧ (tuple_origin url = true →
     ∃ urls,
       buildDiscoveryUrls x = Ok urls
       ∧ (pathname url = "/" →
          urls = [(at_origin url oauth_well_known, oauth);
                  (at_origin url oidc_well_known, oidc)])
       ∧ (pathname url ≠ "/" →
          urls = [(at_origin url (oauth_well_known +:+ P), oauth);
                  (at_origin url oauth_well_known, oauth);
                  (at_origin url (oidc_well_known +:+ P), oidc);
                  (at_origin url (P +:+ oidc_well_known), oidc)])
       ∧ (∀ path, href (at_origin url path) = origin url +:+ path)
       ∧ (∃ first rest, urls = (first, oauth) :: rest)
       ∧ (NoDup ((λ c, href c.1) <$> urls)
          ↔ pathname url = "/" ∨ oidc_well_known +:+ P ≠ P +:+ oidc_well_known)).
Proof.
  intros Hx H1 H2 HP. split.
  { intros Ht. split; [unfold origin; by rewrite Ht|].
    by apply (buildDiscoveryUrls_opaque x url). }
  intros Ht.
  destruct (decide (pathname url = "/")) as [Hroot|Hpath].
  - eexists. split; [by apply buildDiscoveryUrls_root|].
    split; [done|]. split; [done|]. split; [intros; by apply href_at_origin|].
    split; [eauto|]. split; [by left|]. intros _. simpl.
    rewrite !href_at_origin by done. rewrite !NoDup_cons, !not_elem_of_cons.
    repeat split; try apply NoDup_nil_2; try apply not_elem_of_nil.
    intros Heq. apply (inj (String.app (origin url))) in Heq. discriminate.
  - eexists. split; [by apply buildDiscoveryUrls_path|].
    split; [done|]. split; [done|]. split; [intros; by apply href_at_origin|].
    split; [eauto|].
    destruct (stripped_path _ _ HP Hpath H1 H2) as [HP0 _]. simpl.
    rewrite !href_at_origin by done. rewrite (four_candidates_NoDup _ _ HP0).
    split; [by right | by intros [?|?]].
Qed.

End BuilderTheorems.


Lemma buildDiscoveryUrls_spec_witness :
  (∃ urls,
     @buildDiscoveryUrls example_platform (UObj example_tenant_url) = Ok urls
     ∧ length urls = 4
     ∧ NoDup ((λ c, @href example_platform c.1) <$> urls))
  ∧ @buildDiscoveryUrls example_platform
      (UObj (mkURL "mcp:" "auth.example.com" "/tenant1" [] ""))
    = Throw (TypeError "Invalid URL").
Proof.
  split.
  - destruct (@buildDiscoveryUrls_spec example_platform (UObj example_tenant_url)
                example_tenant_url "/tenant1")
      as (_ & Htuple).
    + reflexivity.
    + reflexivity.
    + reflexivity.
    + left. reflexivity.
    + destruct (Htuple eq_refl) as (urls & Hb & _ & Hfour & _ & _ & Hnodup).
      exists urls. split; [exact Hb|]. split.
      * rewrite Hfour; [reflexivity|]. vm_compute. discriminate.
      * apply Hnodup. right. vm_compute. discriminate.
  - destruct (@buildDiscoveryUrls_spec example_platform
                (UObj (mkURL "mcp:" "auth.example.com" "/tenant1" [] ""))
                (mkURL "mcp:" "auth.example.com" "/tenant1" [] "") "/tenant1")
      as (Hopaque & _).
    + reflexivity.
    + reflexivity.
    + reflexivity.
    + exact (stripped_code "/tenant1").
    + exact (proj2 (Hopaque eq_refl)).
Defined.

(** C1 as the specification states it fails: for a server under the
    OpenID well-known path, the two OpenID candidates are one URL. *)
Lemma buildDiscoveryUrls_duplicates :
  let url := mkURL "https:" "example.com" "/.well-known/openid-configuration" [] "" in
  ∃ urls,
    @buildDiscoveryUrls example_platform (UObj url) = Ok urls
    ∧ pathname url ≠ "/"
    ∧ ¬ NoDup ((λ c, @href example_platform c.1) <$> urls).
Proof.
  eexists. split; [vm_compute; reflexivity|]. split; [discriminate|].
  intros Hnd. simpl in Hnd.
  apply NoDup_cons in Hnd as [_ Hnd]. apply NoDup_cons in Hnd as [_ Hnd].
  apply NoDup_cons in Hnd as [Hnotin _]. apply Hnotin. vm_compute. left.
Qed.

(** A path that opens with two slashes is outside the theorem: appended
    in front of the OpenID well-known path it reads as a scheme-relative
    reference, and the fourth candidate leaves the origin. *)
Lemma buildDiscoveryUrls_scheme_relative :
  let url := mkURL "https:" "example.com" "//other.example/tenant" [] "" in
  ∃ u1 u2 u3 u4,
    @buildDiscoveryUrls example_platform (UObj url)
    = Ok [(u1, oauth); (u2, oauth); (u3, oidc); (u4, oidc)]
    ∧ @href example_platform u4
      = "https://other.example/tenant/.well-known/openid-configuration".
Proof. eexists _, _, _, _. split; reflexivity. Qed.

Section SelectorTheorems.
Context {platform : Platform}.

Lemma includes_elem_of (l : list string) (x : string) : includes l x = true ↔ x ∈ l.
Proof. unfold includes. by rewrite bool_decide_eq_true. Qed.

(** C2.  The selector follows the decision table of the specification
    row by row; it returns [client_secret_basic] only for a client with
    a secret; and applying that method without a secret fails with the
    missing-secret error. *)
Theorem selectClientAuthMethod_table
    (clientInformation : OAuthClientInformation) (supportedMethods : list string)
    (headers params : pairs) :
  let secret := client_secret clientInformation in
  let selected := selectClientAuthMethod clientInformation supportedMethods in
  (supportedMethods = [] → is_Some secret → selected = client_secret_post)
  ∧ (supportedMethods = [] → secret = None → selected = none)
  ∧ ("client_secret_basic" ∈ supportedMethods → is_Some secret →
     selected = client_secret_basic)
  ∧ ("client_secret_post" ∈ supportedMethods →
     "client_secret_basic" ∉ supportedMethods → is_Some secret →
     selected = client_secret_post)
  ∧ ("none" ∈ supportedMethods →
     (secret = None ∨ (("client_secret_basic" ∉ supportedMethods)
                       ∧ ("client_secret_post" ∉ supportedMethods))) →
     selected = none)
  ∧ (supportedMethods ≠ [] → "client_secret_basic" ∉ supportedMethods →
     "client_secret_post" ∉ supportedMethods → "none" ∉ supportedMethods →
     is_Some secret → selected = client_secret_post)
  ∧ (supportedMethods ≠ [] → "none" ∉ supportedMethods → secret = None →
     selected = none)
  ∧ (selected = client_secret_basic → is_Some secret)
  ∧ (secret = None →
     applyClientAuthentication client_secret_basic clientInformation headers params
     = Throw (Error "client_secret_basic authentication requires a client_secret")
     ∧ kind_of (Error "client_secret_basic authentication requires a client_secret")
       = MissingSecret).
Proof.
  intros secret selected. subst selected secret. unfold selectClientAuthMethod.
  assert (Hlen : length supportedMethods = 0 ↔ supportedMethods = [])
    by (destruct supportedMethods; split; intros; simplify_eq/=; done).
  pose proof (includes_elem_of supportedMethods "client_secret_basic") as Hb.
  pose proof (includes_elem_of supportedMethods "client_secret_post") as Hp.
  pose proof (includes_elem_of supportedMethods "none") as Hn.
  assert (Hnil : ∀ x : string, x ∈ supportedMethods → supportedMethods ≠ [])
    by (intros x Hx ->; by apply not_elem_of_nil in Hx).
  destruct (client_secret clientInformation) as [s|] eqn:Hs;
    destruct (includes supportedMethods "client_secret_basic");
    destruct (includes supportedMethods "client_secret_post");
    destruct (includes supportedMethods "none");
    repeat case_bool_decide; simpl;
    repeat match goal with
      | |- _ ∧ _ => split
      | |- _ → _ => intros ?
      | Hx : is_Some None |- _ => by destruct Hx
      | Hx : _ ∨ _ |- _ => destruct Hx as [Hx|[? ?]]
      | |- is_Some (Some _) => by eexists
      | Hx : ?x ∈ supportedMethods, Hi : _ ↔ ?x ∈ supportedMethods |- _ =>
          apply Hi in Hx; discriminate
      | Hx : ?x ∉ supportedMethods, Hi : _ ↔ ?x ∈ supportedMethods |- _ =>
          destruct Hx; by apply Hi
      | Hx : ?x ∈ supportedMethods, Hl : _ ↔ supportedMethods = [] |- _ =>
          apply Hnil in Hx; destruct Hx; by apply Hl
      | Hx : supportedMethods ≠ [], Hl : _ ↔ supportedMethods = [] |- _ =>
          destruct Hx; by apply Hl
      | Hx : supportedMethods = [], Hy : length supportedMethods ≠ 0 |- _ =>
          destruct Hy; by rewrite Hx
      | |- result_bind (applyBasicAuth _ _ _) _ = _ =>
          unfold applyBasicAuth; by rewrite Hs
      | _ => done
      end.
Qed.

End SelectorTheorems.

Section SplitFacts.

Lemma split_nonempty (c : ascii) (s : string) : Str.split c s ≠ [].
Proof.
  induction s as [|a s IH]; simpl; [done|].
  case_decide; [done|]. by destruct (Str.split c s).
Qed.

(** The first piece is the text before the first separator. *)
Lemma split_first (c : ascii) (s : string) :
  Str.split c s !! 0%nat = Some (default s (Str.before_char c s)).
Proof.
  induction s as [|a s IH]; simpl; [done|].
  case_decide; [done|].
  destruct (Str.split c s) as [|piece pieces] eqn:Hsp; [by apply split_nonempty in Hsp|].
  simpl in *. injection IH as ->. by destruct (Str.before_char c s).
Qed.

Lemma after_char_cons (c a : ascii) (s : string) :
  Str.after (String a s) (String c "") =
    if decide (c = a) then Some s else Str.after s (String c "").
Proof. simpl. by case_decide. Qed.

(** The second piece is the first piece of the text after the first
    separator. *)
Lemma split_second (c : ascii) (s : string) :
  Str.split c s !! 1%nat =
    rest ← Str.after s (String c ""); Str.split c rest !! 0%nat.
Proof.
  induction s as [|a s IH]; [done|].
  rewrite after_char_cons. simpl.
  destruct (decide (a = c)) as [->|Hne].
  - by rewrite decide_True.
  - rewrite decide_False by done.
    destruct (Str.split c s) as [|piece pieces] eqn:Hsp; [by apply split_nonempty in Hsp|].
    simpl in *. done.
Qed.

(** A first piece is empty exactly for the empty text and for a text
    that opens with the separator. *)
Lemma split_first_empty (c : ascii) (s : string) :
  Str.split c s !! 0%nat = Some "" ↔ s = "" ∨ Str.startsWith s (String c "") = true.
Proof.
  destruct s as [|a s]; simpl; [by split; auto|].
  destruct (decide (c = a)) as [->|Hne].
  - rewrite decide_True by done. simpl. by split; auto.
  - rewrite decide_False by done.
    destruct (Str.split c s) as [|piece pieces]; simpl; split; intros; simplify_eq;
      by destruct_or?.
Qed.

End SplitFacts.

Section ExtractTheorems.
Context {platform : Platform}.

Lemma truthy_Some (o : option string) (s : string) :
  truthy o = Some s ↔ o = Some s ∧ s ≠ "".
Proof.
  destruct o as [[|a t]|]; simpl;
    (split; [intros ?|intros [? ?]]; simplify_eq; done).
Qed.

(** The second piece of the split is non-empty exactly when a
    character that is not a space follows the first space. *)
Lemma second_piece_truthy (h : string) :
  is_Some (truthy (Str.split " " h !! 1%nat))
  ↔ ∃ rest, Str.after h " " = Some rest ∧ rest ≠ "" ∧ Str.startsWith rest " " = false.
Proof.
  rewrite split_second. destruct (Str.after h " ") as [rest|]; simpl.
  - pose proof (split_first_empty " " rest) as He.
    rewrite split_first in *. split.
    + intros [s [Hs Hne]%truthy_Some]. exists rest. split; [done|].
      destruct (decide (rest = "")) as [->|]; [simplify_eq/=|].
      split; [done|]. destruct (Str.startsWith rest " ") eqn:Hst; [|done].
      destruct Hne. assert (Some s = Some "") by (rewrite <- Hs; apply He; auto).
      congruence.
    + intros (rest' & Hr & Hne & Hst). injection Hr as <-.
      eexists. apply truthy_Some. split; [done|].
      intros Heq. rewrite Heq in He. destruct He as [[?|Hst'] _]; [done|done|].
      change (Str.startsWith rest " " = false) in Hst. congruence.
  - split; [by intros [? ?]|]. by intros (? & ? & _).
Qed.

(** C9, amended.  [extractResourceMetadataUrl] returns a URL exactly
    when the header is present, the text before its first space is
    [bearer] in any case, a character that is not a space follows that
    space, and the value of the first [resource_metadata] parameter
    parses as a URL, which is then the result; in every other case the
    result is [undefined].  The model has no exception to raise. *)
Theorem extractResourceMetadataUrl_spec (res : Response) (u : URL) :
  extractResourceMetadataUrl res = Some u
  ↔ ∃ h rest v,
      headers_get "WWW-Authenticate" (res_headers res) = Some h
      ∧ Str.toLowerCase (scheme_token h) = "bearer"
      ∧ Str.after h " " = Some rest ∧ rest ≠ "" ∧ Str.startsWith rest " " = false
      ∧ resource_metadata_regex_exec h = Some v
      ∧ URL_parse v = Some u.
Proof.
  unfold extractResourceMetadataUrl.
  destruct (headers_get "WWW-Authenticate" (res_headers res)) as [h|];
    [|split; [done|by intros (? & ? & ? & ? & _)]].
  destruct (decide (h = "")) as [->|Hne].
  { split; [done|]. by intros (? & ? & ? & [= <-] & Hb & _). }
  assert (truthy (Some h) = Some h) as -> by (by destruct h).
  cbv zeta. rewrite split_first.
  change (default "" (Some ?x)) with x. fold (scheme_token h).
  pose proof (second_piece_truthy h) as Hsec.
  destruct (bool_decide (Str.toLowerCase (scheme_token h) = "bearer")) eqn:Hbearer; cbn [negb orb].
  2: { apply bool_decide_eq_false in Hbearer. split; [done|].
       by intros (? & ? & ? & [= <-] & ? & _). }
  apply bool_decide_eq_true in Hbearer.
  destruct (bool_decide (is_Some (truthy (Str.split " " h !! 1%nat)))) eqn:Hscheme; cbn [negb orb].
  2: { apply bool_decide_eq_false in Hscheme. split; [done|].
       intros (? & rest & ? & [= <-] & _ & ? & ? & ? & _). destruct Hscheme.
       apply Hsec. eauto. }
  apply bool_decide_eq_true, Hsec in Hscheme as (rest & Hafter & Hrest & Hst).
  destruct (resource_metadata_regex_exec h) as [v|] eqn:Hre;
    [|split; [done|intros (? & ? & ? & [= <-] & _ & _ & _ & _ & ? & _); congruence]].
  unfold new_URL. destruct (URL_parse v) as [u'|] eqn:Hparse.
  - split.
    + intros [= <-]. by exists h, rest, v.
    + intros (? & ? & ? & [= <-] & _ & _ & _ & _ & Hv & Hu).
      rewrite Hre in Hv. injection Hv as <-. congruence.
  - split; [done|]. intros (? & ? & ? & [= <-] & _ & _ & _ & _ & Hv & Hu).
    rewrite Hre in Hv. injection Hv as <-. congruence.
Qed.

End ExtractTheorems.


Lemma extractResourceMetadataUrl_spec_witness :
  @extractResourceMetadataUrl example_platform (example_challenge " ")
  = Some (mkURL "https:" "srv" "/.well-known/oauth-protected-resource" [] "").
Proof.
  apply (@extractResourceMetadataUrl_spec example_platform).
  eexists _, _, _. repeat split; try reflexivity. discriminate.
Defined.

(** C9 as the specification states it fails: with two spaces after the
    scheme the header is a bearer challenge that carries a parameter
    with a URL, and the result is [undefined]. *)
Lemma extractResourceMetadataUrl_two_spaces :
  let res := example_challenge "  " in
  (∃ h v u,
      headers_get "WWW-Authenticate" (res_headers res) = Some h
      ∧ Str.toLowerCase (scheme_token h) = "bearer"
      ∧ resource_metadata_regex_exec h = Some v
      ∧ @URL_parse example_platform v = Some u)
  ∧ @extractResourceMetadataUrl example_platform res = None.
Proof.
  split; [|reflexivity]. eexists _, _, _. repeat split; reflexivity.
Qed.

(** ** What a computation adds to the log *)

Section Emits.
Context {S : Type}.


Lemma emits_ret {A} Q (a : A) : emits Q (ret a : M S A).
Proof. intros w. exists []. by rewrite app_nil_r. Qed.

Lemma emits_throw {A} Q (e : exn) : emits Q (throw e : M S A).
Proof. intros w. exists []. by rewrite app_nil_r. Qed.

Lemma emits_lift {A} Q (r : result A) : emits Q (lift r : M S A).
Proof. intros w. exists []. by rewrite app_nil_r. Qed.

Lemma emits_perform {A} (Q : Event → Prop) (e : Event) (f : effect S A) :
  Q e → emits Q (perform e f).
Proof.
  intros He w. exists [e]. unfold perform. destruct (f (outside w)).
  split; [done|]. by apply Forall_singleton.
Qed.

Lemma emits_bind {A B} Q (m : M S A) (k : A → M S B) :
  emits Q m → (∀ a, emits Q (k a)) → emits Q (x ← m; k x).
Proof.
  intros Hm Hk w. unfold mbind, M_bind, bind.
  destruct (Hm w) as (evs & Hlog & Hevs).
  destruct (m w) as [[a|e] w'] eqn:Hmw; simpl in *.
  - destruct (Hk a w') as (evs' & Hlog' & Hevs').
    exists (evs ++ evs'). rewrite Hlog', Hlog, (assoc_L (++)).
    split; [done|]. by apply Forall_app.
  - by exists evs.
Qed.

Lemma emits_try_catch {A} Q (m : M S A) (h : exn → M S A) :
  emits Q m → (∀ e, emits Q (h e)) → emits Q (try_catch m h).
Proof.
  intros Hm Hh w. unfold try_catch.
  destruct (Hm w) as (evs & Hlog & Hevs).
  destruct (m w) as [[a|e] w'] eqn:Hmw; simpl in *.
  - by exists evs.
  - destruct (Hh e w') as (evs' & Hlog' & Hevs').
    exists (evs ++ evs'). rewrite Hlog', Hlog, (assoc_L (++)).
    split; [done|]. by apply Forall_app.
Qed.

Lemma emits_weaken {A} (Q Q' : Event → Prop) (m : M S A) :
  (∀ e, Q e → Q' e) → emits Q m → emits Q' m.
Proof.
  intros HQ Hm w. destruct (Hm w) as (evs & Hlog & Hevs).
  exists evs. split; [done|]. by eapply Forall_impl.
Qed.

End Emits.

(** ** Protected-resource discovery *)

Ltac munfold := unfold mbind, M_bind, bind, ret, throw, lift, try_catch in *.

Section DiscoveryTheorems.
Context {S : Type} {platform : Platform} {js : Json} {imports : Imports}
  {globals : Globals S}.

Lemma URL_resolve_well_known (t p : string) (base : URL) :
  URL_resolve ("/.well-known/" +:+ t +:+ p) base
  = Ok (mkURL (protocol base) (host base) ("/.well-known/" +:+ t +:+ p) [] "").
Proof. reflexivity. Qed.

Lemma shouldAttemptFallback_absent (response : option Response) (issuer : URL) :
  shouldAttemptFallback response (pathname issuer) = true ↔ absent response issuer.
Proof.
  unfold shouldAttemptFallback, absent. destruct response as [r|].
  - rewrite andb_true_iff, negb_true_iff, bool_decide_eq_true, bool_decide_eq_false.
    split.
    + intros [? ?]. right. by exists r.
    + intros [?|(r' & [= <-] & ? & ?)]; done.
  - split; auto.
Qed.

(** Without a metadata URL from the caller, the lookup is the attempt on
    the path-aware URL, followed by the attempt on the root URL when
    [shouldAttemptFallback] says so. *)
Lemma discoverMetadataWithFallback_run (serverUrl : url_like) (issuer : URL)
    (P t : string) (fetchFn : option (FetchLike S)) (pv : option string) (w : World S) :
  new_URL serverUrl = Ok issuer → stripped (pathname issuer) P →
  discoverMetadataWithFallback serverUrl t fetchFn pv None None w =
    match tryMetadataDiscovery
            (mkURL (protocol issuer) (host issuer) ("/.well-known/" +:+ t +:+ P)
               (searchParams issuer) "")
            (default LATEST_PROTOCOL_VERSION pv) fetchFn w with
    | (Ok response, w1) =>
        if shouldAttemptFallback response (pathname issuer)
        then tryMetadataDiscovery (at_origin issuer ("/.well-known/" +:+ t))
               (default LATEST_PROTOCOL_VERSION pv) fetchFn w1
        else (Ok response, w1)
    | (Throw e, w1) => (Throw e, w1)
    end.
Proof.
  intros Hx HP. unfold discoverMetadataWithFallback. munfold. rewrite Hx.
  cbn [truthy_url from_option]. unfold new_URL at 1.
  unfold buildWellKnownPath.
  rewrite (stripped_unique _ _ _ (stripped_code (pathname issuer)) HP).
  rewrite URL_resolve_well_known. cbn [protocol host pathname hash].
  destruct (tryMetadataDiscovery _ _ fetchFn w) as [[response|e] w1]; [|done].
  cbn [is_Some bool_decide negb andb]. rewrite bool_decide_false by (by intros [? ?]).
  cbn [negb andb].
  by destruct (shouldAttemptFallback response (pathname issuer)).
Qed.

(** The first thing an attempt does is its request with the headers. *)
Lemma fetchWithCorsRetry_first_event (url : URL) (headers : option pairs)
    (fetchFn : option (FetchLike S)) (w : World S) :
  ∃ evs, log (fetchWithCorsRetry url headers fetchFn w).2
         = log w ++ EFetch (via_of fetchFn) InFetchWithCorsRetry
                      (discovery_request url headers) :: evs.
Proof.
  unfold fetchWithCorsRetry, fetchWithCorsRetry_body, discovery_request. munfold.
  destruct fetchFn as [f|]; unfold call_fetch, perform; cbn [via_of].
  - destruct (f _ (outside w)) as [[r|[]] s1];
      try (by eexists); destruct headers; try (by eexists); cbn [log outside].
    destruct (f _ s1) as [[r|[]] s2]; cbn [log snd];
      rewrite <- (assoc_L (++)); by eexists.
  - destruct (fetch _ (outside w)) as [[r|[]] s1];
      try (by eexists); destruct headers; try (by eexists); cbn [log outside].
    destruct (fetch _ s1) as [[r|[]] s2]; cbn [log snd];
      rewrite <- (assoc_L (++)); by eexists.
Qed.

Lemma fetchWithCorsRetry_log (url : URL) (headers : option pairs)
    (fetchFn : option (FetchLike S)) (w : World S) :
  ∃ evs, log (fetchWithCorsRetry url headers fetchFn w).2 = log w ++ evs.
Proof.
  destruct (fetchWithCorsRetry_first_event url headers fetchFn w) as [evs Hevs].
  by eexists.
Qed.

(** C4, amended.  Without a metadata URL from the caller, protected
    resource discovery first requests the path-aware well-known URL
    (the path without its trailing slash, the query of the server URL)
    with the protocol version header.  When that attempt is absent, the
    response of the attempt on the root URL decides, otherwise its own
    response does.  A deciding response that is missing or a 404 fails
    with the not-implemented error, also when both attempts are
    without a response; any other response outside 2xx fails with the
    server-kind error that names its status; a 2xx response is
    parsed. *)
Theorem discoverOAuthProtectedResourceMetadata_spec (serverUrl : url_like)
    (issuer : URL) (P : string) (fetchFn : option (FetchLike S)) (w : World S) :
  new_URL serverUrl = Ok issuer →
  stripped (pathname issuer) P →
  let first := tryMetadataDiscovery (protected_resource_url issuer P)
                 LATEST_PROTOCOL_VERSION fetchFn in
  let root := tryMetadataDiscovery (protected_resource_root issuer)
                LATEST_PROTOCOL_VERSION fetchFn in
  let run := discoverOAuthProtectedResourceMetadata serverUrl None None fetchFn in
  (∃ evs, log (run w).2
          = log w ++ EFetch (via_of fetchFn) InFetchWithCorsRetry
                       (discovery_request (protected_resource_url issuer P)
                          (Some [("MCP-Protocol-Version", LATEST_PROTOCOL_VERSION)])) :: evs)
  ∧ (∀ e w1, first w = (Throw e, w1) → run w = (Throw e, w1))
  ∧ (∀ response w',
       (first w = (Ok response, w') ∧ ¬ absent response issuer)
       ∨ (∃ r1 w1, first w = (Ok r1, w1) ∧ absent r1 issuer
                   ∧ root w1 = (Ok response, w')) →
       match response with
       | None => run w = (Throw not_implemented, w')
       | Some r =>
           (status r = 404%N → run w = (Throw not_implemented, w'))
           ∧ (status r ≠ 404%N → ok r = false →
              let e := Error ("HTTP " +:+ pretty (status r)
                         +:+ " trying to load well-known OAuth protected resource metadata.") in
              run w = (Throw e, w') ∧ kind_of e = Server)
           ∧ (ok r = true →
              run w = (result_bind (response_json r)
                         (schema_parse OAuthProtectedResourceMetadataSchema_parse), w'))
       end)
  ∧ kind_of not_implemented = NotImplemented
  ∧ (∀ r1 w1 r2 w2,
       first w = (Ok (Some r1), w1) → status r1 = 404%N → pathname issuer ≠ "/" →
       root w1 = (Ok (Some r2), w2) → status r2 = 404%N →
       run w = (Throw not_implemented, w2))
  ∧ (∀ w1 w2,
       first w = (Ok None, w1) → root w1 = (Ok None, w2) →
       run w = (Throw not_implemented, w2)).
Proof.
  intros Hx HP first root run.
  assert (Hrun : run w =
    match first w with
    | (Ok response, w1) =>
        match (if shouldAttemptFallback response (pathname issuer)
               then root w1 else (Ok response, w1)) with
        | (Ok None, w2) => (Throw not_implemented, w2)
        | (Ok (Some r), w2) =>
            if bool_decide (status r = 404%N) then (Throw not_implemented, w2)
            else if negb (ok r) then
              (Throw (Error ("HTTP " +:+ pretty (status r)
                 +:+ " trying to load well-known OAuth protected resource metadata.")), w2)
            else (result_bind (response_json r)
                    (schema_parse OAuthProtectedResourceMetadataSchema_parse), w2)
        | (Throw e, w2) => (Throw e, w2)
        end
    | (Throw e, w1) => (Throw e, w1)
    end).
  { subst run first root. unfold discoverOAuthProtectedResourceMetadata.
    unfold mbind, M_bind, bind at 1.
    rewrite (discoverMetadataWithFallback_run _ _ _ _ _ _ _ Hx HP).
    cbn [from_option]. unfold protected_resource_url, protected_resource_root.
    destruct (tryMetadataDiscovery _ _ fetchFn w) as [[response|e] w1]; [|done].
    destruct (shouldAttemptFallback response (pathname issuer)).
    - destruct (tryMetadataDiscovery _ _ fetchFn w1) as [[[r|]|e] w2]; try done.
      munfold. repeat case_bool_decide; try done.
      destruct (ok r); cbn [negb]; [|done]. by destruct (response_json r).
    - destruct response as [r|]; [|done].
      munfold. repeat case_bool_decide; try done.
      destruct (ok r); cbn [negb]; [|done]. by destruct (response_json r). }
  assert (H404 : ∀ r, ok r = true → status r ≠ 404%N).
  { intros r Hok ?. apply bool_decide_eq_true in Hok. lia. }
  split; [|split; [|split; [|split; [done|split]]]].
  - rewrite Hrun. subst first. unfold tryMetadataDiscovery.
    destruct (fetchWithCorsRetry_first_event (protected_resource_url issuer P)
                (Some [("MCP-Protocol-Version", LATEST_PROTOCOL_VERSION)]) fetchFn w)
      as [evs Hevs].
    destruct (fetchWithCorsRetry _ _ fetchFn w) as [[response|e] w1]; [|by eexists].
    cbn [snd] in Hevs.
    destruct (shouldAttemptFallback response (pathname issuer)).
    + subst root. unfold tryMetadataDiscovery.
      destruct (fetchWithCorsRetry_log (protected_resource_root issuer)
                  (Some [("MCP-Protocol-Version", LATEST_PROTOCOL_VERSION)]) fetchFn w1)
        as [evs' Hevs'].
      destruct (fetchWithCorsRetry _ _ fetchFn w1) as [[[r|]|e] w2]; cbn [snd] in *;
        try (exists (evs ++ evs'); rewrite Hevs', Hevs, <- (assoc_L (++)); done).
      repeat case_match; cbn [snd];
        exists (evs ++ evs'); rewrite Hevs', Hevs, <- (assoc_L (++)); done.
    + destruct response as [r|]; repeat case_match; by eexists.
  - intros e w1 Hfirst. by rewrite Hrun, Hfirst.
  - intros response w' [[Hfirst Hpresent]|(r1 & w1 & Hfirst & Habsent & Hroot)];
      rewrite Hrun, Hfirst.
    + rewrite <- shouldAttemptFallback_absent in Hpresent.
      apply not_true_is_false in Hpresent. rewrite Hpresent.
      destruct response as [r|]; [|done].
      split; [|split; [intros Hne Hnok; split; [|done]|]].
      * intros ->. by rewrite bool_decide_true.
      * rewrite bool_decide_false by done. by rewrite Hnok.
      * intros Hok. rewrite bool_decide_false by auto. by rewrite Hok.
    + apply shouldAttemptFallback_absent in Habsent. rewrite Habsent, Hroot.
      destruct response as [r|]; [|done].
      split; [|split; [intros Hne Hnok; split; [|done]|]].
      * intros ->. by rewrite bool_decide_true.
      * rewrite bool_decide_false by done. by rewrite Hnok.
      * intros Hok. rewrite bool_decide_false by auto. by rewrite Hok.
  - intros r1 w1 r2 w2 Hfirst H1 Hpath Hroot H2. rewrite Hrun, Hfirst.
    unfold shouldAttemptFallback. rewrite !bool_decide_true by done.
    rewrite bool_decide_false by done. cbn [andb negb].
    rewrite Hroot. by rewrite bool_decide_true.
  - intros w1 w2 Hfirst Hroot. rewrite Hrun, Hfirst. cbn [shouldAttemptFallback].
    by rewrite Hroot.
Qed.

End DiscoveryTheorems.

#[local] Existing Instance example_platform.
#[local] Existing Instance example_json.
#[local] Existing Instance example_imports.
#[local] Existing Instance example_globals.

Lemma discoverOAuthProtectedResourceMetadata_spec_witness :
  (discoverOAuthProtectedResourceMetadata (UObj example_server_url) None None
     (Some (constant_fetch 404 "")) (example_world "R1")).1
  = Throw not_implemented.
Proof.
  destruct (discoverOAuthProtectedResourceMetadata_spec (UObj example_server_url)
              example_server_url "/mcp" (Some (constant_fetch 404 ""))
              (example_world "R1"))
    as (_ & _ & _ & _ & Hboth & _).
  - reflexivity.
  - exact (stripped_code "/mcp").
  - erewrite Hboth; [reflexivity|reflexivity|reflexivity|discriminate|reflexivity|reflexivity].
Defined.

(** C4 as the specification states it fails: when both attempts are
    without a response, the error is the not-implemented one of the
    404 case, not a transport error. *)
Lemma discoverOAuthProtectedResourceMetadata_no_response :
  let w := example_world "R1" in
  let fetchFn := Some failing_fetch in
  let first := tryMetadataDiscovery (protected_resource_url example_server_url "/mcp")
                 LATEST_PROTOCOL_VERSION fetchFn in
  let root := tryMetadataDiscovery (protected_resource_root example_server_url)
                LATEST_PROTOCOL_VERSION fetchFn in
  ∃ w1 w2 e,
    first w = (Ok None, w1)
    ∧ root w1 = (Ok None, w2)
    ∧ discoverOAuthProtectedResourceMetadata (UObj example_server_url) None None fetchFn w
      = (Throw e, w2)
    ∧ kind_of e ≠ Transport.
Proof.
  eexists _, _, _. split; [reflexivity|]. split; [reflexivity|].
  split; [reflexivity|]. discriminate.
Qed.

(** ** Authorization-server discovery *)

Section ServerDiscoveryTheorems.
Context {S : Type} {platform : Platform} {js : Json} {imports : Imports}
  {globals : Globals S}.

(** Two transport failures in a row, with and then without the headers,
    are what leaves an attempt without a response. *)
Lemma fetchWithCorsRetry_no_response (url : URL) (headers : pairs)
    (fetchFn : option (FetchLike S)) (w : World S) (m1 m2 : string) (s1 s2 : S) :
  resolved fetchFn (discovery_request url (Some headers)) (outside w)
    = (Throw (TypeError m1), s1) →
  resolved fetchFn (discovery_request url None) s1 = (Throw (TypeError m2), s2) →
  fetchWithCorsRetry url (Some headers) fetchFn w
  = (Ok None,
     mkWorld (log w ++ [EFetch (via_of fetchFn) InFetchWithCorsRetry
                          (discovery_request url (Some headers));
                        EFetch (via_of fetchFn) InFetchWithCorsRetry
                          (discovery_request url None)]) s2).
Proof.
  unfold resolved, fetchWithCorsRetry, fetchWithCorsRetry_body, discovery_request.
  munfold. intros H1 H2.
  destruct fetchFn as [f|]; unfold call_fetch, perform; cbn [default from_option id] in *;
    rewrite H1; cbn [outside log]; rewrite H2; cbn [via_of];
    by rewrite <- (assoc_L (++)).
Qed.

Lemma loop_step (headers : pairs) (fetchFn : option (FetchLike S))
    (endpointUrl : URL) (type : discovery_type) (urlsToTry : list (URL * discovery_type))
    (w : World S) :
  discoverAuthorizationServerMetadata_loop headers fetchFn ((endpointUrl, type) :: urlsToTry) w
  = match fetchWithCorsRetry endpointUrl (Some headers) fetchFn w with
    | (Ok None, w1) =>
        (Throw (Error ("CORS error trying to load " +:+ type_name type
                       +:+ " metadata from " +:+ href endpointUrl)), w1)
    | (Ok (Some response), w1) =>
        if negb (ok response) then
          if bool_decide (400 ≤ status response)%N && bool_decide (status response < 500)%N
          then discoverAuthorizationServerMetadata_loop headers fetchFn urlsToTry w1
          else (Throw (Error ("HTTP " +:+ pretty (status response) +:+ " trying to load "
                              +:+ type_name type +:+ " metadata from " +:+ href endpointUrl)), w1)
        else
          match type with
          | oauth =>
              (result_bind (response_json response)
                 (λ v, result_bind (schema_parse OAuthMetadataSchema_parse v)
                         (λ metadata, Ok (Some metadata))), w1)
          | oidc =>
              (result_bind (response_json response)
                 (λ v, result_bind (schema_parse OpenIdProviderDiscoveryMetadataSchema_parse v)
                         (λ metadata,
                            if negb (from_option (λ l, includes l "S256") false
                                       (code_challenge_methods_supported metadata))
                            then Throw (Error ("Incompatible OIDC provider at "
                                   +:+ href endpointUrl
                                   +:+ ": does not support S256 code challenge method required by MCP specification"))
                            else Ok (Some metadata))), w1)
          end
    | (Throw e, w1) => (Throw e, w1)
    end.
Proof.
  cbn [discoverAuthorizationServerMetadata_loop]. munfold.
  destruct (fetchWithCorsRetry endpointUrl (Some headers) fetchFn w) as [[[r|]|e] w1];
    try done.
  destruct (ok r); cbn [negb]; [|by destruct (_ && _)].
  destruct type; destruct (response_json r) as [v|]; cbn [result_bind]; try done.
  - by destruct (schema_parse OAuthMetadataSchema_parse v).
  - destruct (schema_parse OpenIdProviderDiscoveryMetadataSchema_parse v) as [md|];
      cbn [result_bind]; [|done].
    by destruct (negb _).
Qed.

Lemma supports_S256_includes (metadata : AuthorizationServerMetadata) :
  from_option (λ l, includes l "S256") false (code_challenge_methods_supported metadata) = true
  ↔ supports_S256 metadata.
Proof.
  unfold supports_S256. destruct (code_challenge_methods_supported metadata) as [l|]; simpl.
  - rewrite includes_elem_of. split; [by exists l|]. by intros (? & [= <-] & ?).
  - split; [done|]. by intros (? & ? & _).
Qed.

Lemma client_error_not_ok (r : Response) : (400 ≤ status r < 500)%N → ok r = false.
Proof. intros ?. apply bool_decide_eq_false. lia. Qed.

(** C5.  Authorization-server discovery runs the loop over the list of
    the discovery URL builder, in order.  For the candidate at the head
    of the list: an attempt without a response (a transport failure
    with the headers and again without them) fails with the transport
    error naming the candidate; a 4xx response moves on to the next
    candidate; any other response outside 2xx is fatal; a 2xx response
    is parsed by the schema of the candidate's kind and returned, except
    that an OpenID document without [S256] is fatal with the
    incompatible-provider error.  When every candidate answers 4xx the
    result is [undefined]. *)
Theorem discoverAuthorizationServerMetadata_spec (authorizationServerUrl : url_like)
    (urlsToTry : list (URL * discovery_type)) (fetchFn : option (FetchLike S))
    (protocolVersion : option string) :
  buildDiscoveryUrls authorizationServerUrl = Ok urlsToTry →
  let headers : pairs :=
    [("MCP-Protocol-Version", default LATEST_PROTOCOL_VERSION protocolVersion)] in
  let loop := discoverAuthorizationServerMetadata_loop headers fetchFn in
  (∀ w, discoverAuthorizationServerMetadata authorizationServerUrl fetchFn protocolVersion w
        = loop urlsToTry w)
  ∧ (∀ endpointUrl type rest w,
       let attempt := fetchWithCorsRetry endpointUrl (Some headers) fetchFn in
       let run := loop ((endpointUrl, type) :: rest) in
       (∀ m1 m2 s1 s2,
          resolved fetchFn (discovery_request endpointUrl (Some headers)) (outside w)
            = (Throw (TypeError m1), s1) →
          resolved fetchFn (discovery_request endpointUrl None) s1
            = (Throw (TypeError m2), s2) →
          ∃ w1, outside w1 = s2 ∧ attempt w = (Ok None, w1))
       ∧ (∀ w1, attempt w = (Ok None, w1) →
            let e := Error ("CORS error trying to load " +:+ type_name type
                            +:+ " metadata from " +:+ href endpointUrl) in
            run w = (Throw e, w1) ∧ kind_of e = Transport)
       ∧ (∀ e w1, attempt w = (Throw e, w1) → run w = (Throw e, w1))
       ∧ (∀ r w1, attempt w = (Ok (Some r), w1) → (400 ≤ status r < 500)%N →
            run w = loop rest w1)
       ∧ (∀ r w1, attempt w = (Ok (Some r), w1) → ok r = false →
            ¬ (400 ≤ status r < 500)%N →
            let e := Error ("HTTP " +:+ pretty (status r) +:+ " trying to load "
                            +:+ type_name type +:+ " metadata from " +:+ href endpointUrl) in
            run w = (Throw e, w1) ∧ kind_of e = Server)
       ∧ (∀ r w1, attempt w = (Ok (Some r), w1) → ok r = true → type = oauth →
            run w = (result_bind (response_json r)
                       (λ v, result_bind (schema_parse OAuthMetadataSchema_parse v)
                               (λ metadata, Ok (Some metadata))), w1))
       ∧ (∀ r w1, attempt w = (Ok (Some r), w1) → ok r = true → type = oidc →
            ∀ e, result_bind (response_json r)
                   (schema_parse OpenIdProviderDiscoveryMetadataSchema_parse) = Throw e →
                 run w = (Throw e, w1))
       ∧ (∀ r w1, attempt w = (Ok (Some r), w1) → ok r = true → type = oidc →
            ∀ metadata,
              result_bind (response_json r)
                (schema_parse OpenIdProviderDiscoveryMetadataSchema_parse) = Ok metadata →
              (supports_S256 metadata → run w = (Ok (Some metadata), w1))
              ∧ (¬ supports_S256 metadata →
                 let e := Error ("Incompatible OIDC provider at " +:+ href endpointUrl
                            +:+ ": does not support S256 code challenge method required by MCP specification") in
                 run w = (Throw e, w1) ∧ kind_of e = Incompatible)))
  ∧ (∀ l w w', all_client_errors headers fetchFn l w w' → loop l w = (Ok None, w')).
Proof.
  intros Hurls headers loop. split; [|split].
  - intros w. unfold discoverAuthorizationServerMetadata. munfold. by rewrite Hurls.
  - intros endpointUrl type rest w attempt run. subst run loop attempt.
    split; [|split; [|split; [|split; [|split; [|split; [|split]]]]]].
    + intros m1 m2 s1 s2 H1 H2.
      eexists. split; [|exact (fetchWithCorsRetry_no_response _ _ _ _ _ _ _ _ H1 H2)].
      done.
    + intros w1 Hatt e. subst e. rewrite loop_step, Hatt. split; [done|]. by destruct type.
    + intros e w1 Hatt. by rewrite loop_step, Hatt.
    + intros r w1 Hatt H4xx.
      rewrite loop_step, Hatt, (client_error_not_ok _ H4xx). cbn [negb].
      rewrite !bool_decide_true by lia. done.
    + intros r w1 Hatt Hok Hnot e. subst e. rewrite loop_step, Hatt, Hok. cbn [negb].
      destruct (bool_decide (400 ≤ status r)%N) eqn:H1;
        destruct (bool_decide (status r < 500)%N) eqn:H2; cbn [andb];
        try (split; [done|by destruct type]).
      apply bool_decide_eq_true in H1, H2. lia.
    + intros r w1 Hatt Hok ->. by rewrite loop_step, Hatt, Hok.
    + intros r w1 Hatt Hok -> e He. rewrite loop_step, Hatt, Hok. cbn [negb].
      destruct (response_json r) as [v|]; cbn [result_bind] in *; [|congruence].
      rewrite He. done.
    + intros r w1 Hatt Hok -> metadata Hmd. rewrite loop_step, Hatt, Hok. cbn [negb].
      destruct (response_json r) as [v|]; cbn [result_bind] in *; [|done].
      rewrite Hmd. cbn [result_bind].
      pose proof (supports_S256_includes metadata) as HS.
      destruct (from_option _ false (code_challenge_methods_supported metadata));
        cbn [negb]; (split; [intros Hyes|intros Hno]); try done.
      * destruct Hno. by apply HS.
      * apply HS in Hyes. done.
  - intros l w w' Hall. induction Hall as [w|endpointUrl type rest w r w1 w' Hatt H4xx _ IH].
    + done.
    + subst loop. rewrite loop_step, Hatt, (client_error_not_ok _ H4xx). cbn [negb].
      rewrite !bool_decide_true by lia. exact IH.
Qed.

End ServerDiscoveryTheorems.

Lemma discoverAuthorizationServerMetadata_spec_witness :
  ∃ e,
    (discoverAuthorizationServerMetadata (UObj example_issuer_url)
       (Some oidc_plain_fetch) None (example_world "R1")).1 = Throw e
    ∧ kind_of e = Incompatible.
Proof.
  destruct (discoverAuthorizationServerMetadata_spec (S := Session)
              (UObj example_issuer_url)
              [(at_origin example_issuer_url oauth_well_known, oauth);
               (at_origin example_issuer_url oidc_well_known, oidc)]
              (Some oidc_plain_fetch) None)
    as (Hrun & Hstep & _); [reflexivity|].
  rewrite Hrun.
  destruct (Hstep (at_origin example_issuer_url oauth_well_known) oauth
              [(at_origin example_issuer_url oidc_well_known, oidc)]
              (example_world "R1"))
    as (_ & _ & _ & Hnext & _).
  erewrite Hnext; [|reflexivity|simpl; lia].
  match goal with
  | |- context [discoverAuthorizationServerMetadata_loop _ _ _ ?w] =>
      destruct (Hstep (at_origin example_issuer_url oidc_well_known) oidc [] w)
        as (_ & _ & _ & _ & _ & _ & _ & Hoidc)
  end.
  edestruct Hoidc as [_ Hplain]; [reflexivity|reflexivity|reflexivity|reflexivity|].
  destruct Hplain as [Hthrow Hkind].
  - intros (l & Hl & Hin). injection Hl as <-.
    apply list_elem_of_singleton in Hin. discriminate.
  - eexists. rewrite Hthrow. split; [reflexivity|exact Hkind].
Defined.

(** ** Token refresh *)

Section RefreshTheorems.
Context {S : Type} {platform : Platform} {js : Json} {imports : Imports}
  {globals : Globals S}.

(** The object that [refreshAuthorization] hands to the schema has the
    refresh token of the response when there is one, and the previous
    one otherwise. *)
Lemma spread_refresh_token (v : json) (refreshToken : string) :
  (spread v ∪ {[ "refresh_token" := JStr refreshToken ]}) !! "refresh_token"
  = Some (default (JStr refreshToken) (spread v !! "refresh_token")).
Proof.
  destruct (spread v !! "refresh_token") as [x|] eqn:Hv.
  - by rewrite (lookup_union_Some_l _ _ _ _ Hv).
  - rewrite lookup_union_r by done. by rewrite lookup_singleton_eq.
Qed.

Lemma OAuthTokensSchema_refresh_token (v : json) (refreshToken : string)
    (returned : OAuthTokens) :
  OAuthTokensSchema_parse (JObj (spread v ∪ {[ "refresh_token" := JStr refreshToken ]}))
    = Some returned →
  (spread v !! "refresh_token" = None
   ∨ ∃ R2, spread v !! "refresh_token" = Some (JStr R2))
  ∧ refresh_token returned = Some (default refreshToken (response_refresh_token v)).
Proof.
  unfold OAuthTokensSchema_parse, response_refresh_token. intros Hparse.
  repeat match type of Hparse with
         | (_ ≫= _) = Some _ => apply bind_Some in Hparse as (? & ? & Hparse)
         end.
  injection Hparse as <-. cbn [refresh_token].
  match goal with
  | Hr : field_string_optional _ "refresh_token" = Some _ |- _ =>
      unfold field_string_optional in Hr; rewrite spread_refresh_token in Hr
  end.
  destruct (spread v !! "refresh_token") as [[]|]; simplify_eq/=; eauto.
Qed.

(** C3.  A successful [refreshAuthorization] returns tokens whose
    refresh token is the one of the 2xx response of its token request
    when the response has one, and the refresh token it was called
    with when the response has none. *)
Theorem refreshAuthorization_refresh_token (authorizationServerUrl : url_like)
    (metadata : option AuthorizationServerMetadata)
    (clientInformation : OAuthClientInformation) (refreshToken : string)
    (resource : option URL)
    (addClientAuthentication : option (@ClientAuthenticator S))
    (fetchFn : option (FetchLike S)) (w w' : World S) (returned : OAuthTokens) :
  refreshAuthorization authorizationServerUrl metadata clientInformation refreshToken
    resource addClientAuthentication fetchFn w = (Ok returned, w') →
  ∃ request w0 response v,
    call_fetch InRefreshAuthorization fetchFn request w0 = (Ok response, w')
    ∧ req_method request = "POST"
    ∧ ok response = true
    ∧ response_json response = Ok v
    ∧ (spread v !! "refresh_token" = None
       ∨ ∃ R2, spread v !! "refresh_token" = Some (JStr R2))
    ∧ refresh_token returned = Some (default refreshToken (response_refresh_token v)).
Proof.
  unfold refreshAuthorization. munfold. intros Hrun.
  repeat match type of Hrun with
         | (let (_, _) := ?m ?w0 in _) = _ =>
             destruct (m w0) as [[?|?] ?] eqn:?; try discriminate
         | (let (_, _) := ?x in _) = _ =>
             destruct x as [?|?] eqn:?; try discriminate
         | (match ?x with _ => _ end) _ = _ =>
             destruct x eqn:?; try discriminate
         | match ?x with _ => _ end = _ =>
             destruct x eqn:?; try discriminate
         end.
  unfold schema_parse in Hrun.
  destruct (OAuthTokensSchema_parse _) as [t|] eqn:Hparse; [|discriminate].
  injection Hrun as -> ->.
  apply OAuthTokensSchema_refresh_token in Hparse as [Hfield Hreturned].
  eexists _, _, _, _. split; [eassumption|]. split; [done|].
  split; [by apply negb_false_iff|]. done.
Qed.

End RefreshTheorems.

Lemma refreshAuthorization_refresh_token_witness :
  ∃ returned w',
    refreshAuthorization (UObj example_server_url) None example_client "R1" None None None
      (example_world "R1") = (Ok returned, w')
    ∧ refresh_token returned = Some "R1"
    ∧ ∃ v, refresh_token returned = Some (default "R1" (response_refresh_token v)).
Proof.
  eexists _, _. split; [vm_compute; reflexivity|]. split; [reflexivity|].
  edestruct (refreshAuthorization_refresh_token (S := Session)
               (UObj example_server_url) None example_client "R1" None None None
               (example_world "R1"))
    as (request & w0 & response & v & _ & _ & _ & _ & _ & Hreturned);
    [vm_compute; reflexivity|].
  exists v. exact Hreturned.
Defined.

(** ** Starting an authorization *)

Section QueryFacts.











End QueryFacts.

Section StartTheorems.
Context {S : Type} {platform : Platform} {js : Json} {imports : Imports}
  {globals : Globals S}.




End StartTheorems.



(** C8, the code at a scope whose only token contains but is not
    [offline_access]: the query gets [prompt=consent]. *)
Lemma startAuthorization_prompt_substring :
  let scope := "offline_access_v2" in
  ("offline_access" ∉ Str.split " " scope)
  ∧ ∃ authorizationUrl codeVerifier w',
      startAuthorization (UObj example_server_url) None example_client
        (UStr "https://app.example.com/callback") (Some scope) None None
        (example_world "R1")
      = (Ok (authorizationUrl, codeVerifier), w')
      ∧ ("prompt", "consent") ∈ searchParams authorizationUrl.
Proof.
  split.
  - intros Hin. vm_compute in Hin. apply list_elem_of_singleton in Hin. discriminate.
  - eexists _, _, _. split; [vm_compute; reflexivity|].
    apply list_elem_of_In. vm_compute. tauto.
Qed.

(** ** Which function carries a request *)

(** One step of a proof that a computation only emits events of a
    predicate: split the computation at its head. *)
Ltac emits_step :=
  match goal with
  | |- emits _ (mbind _ _) => apply emits_bind; [|intros ?]
  | |- emits _ (try_catch _ _) => apply emits_try_catch; [|intros ?]
  | |- emits _ (ret _) => apply emits_ret
  | |- emits _ (throw _) => apply emits_throw
  | |- emits _ (lift _) => apply emits_lift
  | |- emits _ (perform _ _) => apply emits_perform; done
  | |- emits _ (match ?x with _ => _ end) => destruct x
  | |- emits _ (let '(_, _) := ?x in _) => destruct x
  end.

Section DisciplineTheorems.
Context {S : Type} {platform : Platform} {js : Json} {imports : Imports}
  {globals : Globals S}.

Lemma emits_call_fetch (Q : Event → Prop) (site : fetch_site)
    (fetchFn : option (FetchLike S)) (request : Request) :
  Q (EFetch (via_of fetchFn) site request) → emits Q (call_fetch site fetchFn request).
Proof. intros HQ. unfold call_fetch. destruct fetchFn; by apply emits_perform. Qed.

Lemma emits_fetchWithCorsRetry (Q : Event → Prop) (url : URL) (headers : option pairs)
    (fetchFn : option (FetchLike S)) :
  (∀ request, Q (EFetch (via_of fetchFn) InFetchWithCorsRetry request)) →
  emits Q (fetchWithCorsRetry url headers fetchFn).
Proof.
  intros HQ. unfold fetchWithCorsRetry, fetchWithCorsRetry_body.
  repeat first [emits_step | by apply emits_call_fetch].
Qed.

Lemma emits_discoverMetadataWithFallback (Q : Event → Prop) (serverUrl : url_like)
    (t : string) (fetchFn : option (FetchLike S)) (pv : option string)
    (metadataUrl metadataServerUrl : option url_like) :
  (∀ request, Q (EFetch (via_of fetchFn) InFetchWithCorsRetry request)) →
  emits Q (discoverMetadataWithFallback serverUrl t fetchFn pv metadataUrl metadataServerUrl).
Proof.
  intros HQ. unfold discoverMetadataWithFallback, tryMetadataDiscovery.
  repeat first [emits_step | by apply emits_fetchWithCorsRetry].
Qed.

Lemma emits_discoverOAuthProtectedResourceMetadata (Q : Event → Prop)
    (serverUrl : url_like) (pv : option string) (resourceMetadataUrl : option url_like)
    (fetchFn : option (FetchLike S)) :
  (∀ request, Q (EFetch (via_of fetchFn) InFetchWithCorsRetry request)) →
  emits Q (discoverOAuthProtectedResourceMetadata serverUrl pv resourceMetadataUrl fetchFn).
Proof.
  intros HQ. unfold discoverOAuthProtectedResourceMetadata.
  repeat first [emits_step | by apply emits_discoverMetadataWithFallback].
Qed.

Lemma emits_discoverAuthorizationServerMetadata (Q : Event → Prop)
    (authorizationServerUrl : url_like) (fetchFn : option (FetchLike S))
    (pv : option string) :
  (∀ request, Q (EFetch (via_of fetchFn) InFetchWithCorsRetry request)) →
  emits Q (discoverAuthorizationServerMetadata authorizationServerUrl fetchFn pv).
Proof.
  intros HQ. unfold discoverAuthorizationServerMetadata.
  apply emits_bind; [apply emits_lift|]. intros urlsToTry.
  induction urlsToTry as [|[endpointUrl type] urlsToTry IH];
    cbn [discoverAuthorizationServerMetadata_loop].
  - apply emits_ret.
  - repeat first [emits_step | by apply emits_fetchWithCorsRetry | exact IH].
Qed.









End DisciplineTheorems.

(** ** Which function receives a request *)

Section JournalTheorems.
Context {S : Type} {platform : Platform} {js : Json} {imports : Imports}
  {globals : Globals S}.
Variable journal : S → list (fetch_via * Request).









End JournalTheorems.


Section ForwardingTheorems.
Context {S : Type} {platform : Platform} {js : Json} {imports : Imports}
  {globals : Globals S}.
Variable journal : S → list (fetch_via * Request).











End ForwardingTheorems.


(** ** Recovery in the entry point *)

Section RecoveryTheorems.
Context {S : Type} {platform : Platform} {js : Json} {imports : Imports}
  {globals : Globals S}.

(** C6.  [auth] runs the inner flow once and returns its result.
    When the inner flow throws an invalid-client or an
    unauthorized-client error, [auth] invalidates the scope [all]:
    it calls the provider's [invalidateCredentials], an optional
    method, for which a provider without it has the fallback that does
    nothing.  When the invalidation returns, [auth] runs the inner flow
    once more and ends with whatever the second run does, result or
    error.  An invalid-grant error does
    the same with the scope [tokens].  An error of the invalidation
    itself and every other error of the first run propagate. *)
Theorem auth_recovery (provider : OAuthClientProvider S) (serverUrl : url_like)
    (authorizationCode scope : option string) (resourceMetadataUrl : option URL)
    (fetchFn : option (FetchLike S)) (w : World S) :
  let inner := authInternal provider serverUrl authorizationCode scope
                 resourceMetadataUrl fetchFn in
  let run := auth provider serverUrl authorizationCode scope resourceMetadataUrl fetchFn in
  (∀ r w1, inner w = (Ok r, w1) → run w = (Ok r, w1))
  ∧ (∀ e w1, inner w = (Throw e, w1) →
       (instanceof InvalidClientError e || instanceof UnauthorizedClientError e = true →
        (∀ w2, invalidate provider scope_all w1 = (Ok (), w2) → run w = inner w2)
        ∧ (∀ e' w2, invalidate provider scope_all w1 = (Throw e', w2) →
                    run w = (Throw e', w2)))
       ∧ (instanceof InvalidGrantError e = true →
          (∀ w2, invalidate provider scope_tokens w1 = (Ok (), w2) → run w = inner w2)
          ∧ (∀ e' w2, invalidate provider scope_tokens w1 = (Throw e', w2) →
                      run w = (Throw e', w2)))
       ∧ (instanceof InvalidClientError e = false →
          instanceof UnauthorizedClientError e = false →
          instanceof InvalidGrantError e = false →
          run w = (Throw e, w1)))
  ∧ (∀ scope w1,
       match invalidateCredentials provider with
       | Some invalidateCredentials =>
           invalidate provider scope w1
           = perform (ECall (CallInvalidateCredentials scope)) (invalidateCredentials scope) w1
       | None => invalidate provider scope w1 = (Ok (), w1)
       end).
Proof.
  intros inner run. subst inner run. unfold auth, try_catch.
  split; [|split].
  - by intros r w1 ->.
  - intros e w1 ->. split; [|split].
    + intros ->. munfold. split.
      * by intros w2 ->.
      * by intros e' w2 ->.
    + intros Hgrant. rewrite Hgrant.
      assert (instanceof InvalidClientError e || instanceof UnauthorizedClientError e = false)
        as ->.
      { destruct e as [| | | |[] ? ?| | |]; done. }
      munfold. split.
      * by intros w2 ->.
      * by intros e' w2 ->.
    + by intros -> -> ->.
  - intros scope0 w1. unfold invalidate. by destruct (invalidateCredentials provider).
Qed.

End RecoveryTheorems.

Lemma auth_recovery_witness :
  let w := example_world "revoked" in
  ∃ e w1 w2,
    authInternal (example_provider true) (UObj example_server_url) None None None None w
    = (Throw e, w1)
    ∧ instanceof InvalidGrantError e = true
    ∧ invalidate (example_provider true) scope_tokens w1 = (Ok (), w2)
    ∧ session_tokens (outside w2) = None
    ∧ auth (example_provider true) (UObj example_server_url) None None None None w
      = authInternal (example_provider true) (UObj example_server_url) None None None None w2
    ∧ (auth (example_provider true) (UObj example_server_url) None None None None w).1
      = Ok REDIRECT.
Proof.
  intros w.
  destruct (authInternal (example_provider true) (UObj example_server_url) None None None
              None w) as [r w1] eqn:Hinner.
  destruct (auth_recovery (S := Session) (example_provider true) (UObj example_server_url)
              None None None None w) as (_ & Hthrow & _).
  assert (Hr : r = Throw (OAuthError InvalidGrantError "" None))
    by (apply (f_equal fst) in Hinner; vm_compute in Hinner; congruence).
  subst r.
  destruct (Hthrow _ _ Hinner) as (_ & Hgrant & _).
  destruct (Hgrant eq_refl) as [Hretry _].
  destruct (invalidate (example_provider true) scope_tokens w1) as [r2 w2] eqn:Hinv.
  assert (Hr2 : r2 = Ok ()) by (apply (f_equal fst) in Hinv; cbn in Hinv; congruence).
  subst r2.
  exists (OAuthError InvalidGrantError "" None), w1, w2.
  split; [reflexivity|]. split; [reflexivity|]. split; [exact Hinv|].
  split; [by apply (f_equal (λ x, session_tokens (outside x.2))) in Hinv|].
  split; [by apply Hretry|].
  vm_compute. reflexivity.
Defined.

(** The fallback of the optional method at work: for a provider
    without [invalidateCredentials], an invalid-client error of the
    inner flow leads to the second run with no call of the provider in
    between, and the session is the one the first run left. *)
Lemma auth_without_invalidateCredentials :
  let w := example_world "stranger" in
  let inner := authInternal (example_provider false) (UObj example_server_url)
                 None None None None in
  ∃ e w1,
    inner w = (Throw e, w1)
    ∧ instanceof InvalidClientError e = true
    ∧ auth (example_provider false) (UObj example_server_url) None None None None w
      = inner w1
    ∧ ∀ scope,
        ECall (CallInvalidateCredentials scope)
        ∉ log (auth (example_provider false) (UObj example_server_url) None None None None w).2.
Proof.
  eexists _, _. split; [vm_compute; reflexivity|]. split; [reflexivity|].
  split; [vm_compute; reflexivity|].
  intros scope0 Hin. vm_compute in Hin.
  repeat (apply elem_of_cons in Hin as [Hin|Hin]; [discriminate|]).
  by apply not_elem_of_nil in Hin.
Qed.

(** ** The prompt parameter *)

Section PromptTheorems.
Context {S : Type} {platform : Platform} {js : Json} {imports : Imports}
  {globals : Globals S}.

Lemma pairs_set_other (k v k' v' : string) (p : pairs) :
  k' ≠ k → (k', v') ∈ pairs_set k v p ↔ (k', v') ∈ p.
Proof.
  intros Hne. induction p as [|[k0 v0] p IH]; simpl.
  - rewrite list_elem_of_singleton. split; [by intros [= ? ?]|].
    by intros ?%not_elem_of_nil.
  - case_decide as Hk; rewrite !elem_of_cons.
    + rewrite list_elem_of_filter. simpl. subst k0.
      split; intros [[= ? ?]|?]; try done; [right; tauto|by right].
    + by rewrite IH.
Qed.

Lemma set_resource_other (resource : option URL) (k' v' : string) (p : pairs) :
  k' ≠ "resource" → (k', v') ∈ set_resource resource p ↔ (k', v') ∈ p.
Proof. intros Hne. destruct resource; [by apply pairs_set_other|done]. Qed.

(** What [startAuthorization] does about the prompt: the query of its
    result has [prompt=consent] exactly when the scope text contains
    [offline_access] somewhere, or the URL it started from had the
    parameter already. *)
Lemma startAuthorization_prompt (authorizationServerUrl : url_like)
    (metadata : option AuthorizationServerMetadata)
    (clientInformation : OAuthClientInformation) (redirectUrl : url_like)
    (scope state : option string) (resource : option URL) (w w' : World S)
    (authorizationUrl : URL) (codeVerifier : string) :
  startAuthorization authorizationServerUrl metadata clientInformation redirectUrl
    scope state resource w = (Ok (authorizationUrl, codeVerifier), w') →
  ∃ base,
    match metadata with
    | Some metadata => new_URL (UStr (authorization_endpoint metadata))
    | None => new_URL_at "/authorize" authorizationServerUrl
    end = Ok base
    ∧ (("prompt", "consent") ∈ searchParams authorizationUrl
       ↔ from_option (λ scope, Str.includes scope "offline_access") false scope = true
         ∨ ("prompt", "consent") ∈ searchParams base).
Proof.
  unfold startAuthorization. munfold. intros Hrun.
  assert (∃ base w0,
    match metadata with
    | Some metadata => new_URL (UStr (authorization_endpoint metadata))
    | None => new_URL_at "/authorize" authorizationServerUrl
    end = Ok base
    ∧ (let (r, w1) := perform EPkceChallenge pkceChallenge w0 in
       match r with
       | Ok challenge =>
           (Ok (mkURL (protocol base) (host base) (pathname base)
                  (set_resource resource
                     (if from_option (λ scope, Str.includes scope "offline_access") false scope
                      then pairs_append "prompt" "consent"
                             (match truthy scope with
                              | Some scope => pairs_set "scope" scope
                              | None => id
                              end
                                (match truthy state with
                                 | Some state => pairs_set "state" state
                                 | None => id
                                 end
                                   (pairs_set "redirect_uri" (String_of redirectUrl)
                                      (pairs_set "code_challenge_method" "S256"
                                         (pairs_set "code_challenge" challenge.2
                                            (pairs_set "client_id" (client_id clientInformation)
                                               (pairs_set "response_type" "code"
                                                  (searchParams base))))))))
                      else
                        match truthy scope with
                        | Some scope => pairs_set "scope" scope
                        | None => id
                        end
                          (match truthy state with
                           | Some state => pairs_set "state" state
                           | None => id
                           end
                             (pairs_set "redirect_uri" (String_of redirectUrl)
                                (pairs_set "code_challenge_method" "S256"
                                   (pairs_set "code_challenge" challenge.2
                                      (pairs_set "client_id" (client_id clientInformation)
                                         (pairs_set "response_type" "code"
                                            (searchParams base)))))))))
                  (hash base), challenge.1), w1)
       | Throw e => (Throw e, w1)
       end) = (Ok (authorizationUrl, codeVerifier), w')) as (base & w0 & Hbase & Hq).
  { destruct metadata as [md|].
    - destruct (new_URL (UStr (authorization_endpoint md))) as [u|]; [|done].
      destruct (negb (includes (response_types_supported md) "code")); [done|].
      destruct (absent_or_without _ _); [done|].
      exists u, w. split; [done|]. rewrite <- Hrun.
      destruct (perform EPkceChallenge pkceChallenge w) as [[c|] w1]; [|done].
      by destruct (truthy state), (truthy scope).
    - destruct (new_URL_at "/authorize" authorizationServerUrl) as [u|]; [|done].
      exists u, w. split; [done|]. rewrite <- Hrun.
      destruct (perform EPkceChallenge pkceChallenge w) as [[c|] w1]; [|done].
      by destruct (truthy state), (truthy scope). }
  exists base. split; [done|].
  destruct (perform EPkceChallenge pkceChallenge w0) as [[c|] w1]; [|done].
  injection Hq as <- _ _. cbn [searchParams].
  rewrite set_resource_other by done.
  assert (Hkeep : ∀ q,
    ("prompt", "consent") ∈
      match truthy scope with
      | Some scope => pairs_set "scope" scope
      | None => id
      end
        (match truthy state with
         | Some state => pairs_set "state" state
         | None => id
         end
           (pairs_set "redirect_uri" (String_of redirectUrl)
              (pairs_set "code_challenge_method" "S256"
                 (pairs_set "code_challenge" c.2
                    (pairs_set "client_id" (client_id clientInformation)
                       (pairs_set "response_type" "code" q))))))
    ↔ ("prompt", "consent") ∈ q).
  { intros q. destruct (truthy scope), (truthy state); unfold id;
      rewrite ?pairs_set_other by done; done. }
  destruct (from_option _ false scope).
  - unfold pairs_append. rewrite elem_of_app, list_elem_of_singleton. split; auto.
  - rewrite Hkeep. split; [auto|]. by intros [?|?].
Qed.

Lemma split_head_prefix (c : ascii) (s piece : string) (pieces : list string) :
  Str.split c s = piece :: pieces → Str.startsWith s piece = true.
Proof.
  revert piece pieces. induction s as [|a s IH]; intros piece pieces; simpl.
  - by intros [= <- <-].
  - case_decide; [by intros [= <- <-]|].
    destruct (Str.split c s) as [|piece' pieces'] eqn:Hsp; intros [= <- <-]; simpl.
    + by apply split_nonempty in Hsp.
    + rewrite decide_True by done. by eapply IH.
Qed.

(** A token of the scope is a substring of the scope. *)
Lemma split_elem_includes (c : ascii) (s t : string) :
  t ∈ Str.split c s → Str.includes s t = true.
Proof.
  induction s as [|a s IH]; simpl.
  - intros ->%list_elem_of_singleton. done.
  - destruct (Str.startsWith (String a s) t) eqn:Hst; [done|].
    case_decide.
    + intros [->|Hin]%elem_of_cons; [done|]. by apply IH.
    + destruct (Str.split c s) as [|piece pieces] eqn:Hsp;
        [by apply split_nonempty in Hsp|].
      intros [->|Hin]%elem_of_cons.
      * simpl in Hst. rewrite decide_True in Hst by done.
        by rewrite (split_head_prefix _ _ _ _ Hsp) in Hst.
      * apply IH. by right.
Qed.

End PromptTheorems.

(** * Further properties of the module *)

(** ** Lists of pairs *)

Section PairsFacts.

Lemma pairs_get_cons (k k' v' : string) (p : list (string * string)) :
  pairs_get k ((k', v') :: p) = if decide (k' = k) then Some v' else pairs_get k p.
Proof.
  unfold pairs_get. simpl. case_decide.
  - by rewrite bool_decide_true.
  - by rewrite bool_decide_false.
Qed.

Lemma pairs_get_filter_ne (k k0 : string) (p : list (string * string)) :
  k0 ≠ k → pairs_get k0 (filter (λ kv, kv.1 ≠ k) p) = pairs_get k0 p.
Proof.
  intros Hne. induction p as [|[k' v'] p IH]; [done|].
  rewrite filter_cons. simpl. case_decide.
  - rewrite !pairs_get_cons. by rewrite IH.
  - rewrite pairs_get_cons, IH. rewrite decide_False; [done|]. intros ->.
    match goal with Hx : ¬ _ |- _ => apply Hx end. done.
Qed.

Lemma pairs_get_set_eq (k v : string) (p : list (string * string)) :
  pairs_get k (pairs_set k v p) = Some v.
Proof.
  induction p as [|[k' v'] p IH]; simpl.
  - by rewrite pairs_get_cons, decide_True.
  - case_decide; rewrite pairs_get_cons.
    + by rewrite decide_True.
    + by rewrite decide_False.
Qed.

Lemma pairs_get_set_ne (k v k0 : string) (p : list (string * string)) :
  k0 ≠ k → pairs_get k0 (pairs_set k v p) = pairs_get k0 p.
Proof.
  intros Hne. induction p as [|[k' v'] p IH]; simpl.
  - by rewrite pairs_get_cons, decide_False.
  - case_decide as Hk; rewrite !pairs_get_cons.
    + subst k'. rewrite !decide_False by done. by apply pairs_get_filter_ne.
    + by rewrite IH.
Qed.

Lemma pairs_get_append_ne (k v k0 : string) (p : list (string * string)) :
  k0 ≠ k → pairs_get k0 (pairs_append k v p) = pairs_get k0 p.
Proof.
  intros Hne. unfold pairs_append. induction p as [|[k' v'] p IH]; simpl.
  - by rewrite pairs_get_cons, decide_False.
  - rewrite !pairs_get_cons. by rewrite IH.
Qed.

Lemma key_count_cons (k k' v' : string) (p : list (string * string)) :
  key_count k ((k', v') :: p) = if decide (k' = k) then S (key_count k p) else key_count k p.
Proof. unfold key_count. rewrite filter_cons. simpl. by case_decide. Qed.

Lemma key_count_filter_eq (k : string) (p : list (string * string)) :
  key_count k (filter (λ kv, kv.1 ≠ k) p) = 0.
Proof.
  induction p as [|[k' v'] p IH]; [done|].
  rewrite filter_cons. simpl. case_decide; [|done].
  by rewrite key_count_cons, decide_False.
Qed.

Lemma key_count_filter_ne (k k0 : string) (p : list (string * string)) :
  k0 ≠ k → key_count k0 (filter (λ kv, kv.1 ≠ k) p) = key_count k0 p.
Proof.
  intros Hne. induction p as [|[k' v'] p IH]; [done|].
  rewrite filter_cons. simpl. case_decide as Hk.
  - rewrite !key_count_cons. by rewrite IH.
  - rewrite key_count_cons, IH. rewrite decide_False; [done|]. by intros ->.
Qed.

(** After [set], the name occurs once. *)
Lemma key_count_set_eq (k v : string) (p : list (string * string)) :
  key_count k (pairs_set k v p) = 1.
Proof.
  induction p as [|[k' v'] p IH]; simpl.
  - by rewrite key_count_cons, decide_True.
  - case_decide; rewrite key_count_cons.
    + by rewrite decide_True, key_count_filter_eq.
    + by rewrite decide_False.
Qed.

Lemma key_count_set_ne (k v k0 : string) (p : list (string * string)) :
  k0 ≠ k → key_count k0 (pairs_set k v p) = key_count k0 p.
Proof.
  intros Hne. induction p as [|[k' v'] p IH]; simpl.
  - by rewrite key_count_cons, decide_False.
  - case_decide as Hk; rewrite !key_count_cons.
    + subst k'. rewrite !decide_False by done. by apply key_count_filter_ne.
    + by rewrite IH.
Qed.

Lemma key_count_append_ne (k v k0 : string) (p : list (string * string)) :
  k0 ≠ k → key_count k0 (pairs_append k v p) = key_count k0 p.
Proof.
  intros Hne. unfold pairs_append, key_count. rewrite filter_app, length_app.
  rewrite filter_cons. simpl. rewrite decide_False by done. simpl. lia.
Qed.

End PairsFacts.

(** ** Client authentication, selected and applied *)

Section AuthenticationTheorems.
Context {platform : Platform}.

(** X1.  Applying the method that the selector chose fails in two
    situations only, both with a server that lists
    [client_secret_basic]: the client's secret is the empty string,
    which the selector counts as a secret and [applyBasicAuth] refuses;
    or the secret is not empty and [btoa] rejects the text of the
    credentials because of a character outside Latin-1. *)
Theorem selected_authentication_fails_iff
    (clientInformation : OAuthClientInformation) (supportedMethods : list string)
    (headers params : pairs) (e : exn) :
  applyClientAuthentication (selectClientAuthMethod clientInformation supportedMethods)
    clientInformation headers params = Throw e
  ↔ "client_secret_basic" ∈ supportedMethods
    ∧ ((client_secret clientInformation = Some ""
        ∧ e = Error "client_secret_basic authentication requires a client_secret")
       ∨ (∃ secret, client_secret clientInformation = Some secret ∧ secret ≠ ""
            ∧ btoa (client_id clientInformation +:+ ":" +:+ secret) = None
            ∧ e = DOMException "InvalidCharacterError")).
Proof.
  unfold selectClientAuthMethod.
  pose proof (includes_elem_of supportedMethods "client_secret_basic") as Hb.
  assert (Hnil : length supportedMethods = 0 → "client_secret_basic" ∉ supportedMethods).
  { destruct supportedMethods; [intros _; apply not_elem_of_nil|done]. }
  destruct (client_secret clientInformation) as [secret|] eqn:Hs.
  - rewrite (bool_decide_true (Some secret ≠ None)) by done. cbn [andb].
    case_bool_decide as Hlen.
    { cbn [applyClientAuthentication]. split; [done|]. intros [Hin _]. by apply Hnil in Hin. }
    destruct (includes supportedMethods "client_secret_basic").
    + assert (Hin : "client_secret_basic" ∈ supportedMethods) by (by apply Hb).
      unfold applyClientAuthentication, applyBasicAuth. rewrite Hs.
      destruct secret as [|a secret]; cbn [truthy result_bind].
      * split; [intros [= <-]; split; [done|by left]|].
        intros [_ [[_ ->]|(secret & [= <-] & Hne & _)]]; done.
      * destruct (btoa _) as [credentials|] eqn:Hbtoa; cbn [result_bind].
        -- split; [done|]. intros [_ [[[= ] _]|(secret' & [= <-] & _ & Hnone & _)]].
           congruence.
        -- split.
           ++ intros [= <-]. split; [done|]. right. by exists (String a secret).
           ++ intros [_ [[[= ] _]|(secret' & _ & _ & _ & ->)]]. done.
    + split; [by repeat case_match|]. intros [Hin _]. apply Hb in Hin. discriminate.
  - rewrite (bool_decide_false (None ≠ None)) by auto. cbn [andb].
    split; [by repeat case_match|]. by intros [_ [[[= ] _]|(secret & [= ] & _)]].
Qed.

(** X2.  Where the credentials go.  With [client_secret_basic] the body
    is untouched and the header is the encoded pair; with
    [client_secret_post] the headers are untouched and the body names
    the client and its secret; with [none] the headers are untouched,
    the body names the client, and no secret is written. *)
Theorem applyClientAuthentication_placement (method : ClientAuthMethod)
    (clientInformation : OAuthClientInformation) (headers params headers' params' : pairs) :
  applyClientAuthentication method clientInformation headers params = Ok (headers', params') →
  match method with
  | client_secret_basic =>
      params' = params
      ∧ ∃ secret credentials,
          client_secret clientInformation = Some secret ∧ secret ≠ ""
          ∧ btoa (client_id clientInformation +:+ ":" +:+ secret) = Some credentials
          ∧ pairs_get "Authorization" headers' = Some ("Basic " +:+ credentials)
          ∧ key_count "Authorization" headers' = 1
  | client_secret_post =>
      headers' = headers
      ∧ pairs_get "client_id" params' = Some (client_id clientInformation)
      ∧ pairs_get "client_secret" params'
        = match truthy (client_secret clientInformation) with
          | Some secret => Some secret
          | None => pairs_get "client_secret" params
          end
  | none =>
      headers' = headers
      ∧ pairs_get "client_id" params' = Some (client_id clientInformation)
      ∧ pairs_get "client_secret" params' = pairs_get "client_secret" params
  end
  ∧ ∀ k, k ≠ "client_id" → k ≠ "client_secret" →
         pairs_get k params' = pairs_get k params.
Proof.
  destruct method; cbn [applyClientAuthentication result_bind].
  - unfold applyBasicAuth.
    destruct (truthy (client_secret clientInformation)) as [secret|] eqn:Hs;
      cbn [result_bind]; [|done].
    apply truthy_Some in Hs as [Hs Hne].
    destruct (btoa _) as [credentials|] eqn:Hbtoa; cbn [result_bind]; [|done].
    intros [= <- <-].
    split; [|done]. split; [done|]. exists secret, credentials.
    by rewrite pairs_get_set_eq, key_count_set_eq.
  - intros [= <- <-]. unfold applyPostAuth.
    destruct (truthy (client_secret clientInformation)) as [secret|].
    + split; [|by intros k ? ?; rewrite !pairs_get_set_ne].
      by rewrite pairs_get_set_eq, pairs_get_set_ne, pairs_get_set_eq.
    + split; [|by intros k ? ?; rewrite !pairs_get_set_ne].
      by rewrite pairs_get_set_eq, pairs_get_set_ne.
  - intros [= <- <-]. unfold applyPublicAuth.
    split; [|by intros k ? ?; rewrite !pairs_get_set_ne].
    by rewrite pairs_get_set_eq, pairs_get_set_ne.
Qed.

End AuthenticationTheorems.

Lemma applyClientAuthentication_placement_witness :
  ∃ headers' params',
    applyClientAuthentication none {| client_id := "abc"; client_secret := Some "shh" |}
      [] [("grant_type", "refresh_token")] = Ok (headers', params')
    ∧ pairs_get "client_id" params' = Some "abc"
    ∧ pairs_get "client_secret" params' = None
    ∧ pairs_get "grant_type" params' = Some "refresh_token".
Proof.
  eexists _, _. split; [reflexivity|].
  destruct (applyClientAuthentication_placement none
              {| client_id := "abc"; client_secret := Some "shh" |}
              [] [("grant_type", "refresh_token")] _ _ eq_refl)
    as [(_ & Hid & Hsecret) Hother].
  split; [exact Hid|]. split; [exact Hsecret|]. by apply Hother.
Defined.

(** ** Requests with the retry *)

Section RetryTheorems.
Context {S : Type} {platform : Platform} {js : Json} {imports : Imports}
  {globals : Globals S}.

(** X3.  [fetchWithCorsRetry] never throws a [TypeError], and it issues
    one request or two: the first with the headers it was given; a
    second one, without headers and to the same URL, exactly when
    headers were given and the first request threw a [TypeError].  Any
    other exception of a request is thrown on. *)
Theorem fetchWithCorsRetry_requests (url : URL) (headers : option pairs)
    (fetchFn : option (FetchLike S)) (w : World S) :
  let run := fetchWithCorsRetry url headers fetchFn w in
  let first := resolved fetchFn (discovery_request url headers) (outside w) in
  let event h := EFetch (via_of fetchFn) InFetchWithCorsRetry (discovery_request url h) in
  (∀ m, run.1 ≠ Throw (TypeError m))
  ∧ match first.1, headers with
    | Throw (TypeError _), Some _ =>
        let second := resolved fetchFn (discovery_request url None) first.2 in
        log run.2 = log w ++ [event headers; event None]
        ∧ outside run.2 = second.2
        ∧ run.1 = match second.1 with
                  | Ok response => Ok (Some response)
                  | Throw (TypeError _) => Ok None
                  | Throw e => Throw e
                  end
    | Throw (TypeError _), None =>
        log run.2 = log w ++ [event None] ∧ outside run.2 = first.2 ∧ run.1 = Ok None
    | Ok response, _ =>
        log run.2 = log w ++ [event headers] ∧ outside run.2 = first.2
        ∧ run.1 = Ok (Some response)
    | Throw e, _ =>
        log run.2 = log w ++ [event headers] ∧ outside run.2 = first.2
        ∧ run.1 = Throw e
    end.
Proof.
  intros run first event. subst run first event.
  unfold resolved, fetchWithCorsRetry, fetchWithCorsRetry_body, discovery_request.
  munfold.
  destruct fetchFn as [f|]; unfold call_fetch, perform; cbn [default from_option id via_of].
  - destruct (f _ (outside w)) as [[r|[]] s1]; cbn [fst snd log outside];
      try (split; [done|by destruct headers]).
    destruct headers as [h|]; [|done]. cbn [log outside].
    destruct (f _ s1) as [[r|[]] s2]; cbn [fst snd log outside];
      rewrite <- (assoc_L (++)); done.
  - destruct (fetch _ (outside w)) as [[r|[]] s1]; cbn [fst snd log outside];
      try (split; [done|by destruct headers]).
    destruct headers as [h|]; [|done]. cbn [log outside].
    destruct (fetch _ s1) as [[r|[]] s2]; cbn [fst snd log outside];
      rewrite <- (assoc_L (++)); done.
Qed.

End RetryTheorems.

(** ** Error responses *)

Section ErrorResponseTheorems.
Context {platform : Platform} {js : Json} {imports : Imports}.

Lemma startsWith_app (p t : string) : Str.startsWith (p +:+ t) p = true.
Proof.
  induction p as [|a p IH]; [by destruct t|].
  rewrite str_app_cons. simpl. by rewrite decide_True.
Qed.

Lemma result_bind_assoc {A B C} (r : result A) (f : A → result B) (g : B → result C) :
  result_bind r (λ a, result_bind (f a) g) = result_bind (result_bind r f) g.
Proof. by destruct r. Qed.

(** The message of the fallback error closes with the raw body and
    opens with the status of a response, unless that is 0. *)
Lemma invalid_response_message (statusCode : option N) (reason body : string) :
  let message :=
    match statusCode with
    | Some statusCode =>
        if bool_decide (statusCode = 0%N) then "" else "HTTP " +:+ pretty statusCode +:+ ": "
    | None => ""
    end +:+ "Invalid OAuth error response: " +:+ reason +:+ ". Raw body: " +:+ body in
  Str.endsWith message ("Raw body: " +:+ body) = true
  ∧ ∀ code, statusCode = Some code → code ≠ 0%N →
            Str.startsWith message ("HTTP " +:+ pretty code +:+ ": ") = true.
Proof.
  intros message. subst message. split.
  - rewrite <- !str_app_assoc.
    change (". Raw body: ") with (". " +:+ "Raw body: ").
    rewrite <- !str_app_assoc, str_app_assoc. apply endsWith_app.
  - intros code -> Hst. rewrite bool_decide_false by done. apply startsWith_app.
Qed.

(** X4.  What [parseErrorResponse] returns.  For a body that is not a
    valid OAuth error response it is a [ServerError] whose message
    opens with the HTTP status (for a response with a status other
    than 0) and closes with the raw body.  For a valid one with an
    error code of the table it is an error of the class of the code,
    with the description as the message and the URI kept.  A code that
    is not in the table reaches the members that the table inherits as
    an object: the code [constructor] gives a String object, which is
    no error at all; the name of an inherited method, or [__proto__],
    gives the fallback [ServerError] of an invalid response; any other
    code gives a [ServerError] with the description and the URI.  The
    result is an [OAuthError] in every case but the one of
    [constructor]. *)
Theorem parseErrorResponse_spec (input : Response + string) :
  let body := match input with inl r => res_body r | inr text => text end in
  let parsed :=
    result_bind (JSON_parse_text body) (schema_parse OAuthErrorResponseSchema_parse) in
  let fallback :=
    ∃ message,
      parseErrorResponse input = OAuthError ServerError message None
      ∧ Str.endsWith message ("Raw body: " +:+ body) = true
      ∧ ∀ r, input = inl r → status r ≠ 0%N →
             Str.startsWith message ("HTTP " +:+ pretty (status r) +:+ ": ") = true in
  (∀ e, parsed = Throw e → fallback)
  ∧ (∀ r, parsed = Ok r →
       let description := default "" (error_description r) in
       match OAUTH_ERRORS (error r) with
       | Some cls => parseErrorResponse input = OAuthError cls description (error_uri r)
       | None =>
           match Object_prototype_member (error r) with
           | Some ObjectConstructor => parseErrorResponse input = StringObject description
           | Some _ => fallback
           | None =>
               parseErrorResponse input = OAuthError ServerError description (error_uri r)
           end
       end)
  ∧ (instanceof_OAuthError (parseErrorResponse input) = false
     ↔ ∃ r, parsed = Ok r ∧ error r = "constructor" ∧ OAUTH_ERRORS "constructor" = None).
Proof.
  intros body parsed fallback.
  set (statusCode := match input with inl r => Some (status r) | inr _ => None end).
  assert (Hfallback : ∀ e,
    parseErrorResponse input
    = OAuthError ServerError
        (match statusCode with
         | Some statusCode =>
             if bool_decide (statusCode = 0%N) then ""
             else "HTTP " +:+ pretty statusCode +:+ ": "
         | None => ""
         end +:+ "Invalid OAuth error response: " +:+ exn_text e +:+ ". Raw body: " +:+ body)
        None → fallback).
  { intros e He. eexists. split; [exact He|].
    destruct (invalid_response_message statusCode (exn_text e) body) as [Hends Hstarts].
    split; [exact Hends|]. intros r -> Hst. by apply Hstarts. }
  assert (Hrun : parseErrorResponse input =
    match result_bind parsed (λ r,
            new_errorClass (error r) (default "" (truthy (error_description r)))
              (error_uri r)) with
    | Ok e => e
    | Throw e =>
        OAuthError ServerError
          (match statusCode with
           | Some statusCode =>
               if bool_decide (statusCode = 0%N) then ""
               else "HTTP " +:+ pretty statusCode +:+ ": "
           | None => ""
           end +:+ "Invalid OAuth error response: " +:+ exn_text e +:+ ". Raw body: " +:+ body)
          None
    end).
  { unfold parseErrorResponse. by rewrite result_bind_assoc. }
  assert (Hd : ∀ r : OAuthErrorResponse,
    default "" (truthy (error_description r)) = default "" (error_description r)).
  { intros r. by destruct (error_description r) as [[]|]. }
  assert (Hconstructor : ∀ code,
    Object_prototype_member code = Some ObjectConstructor ↔ code = "constructor").
  { intros code. unfold Object_prototype_member. case_decide; [done|].
    split; [by case_bool_decide|done]. }
  assert (Hmembers : ∀ code cls, Object_prototype_member code ≠ Some (ErrorClass cls)).
  { intros code cls. unfold Object_prototype_member. by repeat case_match. }
  destruct parsed as [r|e0] eqn:Hparsed; cbn [result_bind] in Hrun.
  - rewrite Hd in Hrun. unfold new_errorClass, OAUTH_ERRORS_at in Hrun.
    split; [done|]. split.
    + intros r' [= <-]. cbv zeta.
      destruct (OAUTH_ERRORS (error r)) as [cls|]; [done|].
      destruct (Object_prototype_member (error r)) as [[]|] eqn:Hmember; try done.
      * by apply Hmembers in Hmember.
      * by apply (Hfallback (TypeError "errorClass is not a constructor")).
    + rewrite Hrun. split.
      * intros Hno. exists r. split; [done|].
        destruct (OAUTH_ERRORS (error r)) as [cls|] eqn:Hown; [done|].
        destruct (Object_prototype_member (error r)) as [[]|] eqn:Hmember; try done.
        apply Hconstructor in Hmember. by rewrite <- Hmember.
      * intros (r' & [= <-] & Hcode & Hown). rewrite Hcode, Hown.
        by rewrite (proj2 (Hconstructor "constructor") eq_refl).
  - split; [intros e [= <-]; by apply (Hfallback e0)|]. split; [done|].
    rewrite Hrun. split; [done|]. by intros (r & [= ] & _).
Qed.

End ErrorResponseTheorems.

Lemma parseErrorResponse_spec_witness :
  (∃ message,
     parseErrorResponse (inl (respond 500 "oops")) = OAuthError ServerError message None
     ∧ Str.endsWith message "Raw body: oops" = true
     ∧ Str.startsWith message "HTTP 500: " = true)
  ∧ instanceof_OAuthError (parseErrorResponse (inr "error constructor")) = false.
Proof.
  split.
  - destruct (parseErrorResponse_spec (js := example_json) (imports := example_imports)
                (inl (respond 500 "oops"))) as (Hinvalid & _).
    destruct (Hinvalid SyntaxError) as (message & Herror & Hends & Hstarts);
      [vm_compute; reflexivity|].
    exists message. split; [exact Herror|]. split; [exact Hends|].
    apply (Hstarts (respond 500 "oops")); [reflexivity|discriminate].
  - destruct (parseErrorResponse_spec (js := example_json) (imports := example_imports)
                (inr "error constructor")) as (_ & _ & Hno).
    apply Hno. eexists. split; [vm_compute; reflexivity|]. split; reflexivity.
Defined.

(** ** Trailing slashes *)

Section TrailingSlashTheorems.
Context {platform : Platform}.

(** X5.  A trailing slash on the path of the server URL changes
    nothing: the well-known path and the list of discovery URLs are the
    ones of the path without it. *)
Theorem buildDiscoveryUrls_trailing_slash (u : URL) (p : string) :
  p ≠ "" → Str.endsWith p "/" = false →
  buildDiscoveryUrls (UObj (with_pathname u (p +:+ "/")))
  = buildDiscoveryUrls (UObj (with_pathname u p))
  ∧ ∀ wellKnownPrefix prependPathname,
      buildWellKnownPath wellKnownPrefix (p +:+ "/") prependPathname
      = buildWellKnownPath wellKnownPrefix p prependPathname.
Proof.
  intros Hne Hends. split.
  - unfold buildDiscoveryUrls. cbn [new_URL result_bind with_pathname pathname].
    assert (p +:+ "/" ≠ "/") as Hp1.
    { intros Heq. apply Hne. by apply (str_app_inv_tail p "" "/"). }
    assert (p ≠ "/") as Hp2 by (by intros ->).
    rewrite !bool_decide_false by done. cbn [negb].
    by rewrite endsWith_app, slice_0_m1_app, Hends.
  - intros t b. unfold buildWellKnownPath.
    by rewrite endsWith_app, slice_0_m1_app, Hends.
Qed.

End TrailingSlashTheorems.

Lemma buildDiscoveryUrls_trailing_slash_witness :
  @buildDiscoveryUrls example_platform (UObj (with_pathname example_issuer_url "/tenant1/"))
  = @buildDiscoveryUrls example_platform (UObj (with_pathname example_issuer_url "/tenant1")).
Proof.
  apply (@buildDiscoveryUrls_trailing_slash example_platform example_issuer_url "/tenant1").
  - discriminate.
  - reflexivity.
Defined.

(** ** Metadata lookups *)

Section LookupTheorems.
Context {S : Type} {platform : Platform} {js : Json} {imports : Imports}
  {globals : Globals S}.

Lemma emits_bind_lift {A B} (Q : Event → Prop) (r : result A) (k : A → M S B) :
  (∀ a, r = Ok a → emits Q (k a)) → emits Q (x ← lift r; k x).
Proof.
  intros Hk w. unfold mbind, M_bind, bind, lift. destruct r as [a|e].
  - by apply Hk.
  - exists []. by rewrite app_nil_r.
Qed.

Lemma emits_fetchWithCorsRetry_to (Q : Event → Prop) (url : URL) (headers : option pairs)
    (fetchFn : option (FetchLike S)) :
  (∀ h, Q (EFetch (via_of fetchFn) InFetchWithCorsRetry (discovery_request url h))) →
  emits Q (fetchWithCorsRetry url headers fetchFn).
Proof.
  intros HQ. unfold fetchWithCorsRetry, fetchWithCorsRetry_body.
  repeat first [emits_step | apply emits_call_fetch; apply HQ].
Qed.

(** X6.  With a resource metadata URL from the caller, protected
    resource discovery requests that URL and no other: no well-known
    URL is built, and a missing response or a 404 fails at once,
    without the fallback to the root. *)
Theorem discoverOAuthProtectedResourceMetadata_given_url (serverUrl metadataUrl : url_like)
    (issuer url : URL) (protocolVersion : option string) (fetchFn : option (FetchLike S)) :
  truthy_url (Some metadataUrl) = Some metadataUrl →
  new_URL serverUrl = Ok issuer →
  new_URL metadataUrl = Ok url →
  let run := discoverOAuthProtectedResourceMetadata serverUrl protocolVersion
               (Some metadataUrl) fetchFn in
  emits (requests_only fetchFn url) run
  ∧ ∀ w response w1,
      tryMetadataDiscovery url (default LATEST_PROTOCOL_VERSION protocolVersion) fetchFn w
        = (Ok response, w1) →
      (response = None ∨ ∃ r, response = Some r ∧ status r = 404%N) →
      run w = (Throw not_implemented, w1).
Proof.
  intros Htruthy Hissuer Hurl run. subst run.
  unfold discoverOAuthProtectedResourceMetadata, discoverMetadataWithFallback.
  rewrite Htruthy, Hissuer, Hurl. rewrite bool_decide_true by (by eexists).
  cbn [negb andb]. split.
  - apply emits_bind; [|intros [r|]; repeat emits_step].
    apply emits_bind_lift. intros issuer' [= <-].
    apply emits_bind_lift. intros url' [= <-].
    apply emits_bind; [|intros ?; apply emits_ret].
    apply emits_fetchWithCorsRetry_to. intros h. by exists h.
  - intros w response w1 Hatt Hcase. munfold. rewrite Hatt.
    destruct Hcase as [->|(r & -> & H404)]; [done|].
    by rewrite bool_decide_true.
Qed.

(** The lookup of the deprecated function: the server URL is also the
    base of the well-known URL. *)
Lemma discoverMetadataWithFallback_run_at (issuer : URL) (P t : string)
    (fetchFn : option (FetchLike S)) (pv : string) (w : World S) :
  stripped (pathname issuer) P →
  discoverMetadataWithFallback (UObj issuer) t fetchFn (Some pv) None (Some (UObj issuer)) w =
    match tryMetadataDiscovery
            (mkURL (protocol issuer) (host issuer) ("/.well-known/" +:+ t +:+ P)
               (searchParams issuer) "") pv fetchFn w with
    | (Ok response, w1) =>
        if shouldAttemptFallback response (pathname issuer)
        then tryMetadataDiscovery (at_origin issuer ("/.well-known/" +:+ t)) pv fetchFn w1
        else (Ok response, w1)
    | (Throw e, w1) => (Throw e, w1)
    end.
Proof.
  intros HP. unfold discoverMetadataWithFallback. munfold.
  cbn [new_URL truthy_url from_option id]. unfold buildWellKnownPath.
  rewrite (stripped_unique _ _ _ (stripped_code (pathname issuer)) HP).
  rewrite URL_resolve_well_known. cbn [protocol host pathname hash].
  destruct (tryMetadataDiscovery _ _ fetchFn w) as [[response|e] w1]; [|done].
  rewrite bool_decide_false by (by intros [? ?]). cbn [negb andb].
  by destruct (shouldAttemptFallback response (pathname issuer)).
Qed.

(** X7.  The deprecated [discoverOAuthMetadata], called with an issuer
    alone, requests the path-aware well-known URL (with the query of
    the issuer) and falls back to the root like the protected-resource
    lookup, but a deciding response that is missing or a 404 is not an
    error: the result is [undefined].  Any other response outside 2xx
    throws the error that names its status, a 2xx response is
    parsed. *)
Theorem discoverOAuthMetadata_spec (issuerUrl : url_like) (issuer : URL) (P : string)
    (protocolVersion : option string) (fetchFn : option (FetchLike S)) (w : World S) :
  new_URL issuerUrl = Ok issuer →
  stripped (pathname issuer) P →
  let version := default LATEST_PROTOCOL_VERSION protocolVersion in
  let first := tryMetadataDiscovery (oauth_metadata_url issuer P) version fetchFn in
  let root := tryMetadataDiscovery (at_origin issuer oauth_well_known) version fetchFn in
  let run := discoverOAuthMetadata issuerUrl None protocolVersion fetchFn in
  (∀ e w1, first w = (Throw e, w1) → run w = (Throw e, w1))
  ∧ (∀ response w',
       (first w = (Ok response, w') ∧ ¬ absent response issuer)
       ∨ (∃ r1 w1, first w = (Ok r1, w1) ∧ absent r1 issuer
                   ∧ root w1 = (Ok response, w')) →
       match response with
       | None => run w = (Ok None, w')
       | Some r =>
           (status r = 404%N → run w = (Ok None, w'))
           ∧ (status r ≠ 404%N → ok r = false →
              run w = (Throw (Error ("HTTP " +:+ pretty (status r)
                                     +:+ " trying to load well-known OAuth metadata")), w'))
           ∧ (ok r = true →
              run w = (result_bind (response_json r)
                         (λ v, result_bind (schema_parse OAuthMetadataSchema_parse v)
                                 (λ metadata, Ok (Some metadata))), w'))
       end).
Proof.
  intros Hx HP version first root run.
  assert (Hrun : run w =
    match first w with
    | (Ok response, w1) =>
        match (if shouldAttemptFallback response (pathname issuer)
               then root w1 else (Ok response, w1)) with
        | (Ok None, w2) => (Ok None, w2)
        | (Ok (Some r), w2) =>
            if bool_decide (status r = 404%N) then (Ok None, w2)
            else if negb (ok r) then
              (Throw (Error ("HTTP " +:+ pretty (status r)
                 +:+ " trying to load well-known OAuth metadata")), w2)
            else (result_bind (response_json r)
                    (λ v, result_bind (schema_parse OAuthMetadataSchema_parse v)
                            (λ metadata, Ok (Some metadata))), w2)
        | (Throw e, w2) => (Throw e, w2)
        end
    | (Throw e, w1) => (Throw e, w1)
    end).
  { subst run first root version. unfold discoverOAuthMetadata.
    unfold mbind, M_bind, bind at 1. unfold lift at 1. rewrite Hx.
    unfold bind at 1. unfold lift at 1. cbn [truthy_url from_option new_URL].
    unfold bind at 1.
    rewrite (discoverMetadataWithFallback_run_at _ _ _ _ _ _ HP).
    unfold oauth_metadata_url, oauth_well_known.
    destruct (tryMetadataDiscovery _ _ fetchFn w) as [[response|e] w1]; [|done].
    assert (Htail : ∀ (x : option Response) (w2 : World S),
      match x with
      | None => ret None
      | Some response =>
          if bool_decide (status response = 404%N) then ret None
          else if negb (ok response) then
            throw (Error ("HTTP " +:+ pretty (status response)
                          +:+ " trying to load well-known OAuth metadata"))
          else
            v ← lift (response_json response);
            metadata ← lift (schema_parse OAuthMetadataSchema_parse v);
            ret (Some metadata)
      end w2 =
      match x with
      | None => (Ok None, w2)
      | Some r =>
          if bool_decide (status r = 404%N) then (Ok None, w2)
          else if negb (ok r) then
            (Throw (Error ("HTTP " +:+ pretty (status r)
               +:+ " trying to load well-known OAuth metadata")), w2)
          else (result_bind (response_json r)
                  (λ v, result_bind (schema_parse OAuthMetadataSchema_parse v)
                          (λ metadata, Ok (Some metadata))), w2)
      end).
    { intros [r|] w2; [|done]. case_bool_decide; [done|].
      destruct (ok r); cbn [negb]; [|done]. munfold.
      destruct (response_json r) as [v|]; cbn [result_bind]; [|done].
      by destruct (schema_parse OAuthMetadataSchema_parse v). }
    destruct (shouldAttemptFallback response (pathname issuer)).
    - destruct (tryMetadataDiscovery _ _ fetchFn w1) as [[x|e] w2]; [|done].
      rewrite Htail. by destruct x.
    - rewrite Htail. by destruct response. }
  assert (H404 : ∀ r, ok r = true → status r ≠ 404%N).
  { intros r Hok ?. apply bool_decide_eq_true in Hok. lia. }
  split.
  - intros e w1 Hfirst. by rewrite Hrun, Hfirst.
  - intros response w' [[Hfirst Hpresent]|(r1 & w1 & Hfirst & Habsent & Hroot)];
      rewrite Hrun, Hfirst.
    + rewrite <- shouldAttemptFallback_absent in Hpresent.
      apply not_true_is_false in Hpresent. rewrite Hpresent.
      destruct response as [r|]; [|done].
      split; [|split; [intros Hne Hnok|]].
      * intros ->. by rewrite bool_decide_true.
      * rewrite bool_decide_false by done. by rewrite Hnok.
      * intros Hok. rewrite bool_decide_false by auto. by rewrite Hok.
    + apply shouldAttemptFallback_absent in Habsent. rewrite Habsent, Hroot.
      destruct response as [r|]; [|done].
      split; [|split; [intros Hne Hnok|]].
      * intros ->. by rewrite bool_decide_true.
      * rewrite bool_decide_false by done. by rewrite Hnok.
      * intros Hok. rewrite bool_decide_false by auto. by rewrite Hok.
Qed.

End LookupTheorems.

Lemma discoverOAuthProtectedResourceMetadata_given_url_witness :
  let run := discoverOAuthProtectedResourceMetadata (UObj example_server_url) None
               (Some (UObj (mkURL "https:" "meta.example" "/prm" [] "")))
               (Some (constant_fetch 404 "")) (example_world "R1") in
  run.1 = Throw not_implemented ∧ length (log run.2) = 1.
Proof.
  destruct (discoverOAuthProtectedResourceMetadata_given_url (S := Session)
              (UObj example_server_url) (UObj (mkURL "https:" "meta.example" "/prm" [] ""))
              example_server_url (mkURL "https:" "meta.example" "/prm" [] "") None
              (Some (constant_fetch 404 "")) eq_refl eq_refl eq_refl)
    as [_ Hfail].
  cbv zeta. erewrite Hfail; cycle 1.
  - vm_compute. reflexivity.
  - right. eexists. split; reflexivity.
  - split; reflexivity.
Defined.

Lemma discoverOAuthMetadata_spec_witness :
  (discoverOAuthMetadata (UObj example_server_url) None None (Some (constant_fetch 404 ""))
     (example_world "R1")).1 = Ok None.
Proof.
  destruct (discoverOAuthMetadata_spec (S := Session) (UObj example_server_url)
              example_server_url "/mcp" None (Some (constant_fetch 404 ""))
              (example_world "R1") eq_refl (stripped_code "/mcp"))
    as [_ Hfinal].
  specialize (Hfinal (Some (respond 404 ""))
    (discoverOAuthMetadata (UObj example_server_url) None None
       (Some (constant_fetch 404 "")) (example_world "R1")).2).
  destruct Hfinal as [H404 _].
  - right. eexists _, _. split; [reflexivity|]. split; [|reflexivity].
    right. eexists. split; [reflexivity|]. split; [reflexivity|discriminate].
  - by rewrite H404.
Defined.

(** ** What a run of the flow does *)

Section FlowTheorems.
Context {S : Type} {platform : Platform} {js : Json} {imports : Imports}
  {globals : Globals S}.

Lemma emits_selectResourceURL_of (Q : Event → Prop) (serverUrl : url_like)
    (provider : OAuthClientProvider S)
    (resourceMetadata : option OAuthProtectedResourceMetadata) :
  (is_Some (validateResourceURL provider) → Q (ECall CallValidateResourceURL)) →
  emits Q (selectResourceURL serverUrl provider resourceMetadata).
Proof.
  intros HQ. unfold selectResourceURL.
  apply emits_bind; [apply emits_lift|intros d].
  destruct (validateResourceURL provider); [apply emits_perform; eauto|].
  repeat emits_step.
Qed.

Lemma emits_authenticate_of (Q : Event → Prop)
    (addClientAuthentication : option (@ClientAuthenticator S))
    (authorizationServerUrl : url_like) (metadata : option AuthorizationServerMetadata)
    (clientInformation : OAuthClientInformation) (headers params : pairs) :
  (is_Some addClientAuthentication → Q (ECall CallAddClientAuthentication)) →
  emits Q (authenticate addClientAuthentication authorizationServerUrl metadata
             clientInformation headers params).
Proof.
  intros HQ. unfold authenticate.
  destruct addClientAuthentication; [apply emits_perform; eauto|apply emits_lift].
Qed.

Lemma emits_startAuthorization_of (Q : Event → Prop) (authorizationServerUrl : url_like)
    (metadata : option AuthorizationServerMetadata)
    (clientInformation : OAuthClientInformation) (redirectUrl : url_like)
    (scope state : option string) (resource : option URL) :
  Q EPkceChallenge →
  emits Q (startAuthorization authorizationServerUrl metadata clientInformation redirectUrl
             scope state resource).
Proof. intros HQ. unfold startAuthorization. repeat emits_step. Qed.

Lemma emits_exchangeAuthorization_of (Q : Event → Prop) (authorizationServerUrl : url_like)
    (metadata : option AuthorizationServerMetadata)
    (clientInformation : OAuthClientInformation)
    (authorizationCode codeVerifier : string) (redirectUri : url_like)
    (resource : option URL) (addClientAuthentication : option (@ClientAuthenticator S))
    (fetchFn : option (FetchLike S)) :
  (is_Some addClientAuthentication → Q (ECall CallAddClientAuthentication)) →
  (∀ request, Q (EFetch (via_of fetchFn) InExchangeAuthorization request)) →
  emits Q (exchangeAuthorization authorizationServerUrl metadata clientInformation
             authorizationCode codeVerifier redirectUri resource addClientAuthentication
             fetchFn).
Proof.
  intros Hadd HQ. unfold exchangeAuthorization.
  repeat first [emits_step | by apply emits_authenticate_of | by apply emits_call_fetch].
Qed.

Lemma emits_refreshAuthorization_of (Q : Event → Prop) (authorizationServerUrl : url_like)
    (metadata : option AuthorizationServerMetadata)
    (clientInformation : OAuthClientInformation) (refreshToken : string)
    (resource : option URL) (addClientAuthentication : option (@ClientAuthenticator S))
    (fetchFn : option (FetchLike S)) :
  (is_Some addClientAuthentication → Q (ECall CallAddClientAuthentication)) →
  (∀ request, Q (EFetch (via_of fetchFn) InRefreshAuthorization request)) →
  emits Q (refreshAuthorization authorizationServerUrl metadata clientInformation
             refreshToken resource addClientAuthentication fetchFn).
Proof.
  intros Hadd HQ. unfold refreshAuthorization.
  repeat first [emits_step | by apply emits_authenticate_of | by apply emits_call_fetch].
Qed.

Lemma emits_registerClient_of (Q : Event → Prop) (authorizationServerUrl : url_like)
    (metadata : option AuthorizationServerMetadata) (clientMetadata : OAuthClientMetadata)
    (fetchFn : option (FetchLike S)) :
  (∀ request, Q (EFetch (via_of fetchFn) InRegisterClient request)) →
  emits Q (registerClient authorizationServerUrl metadata clientMetadata fetchFn).
Proof.
  intros HQ. unfold registerClient.
  repeat first [emits_step | by apply emits_call_fetch].
Qed.

Ltac flow_side := intros; cbn; first [done | eauto].

Lemma emits_authInternal_flow (provider : OAuthClientProvider S) (serverUrl : url_like)
    (authorizationCode scope : option string) (resourceMetadataUrl : option URL)
    (fetchFn : option (FetchLike S)) :
  emits (flow_event provider authorizationCode)
    (authInternal provider serverUrl authorizationCode scope resourceMetadataUrl fetchFn).
Proof.
  unfold authInternal.
  apply emits_bind.
  { apply emits_try_catch; [|intros ?; apply emits_ret].
    apply emits_bind; [|intros ?; apply emits_ret].
    by apply emits_discoverOAuthProtectedResourceMetadata. }
  intros [resourceMetadata authorizationServerUrl].
  apply emits_bind; [apply emits_selectResourceURL_of; flow_side|intros resource].
  apply emits_bind; [by apply emits_discoverAuthorizationServerMetadata|intros metadata].
  apply emits_bind; [apply emits_perform; flow_side|intros information].
  apply emits_bind.
  { destruct information as [information|]; [apply emits_ret|].
    case_bool_decide as Hcode; [apply emits_throw|].
    assert (authorizationCode = None) as -> by (by destruct authorizationCode; [destruct Hcode|]).
    destruct (saveClientInformation provider) as [save|] eqn:Hsave; [|apply emits_throw].
    apply emits_bind; [|intros full].
    - apply emits_registerClient_of. intros request. cbn. by rewrite Hsave.
    - apply emits_bind; [|intros ?; apply emits_ret].
      apply emits_perform. cbn. by rewrite Hsave. }
  intros information'. destruct authorizationCode as [code|].
  - apply emits_bind; [apply emits_perform; flow_side|intros verifier].
    apply emits_bind; [apply emits_exchangeAuthorization_of; flow_side|intros tokens].
    apply emits_bind; [apply emits_perform; flow_side|intros ?; apply emits_ret].
  - apply emits_bind; [apply emits_perform; flow_side|intros tokens].
    apply emits_bind.
    { destruct (truthy (tokens ≫= refresh_token)) as [token|]; [|apply emits_ret].
      apply emits_try_catch; [|intros ?; repeat emits_step].
      apply emits_bind; [apply emits_refreshAuthorization_of; flow_side|intros newTokens].
      apply emits_bind; [apply emits_perform; flow_side|intros ?; apply emits_ret]. }
    intros [authorized|]; [apply emits_ret|].
    apply emits_bind.
    { destruct (state provider) as [st|] eqn:Hstate; [|apply emits_ret].
      apply emits_bind; [|intros ?; apply emits_ret].
      apply emits_perform. cbn. by rewrite Hstate. }
    intros st. apply emits_bind; [apply emits_startAuthorization_of; flow_side|].
    intros [authorizationUrl verifier].
    apply emits_bind; [apply emits_perform; flow_side|intros ?].
    apply emits_bind; [apply emits_perform; flow_side|intros ?; apply emits_ret].
Qed.

(** X8.  What a run of [auth] never does.  With an authorization code
    it never reads the stored tokens, refreshes, registers a client,
    asks for a PKCE challenge, saves a code verifier or redirects;
    without one it never reads the code verifier and never sends the
    exchange request.  A client is registered only through a provider
    that can save the registration, and the optional methods of the
    provider are the only ones called when the provider has them. *)
Theorem auth_flow_events (provider : OAuthClientProvider S) (serverUrl : url_like)
    (authorizationCode scope : option string) (resourceMetadataUrl : option URL)
    (fetchFn : option (FetchLike S)) :
  emits (flow_event provider authorizationCode)
    (auth provider serverUrl authorizationCode scope resourceMetadataUrl fetchFn).
Proof.
  unfold auth. apply emits_try_catch; [apply emits_authInternal_flow|intros error].
  assert (Hinv : ∀ scope', emits (flow_event provider authorizationCode)
                             (invalidate provider scope')).
  { intros scope'. unfold invalidate.
    destruct (invalidateCredentials provider) eqn:Hinv; [|apply emits_ret].
    apply emits_perform. cbn. by rewrite Hinv. }
  repeat first [apply emits_authInternal_flow | apply Hinv | emits_step].
Qed.

End FlowTheorems.

Section TailTheorems.
Context {S : Type} {platform : Platform} {js : Json} {imports : Imports}
  {globals : Globals S}.

Lemma bind_Ok {A B} (m : M S A) (k : A → M S B) (w : World S) (b : B) (w' : World S) :
  (x ← m; k x) w = (Ok b, w') → ∃ a w1, m w = (Ok a, w1) ∧ k a w1 = (Ok b, w').
Proof.
  unfold mbind, M_bind, bind. destruct (m w) as [[a|e] w1]; [|done].
  intros Hk. by exists a, w1.
Qed.

Lemma emits_log {A} (Q : Event → Prop) (m : M S A) (w : World S) (r : result A)
    (w' : World S) :
  emits Q m → m w = (r, w') → ∃ evs, log w' = log w ++ evs.
Proof.
  intros Hm Hw. destruct (Hm w) as (evs & Hlog & _). rewrite Hw in Hlog. by exists evs.
Qed.

Lemma perform_Ok {A} (e : Event) (f : effect S A) (w : World S) (a : A) (w' : World S) :
  perform e f w = (Ok a, w') → f (outside w) = (Ok a, outside w') ∧ log w' = log w ++ [e].
Proof.
  unfold perform. destruct (f (outside w)) as [r s]. by intros [= -> <-].
Qed.

Lemma try_catch_Ok {A} (m : M S A) (h : exn → M S A) (w : World S) (a : A) (w' : World S) :
  try_catch m h w = (Ok a, w') →
  m w = (Ok a, w') ∨ ∃ e w1, m w = (Throw e, w1) ∧ h e w1 = (Ok a, w').
Proof.
  unfold try_catch. destruct (m w) as [[a1|e] w1]; intros Hrun; [by left|right].
  by exists e, w1.
Qed.

Lemma finishes_throw {A} (tail : A → World S → World S → Prop) (e : exn) :
  finishes tail (throw e : M S A).
Proof. by intros w a w'. Qed.

Lemma finishes_bind {A B} (Q : Event → Prop) (tail : B → World S → World S → Prop)
    (m : M S A) (k : A → M S B) :
  emits Q m → (∀ a, finishes tail (k a)) → finishes tail (x ← m; k x).
Proof.
  intros Hm Hk w b w' Hrun. apply bind_Ok in Hrun as (a & w1 & Hmw & Hkw).
  destruct (emits_log _ _ _ _ _ Hm Hmw) as (evs1 & Hlog1).
  destruct (Hk a _ _ _ Hkw) as (w0 & (evs & Hlog) & Htail).
  exists w0. split; [|done]. exists (evs1 ++ evs).
  by rewrite Hlog, Hlog1, !(assoc_L (++)).
Qed.

Lemma finishes_try_catch {A} (Q : Event → Prop) (tail : A → World S → World S → Prop)
    (m : M S A) (h : exn → M S A) :
  emits Q m → finishes tail m → (∀ e, finishes tail (h e)) → finishes tail (try_catch m h).
Proof.
  intros Hm Htm Hh w a w' Hrun.
  apply try_catch_Ok in Hrun as [Hrun|(e & w1 & Hmw & Hrun)]; [by apply Htm|].
  destruct (emits_log _ _ _ _ _ Hm Hmw) as (evs1 & Hlog1).
  destruct (Hh e _ _ _ Hrun) as (w0 & (evs & Hlog) & Htail).
  exists w0. split; [|done]. exists (evs1 ++ evs).
  by rewrite Hlog, Hlog1, !(assoc_L (++)).
Qed.

(** The branch of the authorization code: read the verifier, exchange,
    save. *)
Lemma finishes_exchange (provider : OAuthClientProvider S) (code : string)
    (authorizationServerUrl : url_like) (metadata : option AuthorizationServerMetadata)
    (information : OAuthClientInformation) (resource : option URL)
    (fetchFn : option (FetchLike S)) :
  finishes (auth_outcome provider (Some code) fetchFn)
    (verifier ← perform (ECall CallCodeVerifier) (codeVerifier provider);
     newTokens ← exchangeAuthorization authorizationServerUrl metadata information code
                   verifier (redirectUrl provider) resource
                   (addClientAuthentication provider) fetchFn;
     _ ← perform (ECall (CallSaveTokens newTokens)) (saveTokens provider newTokens);
     ret AUTHORIZED).
Proof.
  intros w result w' Hrun.
  apply bind_Ok in Hrun as (verifier & w0 & Hverifier & Hrun).
  apply bind_Ok in Hrun as (newTokens & w1 & Hexchange & Hrun).
  apply bind_Ok in Hrun as ([] & w2 & Hsave & Hret). injection Hret as <- <-.
  apply perform_Ok in Hverifier as [Hverifier Hlog0].
  apply perform_Ok in Hsave as [Hsave Hlog2].
  exists w0. split; [by eexists|].
  exists authorizationServerUrl, metadata, information, resource, newTokens, w1.
  split; [|done]. by exists verifier, (outside w).
Qed.

(** The refresh: with the refresh token of the tokens that were read,
    and the new tokens saved. *)
Lemma finishes_refresh (provider : OAuthClientProvider S)
    (authorizationServerUrl : url_like) (metadata : option AuthorizationServerMetadata)
    (information : OAuthClientInformation) (resource : option URL)
    (fetchFn : option (FetchLike S)) (held : option OAuthTokens) (s : S)
    (w : World S) (authorized : AuthResult) (w' : World S) :
  tokens provider s = (Ok held, outside w) →
  match truthy (held ≫= refresh_token) with
  | Some refresh_token =>
      try_catch
        (newTokens ← refreshAuthorization authorizationServerUrl metadata information
                       refresh_token resource (addClientAuthentication provider) None;
         _ ← perform (ECall (CallSaveTokens newTokens)) (saveTokens provider newTokens);
         ret (Some AUTHORIZED))
        (λ error,
           if negb (instanceof_OAuthError error) || instanceof ServerError error
           then ret None
           else throw error)
  | None => ret None
  end w = (Ok (Some authorized), w') →
  auth_outcome provider None fetchFn authorized w w'.
Proof.
  intros Hheld Hrun.
  destruct (truthy (held ≫= refresh_token)) as [refreshToken|] eqn:Htoken; [|done].
  apply try_catch_Ok in Hrun as [Hrun|(e & w1 & _ & Hrun)];
    [|by destruct (negb _ || _)].
  apply bind_Ok in Hrun as (newTokens & w1 & Hrefresh & Hrun).
  apply bind_Ok in Hrun as ([] & w2 & Hsave & Hret). injection Hret as <- <-.
  apply perform_Ok in Hsave as [Hsave Hlog2].
  exists authorizationServerUrl, metadata, information, resource, newTokens, w1.
  split; [|done]. by exists held, refreshToken, s.
Qed.

(** The new authorization: the pair of [startAuthorization] is saved
    and followed. *)
Lemma finishes_redirect (provider : OAuthClientProvider S)
    (authorizationServerUrl : url_like) (metadata : option AuthorizationServerMetadata)
    (information : OAuthClientInformation) (scope state : option string)
    (resource : option URL) (fetchFn : option (FetchLike S)) :
  finishes (auth_outcome provider None fetchFn)
    ('(authorizationUrl, codeVerifier) ←
       startAuthorization authorizationServerUrl metadata information
         (redirectUrl provider) scope state resource;
     _ ← perform (ECall (CallSaveCodeVerifier codeVerifier))
           (saveCodeVerifier provider codeVerifier);
     _ ← perform (ECall (CallRedirectToAuthorization authorizationUrl))
           (redirectToAuthorization provider authorizationUrl);
     ret REDIRECT).
Proof.
  intros w result w' Hrun.
  apply bind_Ok in Hrun as ([url verifier] & w1 & Hstart & Hrun).
  apply bind_Ok in Hrun as ([] & w2 & Hsave & Hrun).
  apply bind_Ok in Hrun as ([] & w3 & Hredirect & Hret). injection Hret as <- <-.
  apply perform_Ok in Hsave as [Hsave Hlog2].
  apply perform_Ok in Hredirect as [Hredirect Hlog3].
  exists w. split; [exists []; by rewrite app_nil_r|]. split; [done|].
  exists authorizationServerUrl, metadata, information, scope, state, resource, url,
    verifier, w1, (outside w2).
  split; [done|]. split; [done|]. split; [done|].
  by rewrite Hlog3, Hlog2, <- (assoc_L (++)).
Qed.

Lemma finishes_authInternal (provider : OAuthClientProvider S) (serverUrl : url_like)
    (authorizationCode scope : option string) (resourceMetadataUrl : option URL)
    (fetchFn : option (FetchLike S)) :
  finishes (auth_outcome provider authorizationCode fetchFn)
    (authInternal provider serverUrl authorizationCode scope resourceMetadataUrl fetchFn).
Proof.
  set (any := λ _ : Event, True).
  unfold authInternal.
  eapply (finishes_bind any).
  { apply emits_try_catch; [|intros ?; apply emits_ret].
    apply emits_bind; [|intros ?; apply emits_ret].
    by apply emits_discoverOAuthProtectedResourceMetadata. }
  intros [resourceMetadata authorizationServerUrl].
  eapply (finishes_bind any); [by apply emits_selectResourceURL_of|intros resource].
  eapply (finishes_bind any); [by apply emits_discoverAuthorizationServerMetadata|].
  intros metadata.
  eapply (finishes_bind any); [by apply emits_perform|intros information].
  eapply (finishes_bind any).
  { repeat first [by apply emits_registerClient_of | emits_step]. }
  intros information'. destruct authorizationCode as [code|]; [apply finishes_exchange|].
  intros w result w' Hrun.
  apply bind_Ok in Hrun as (held & w0 & Hheld & Hrun).
  apply perform_Ok in Hheld as [Hheld Hlog0].
  apply bind_Ok in Hrun as (refreshed & w1 & Hrefresh & Hrun).
  destruct refreshed as [authorized|].
  - injection Hrun as <- <-. exists w0. split; [by eexists|].
    by eapply finishes_refresh.
  - assert (Hlog1 : ∃ evs, log w1 = log w0 ++ evs).
    { eapply (emits_log any); [|exact Hrefresh].
      repeat first [by apply emits_refreshAuthorization_of | emits_step]. }
    destruct Hlog1 as (evs1 & Hlog1).
    apply bind_Ok in Hrun as (st & w2 & Hstate & Hrun).
    assert (Hlog2 : ∃ evs, log w2 = log w1 ++ evs).
    { eapply (emits_log any); [|exact Hstate]. repeat emits_step. }
    destruct Hlog2 as (evs2 & Hlog2).
    destruct (finishes_redirect _ _ _ _ _ _ _ fetchFn _ _ _ Hrun)
      as (w3 & (evs3 & Hlog3) & Houtcome).
    exists w3. split; [|done]. exists ([ECall CallTokens] ++ evs1 ++ evs2 ++ evs3).
    by rewrite Hlog3, Hlog2, Hlog1, Hlog0, !(assoc_L (++)).
Qed.

(** X9.  A run of [auth] that returns has persisted what it obtained
    as its last act.  When it returns [AUTHORIZED], the last step is
    [saveTokens], which returned normally, and the tokens it saved are
    the ones that this run obtained just before: from the code
    exchange, called with the authorization code and the verifier that
    the provider returned, or from the refresh, called with the
    refresh token of the tokens that the provider returned.  When it
    returns [REDIRECT], there was no authorization code, and the last
    two steps are [saveCodeVerifier] and [redirectToAuthorization],
    which returned normally, with the verifier and the URL that
    [startAuthorization] returned in this run.  Nothing touches the
    session or the log after the last step. *)
Theorem auth_persists_outcome (provider : OAuthClientProvider S) (serverUrl : url_like)
    (authorizationCode scope : option string) (resourceMetadataUrl : option URL)
    (fetchFn : option (FetchLike S)) (w : World S) (result : AuthResult) (w' : World S) :
  auth provider serverUrl authorizationCode scope resourceMetadataUrl fetchFn w
    = (Ok result, w') →
  ∃ w0, (∃ evs, log w0 = log w ++ evs)
        ∧ auth_outcome provider authorizationCode fetchFn result w0 w'.
Proof.
  revert w result w'.
  change (finishes (auth_outcome provider authorizationCode fetchFn)
            (auth provider serverUrl authorizationCode scope resourceMetadataUrl fetchFn)).
  unfold auth.
  eapply (finishes_try_catch (flow_event provider authorizationCode));
    [apply emits_authInternal_flow|apply finishes_authInternal|intros error].
  assert (Hinv : ∀ scope', emits (λ _, True) (invalidate provider scope')).
  { intros scope'. unfold invalidate. repeat emits_step. }
  destruct (_ || _); [|destruct (instanceof _ _); [|apply finishes_throw]];
    (eapply finishes_bind; [apply Hinv|intros ?; apply finishes_authInternal]).
Qed.

End TailTheorems.

(** ** The requests to the token endpoint *)

Section TokenRequestTheorems.
Context {S : Type} {platform : Platform} {js : Json} {imports : Imports}
  {globals : Globals S}.

(** The continuation of a bind matters at the values that the first
    part can return. *)
Lemma emits_bind_result {A B} (Q : Event → Prop) (m : M S A) (k : A → M S B) :
  emits Q m → (∀ a, (∃ w w1, m w = (Ok a, w1)) → emits Q (k a)) → emits Q (x ← m; k x).
Proof.
  intros Hm Hk w. unfold mbind, M_bind, bind.
  destruct (Hm w) as (evs & Hlog & Hevs).
  destruct (m w) as [[a|e] w'] eqn:Hmw; simpl in *.
  - destruct (Hk a (ex_intro _ w (ex_intro _ w' Hmw)) w') as (evs' & Hlog' & Hevs').
    exists (evs ++ evs'). rewrite Hlog', Hlog, (assoc_L (++)).
    split; [done|]. by apply Forall_app.
  - by exists evs.
Qed.

(** What client authentication leaves alone, and that it names the
    client. *)
Lemma applyClientAuthentication_keeps (method : ClientAuthMethod)
    (clientInformation : OAuthClientInformation)
    (headers params headers' params' : list (string * string)) :
  applyClientAuthentication method clientInformation headers params = Ok (headers', params') →
  (∀ k, k ≠ "client_id" → k ≠ "client_secret" → pairs_get k params' = pairs_get k params)
  ∧ (∀ k, k ≠ "Authorization" → pairs_get k headers' = pairs_get k headers)
  ∧ (pairs_get "client_id" params' = Some (client_id clientInformation)
     ∨ ∃ secret credentials,
         client_secret clientInformation = Some secret
         ∧ btoa (client_id clientInformation +:+ ":" +:+ secret) = Some credentials
         ∧ pairs_get "Authorization" headers' = Some ("Basic " +:+ credentials)).
Proof.
  destruct method; cbn [applyClientAuthentication result_bind].
  - unfold applyBasicAuth.
    destruct (truthy (client_secret clientInformation)) as [secret|] eqn:Hs;
      cbn [result_bind]; [|done].
    apply truthy_Some in Hs as [Hs Hne].
    destruct (btoa _) as [credentials|] eqn:Hbtoa; cbn [result_bind]; [|done].
    intros [= <- <-].
    split; [done|]. split; [by intros k ?; rewrite pairs_get_set_ne|].
    right. exists secret, credentials. by rewrite pairs_get_set_eq.
  - intros [= <- <-]. unfold applyPostAuth. split; [|split; [done|left]].
    + intros k ? ?. destruct (truthy (client_secret clientInformation));
        by rewrite !pairs_get_set_ne.
    + destruct (truthy (client_secret clientInformation)).
      * by rewrite pairs_get_set_ne, pairs_get_set_eq.
      * by rewrite pairs_get_set_eq.
  - intros [= <- <-]. unfold applyPublicAuth. split; [|split; [done|left]].
    + intros k ? ?. by rewrite pairs_get_set_ne.
    + by rewrite pairs_get_set_eq.
Qed.

Lemma pairs_get_set_resource (resource : option URL) (params : list (string * string)) :
  pairs_get "resource" (set_resource resource params)
  = match resource with
    | Some resource => Some (href resource)
    | None => pairs_get "resource" params
    end.
Proof. destruct resource; [apply pairs_get_set_eq|done]. Qed.

Lemma pairs_get_set_resource_ne (resource : option URL) (k : string)
    (params : list (string * string)) :
  k ≠ "resource" → pairs_get k (set_resource resource params) = pairs_get k params.
Proof. intros Hne. destruct resource; [by apply pairs_get_set_ne|done]. Qed.

(** X10.  The token requests of the two grants, with the client
    authentication of the module.  Every request that
    [exchangeAuthorization] or [refreshAuthorization] sends is a POST of
    a form to the token endpoint of the metadata, or without metadata to
    [/token] on the server URL.  Client authentication and the resource
    parameter leave the fields of the grant as they were written, the
    form names the resource exactly when one is given, and the client
    is named in the form or in the Basic header. *)
Theorem token_requests (authorizationServerUrl : url_like)
    (metadata : option AuthorizationServerMetadata)
    (clientInformation : OAuthClientInformation) (resource : option URL)
    (fetchFn : option (FetchLike S)) :
  (∀ authorizationCode codeVerifier redirectUri,
     emits (token_request InExchangeAuthorization fetchFn authorizationServerUrl metadata
              clientInformation
              [("grant_type", "authorization_code"); ("code", authorizationCode);
               ("code_verifier", codeVerifier); ("redirect_uri", String_of redirectUri)]
              resource)
       (exchangeAuthorization authorizationServerUrl metadata clientInformation
          authorizationCode codeVerifier redirectUri resource None fetchFn))
  ∧ (∀ refreshToken,
       emits (token_request InRefreshAuthorization fetchFn authorizationServerUrl metadata
                clientInformation
                [("grant_type", "refresh_token"); ("refresh_token", refreshToken)]
                resource)
         (refreshAuthorization authorizationServerUrl metadata clientInformation
            refreshToken resource None fetchFn)).
Proof.
  split.
  - intros authorizationCode codeVerifier redirectUri. unfold exchangeAuthorization.
    assert (Hurl : ∀ tokenUrl,
      match truthy (token_endpoint <$> metadata) with
      | Some te => new_URL (UStr te)
      | None => new_URL_at "/token" authorizationServerUrl
      end = Ok tokenUrl →
      (metadata = None → new_URL_at "/token" authorizationServerUrl = Ok tokenUrl)
      ∧ (∀ md, metadata = Some md → token_endpoint md ≠ "" →
               new_URL (UStr (token_endpoint md)) = Ok tokenUrl)).
    { intros tokenUrl Hurl. split.
      - by intros ->.
      - intros md -> Hne. cbn [fmap option_fmap option_map truthy] in Hurl.
        by destruct (token_endpoint md). }
    replace (match truthy (token_endpoint <$> metadata) with
             | Some te => lift (new_URL (UStr te))
             | None => lift (new_URL_at "/token" authorizationServerUrl)
             end)
      with (lift (S := S) (match truthy (token_endpoint <$> metadata) with
                  | Some te => new_URL (UStr te)
                  | None => new_URL_at "/token" authorizationServerUrl
                  end))
      by (by destruct (truthy (token_endpoint <$> metadata))).
    apply emits_bind_lift. intros tokenUrl [Hnone Hsome]%Hurl.
    destruct (present_without _ _); [apply emits_throw|].
    unfold authenticate. apply emits_bind_lift. intros [headers params] Hauth.
    apply applyClientAuthentication_keeps in Hauth as (Hparams & Hheaders & Hclient).
    apply emits_bind; [|intros ?; repeat emits_step].
    apply emits_call_fetch. exists tokenUrl, headers, (set_resource resource params).
    split; [done|]. split; [done|]. split; [done|].
    split; [by rewrite Hheaders|].
    split; [|split].
    + repeat apply Forall_cons_2; [..|apply Forall_nil_2]; cbn [fst snd];
        by rewrite pairs_get_set_resource_ne, Hparams.
    + rewrite pairs_get_set_resource. destruct resource; [done|]. by rewrite Hparams.
    + destruct Hclient as [Hid|Hbasic]; [left|by right].
      by rewrite pairs_get_set_resource_ne.
  - intros refreshToken. unfold refreshAuthorization.
    apply emits_bind_result; [repeat emits_step|].
    intros tokenUrl (w & w1 & Hurl).
    assert (Hnone : metadata = None → new_URL_at "/token" authorizationServerUrl = Ok tokenUrl).
    { intros ->. unfold lift in Hurl. congruence. }
    assert (Hsome : ∀ md, metadata = Some md → token_endpoint md ≠ "" →
                          new_URL (UStr (token_endpoint md)) = Ok tokenUrl).
    { intros md -> _. apply bind_Ok in Hurl as (u & w2 & Hu & Hrest).
      unfold lift in Hu. destruct (present_without _ _); [done|].
      injection Hrest as <- <-. congruence. }
    unfold authenticate. apply emits_bind_lift. intros [headers params] Hauth.
    apply applyClientAuthentication_keeps in Hauth as (Hparams & Hheaders & Hclient).
    apply emits_bind; [|intros ?; repeat emits_step].
    apply emits_call_fetch. exists tokenUrl, headers, (set_resource resource params).
    split; [done|]. split; [done|]. split; [done|].
    split; [by rewrite Hheaders|].
    split; [|split].
    + repeat apply Forall_cons_2; [..|apply Forall_nil_2]; cbn [fst snd];
        by rewrite pairs_get_set_resource_ne, Hparams.
    + rewrite pairs_get_set_resource. destruct resource; [done|]. by rewrite Hparams.
    + destruct Hclient as [Hid|Hbasic]; [left|by right].
      by rewrite pairs_get_set_resource_ne.
Qed.

End TokenRequestTheorems.

Lemma auth_persists_outcome_witness :
  let w := example_world "R1" in
  let run := auth (example_provider false) (UObj example_server_url) (Some "CODE") None None
               (Some example_fetch) w in
  ∃ w0, (∃ evs, log w0 = log w ++ evs)
        ∧ auth_outcome (example_provider false) (Some "CODE") (Some example_fetch)
            AUTHORIZED w0 run.2.
Proof.
  intros w run.
  apply (auth_persists_outcome (S := Session) (example_provider false)
           (UObj example_server_url) (Some "CODE") None None (Some example_fetch) w
           AUTHORIZED run.2).
  vm_compute. reflexivity.
Defined.

(** ** The parameters of the authorization URL *)

Section ParameterTheorems.
Context {S : Type} {platform : Platform} {js : Json} {imports : Imports}
  {globals : Globals S}.

Lemma key_count_set_resource_ne (resource : option URL) (k : string)
    (params : list (string * string)) :
  k ≠ "resource" → key_count k (set_resource resource params) = key_count k params.
Proof. intros Hne. destruct resource; [by apply key_count_set_ne|done]. Qed.

(** X11.  The query of the authorization URL.  On success the query has
    [response_type=code], the client, the challenge that came with the
    returned verifier from one call of [pkceChallenge], the method
    [S256] and the redirect URI, each exactly once whatever the query
    of the endpoint had; a non-empty state or scope and a resource are
    there exactly once as well. *)
Theorem startAuthorization_parameters (authorizationServerUrl : url_like)
    (metadata : option AuthorizationServerMetadata)
    (clientInformation : OAuthClientInformation) (redirectUrl : url_like)
    (scope state : option string) (resource : option URL)
    (w : World S) (url : URL) (verifier : string) (w' : World S) :
  startAuthorization authorizationServerUrl metadata clientInformation redirectUrl
    scope state resource w = (Ok (url, verifier), w') →
  let q : list (string * string) := searchParams url in
  let once k v := pairs_get k q = Some v ∧ key_count k q = 1 in
  (∃ challenge, pkceChallenge (outside w) = (Ok (verifier, challenge), outside w')
                ∧ once "code_challenge" challenge)
  ∧ once "response_type" "code"
  ∧ once "client_id" (client_id clientInformation)
  ∧ once "code_challenge_method" "S256"
  ∧ once "redirect_uri" (String_of redirectUrl)
  ∧ (∀ s, state = Some s → s ≠ "" → once "state" s)
  ∧ (∀ s, scope = Some s → s ≠ "" → once "scope" s)
  ∧ (∀ r, resource = Some r → once "resource" (href r)).
Proof.
  intros Hrun q once. unfold startAuthorization in Hrun.
  apply bind_Ok in Hrun as (authorizationUrl & w1 & Hurl & Hrun).
  apply bind_Ok in Hrun as ([v c] & w2 & Hpkce & Hret).
  assert (w1 = w) as ->.
  { destruct metadata as [md|]; [|by injection Hurl].
    apply bind_Ok in Hurl as (u & w0 & Hu & Hrest). injection Hu as _ <-.
    by repeat (case_match; try done); injection Hrest. }
  unfold perform in Hpkce. destruct (pkceChallenge (outside w)) as [r s] eqn:Hp.
  injection Hpkce as -> <-.
  injection Hret as <- <- <-. subst q once. cbn [searchParams fst snd outside].
  clear Hurl. generalize (searchParams authorizationUrl). intros q0.
  assert (Htruthy : ∀ s, s ≠ "" → truthy (Some s) = Some s) by (by intros [|??]).
  split; [exists c; split; [done|]|];
    repeat match goal with
    | |- _ ∧ _ => split
    | |- ∀ s, _ = Some s → _ ≠ _ → _ => intros ? -> ?
    | |- ∀ s, _ = Some s → _ => intros ? ->
    end;
    rewrite ?Htruthy by done; cbn [set_resource];
    repeat match goal with
    | |- context [from_option _ false ?x] => destruct (from_option _ false x)
    | |- context [truthy ?x] => destruct (truthy x)
    | |- context [set_resource ?x _] => destruct x; cbn [set_resource]
    end;
    repeat first
      [ rewrite pairs_get_append_ne by done
      | rewrite key_count_append_ne by done
      | rewrite pairs_get_set_ne by done
      | rewrite key_count_set_ne by done ];
    first [apply pairs_get_set_eq | apply key_count_set_eq].
Qed.

End ParameterTheorems.

Lemma startAuthorization_parameters_witness :
  ∃ url verifier w',
    startAuthorization (UObj example_server_url) None example_client
      (UStr "https://app.example.com/callback") (Some "mcp") (Some "xyz") None
      (example_world "R1") = (Ok (url, verifier), w')
    ∧ pairs_get "response_type" (searchParams url) = Some "code"
    ∧ key_count "response_type" (searchParams url) = 1.
Proof.
  eexists _, _, _. split; [vm_compute; reflexivity|].
  refine (proj1 (proj2 (startAuthorization_parameters (S := Session)
            (UObj example_server_url) None example_client
            (UStr "https://app.example.com/callback") (Some "mcp") (Some "xyz") None
            (example_world "R1") _ _ _ _))).
  vm_compute. reflexivity.
Defined.

(** ** Discovery stays on the origin *)

Section OriginTheorems.
Context {S : Type} {platform : Platform} {js : Json} {imports : Imports}
  {globals : Globals S}.

Lemma emits_fetchWithCorsRetry_headers (Q : Event → Prop) (url : URL) (headers : option pairs)
    (fetchFn : option (FetchLike S)) :
  Q (EFetch (via_of fetchFn) InFetchWithCorsRetry (discovery_request url headers)) →
  Q (EFetch (via_of fetchFn) InFetchWithCorsRetry (discovery_request url None)) →
  emits Q (fetchWithCorsRetry url headers fetchFn).
Proof.
  intros Hfirst Hretry. unfold fetchWithCorsRetry, fetchWithCorsRetry_body.
  repeat first [emits_step | by apply emits_call_fetch].
Qed.

Lemma emits_loop_origin (u : URL) (version : string) (paths : list string)
    (fetchFn : option (FetchLike S)) (urlsToTry : list (URL * discovery_type)) :
  Forall (λ c, ∃ path, c.1 = at_origin u path ∧ path ∈ paths) urlsToTry →
  emits (origin_request fetchFn u version paths)
    (discoverAuthorizationServerMetadata_loop [("MCP-Protocol-Version", version)]
       fetchFn urlsToTry).
Proof.
  induction 1 as [|[endpointUrl type] urlsToTry (path & Hurl & Hpath) _ IH];
    cbn [discoverAuthorizationServerMetadata_loop]; [apply emits_ret|].
  cbn [fst] in Hurl. subst endpointUrl.
  apply emits_bind.
  - apply emits_fetchWithCorsRetry_headers; exists path; eexists; eauto.
  - intros response. repeat first [exact IH | emits_step].
Qed.

(** X12.  Authorization server discovery stays on the origin of the
    server URL.  For a server URL whose path starts with one slash
    only, every request of [discoverAuthorizationServerMetadata] is a
    GET for one of the four well-known paths on that origin, without
    the query and the fragment of the server URL, and carries the
    protocol version header or, in the retry, no header. *)
Theorem discoverAuthorizationServerMetadata_requests (authorizationServerUrl : url_like)
    (url : URL) (P : string) (protocolVersion : option string)
    (fetchFn : option (FetchLike S)) :
  new_URL authorizationServerUrl = Ok url →
  Str.startsWith (pathname url) "/" = true →
  Str.startsWith (pathname url) "//" = false →
  stripped (pathname url) P →
  emits (origin_request fetchFn url (default LATEST_PROTOCOL_VERSION protocolVersion)
           [oauth_well_known +:+ P; oauth_well_known; oidc_well_known +:+ P;
            P +:+ oidc_well_known])
    (discoverAuthorizationServerMetadata authorizationServerUrl fetchFn protocolVersion).
Proof.
  intros Hurl H1 H2 HP. unfold discoverAuthorizationServerMetadata.
  apply emits_bind_lift. intros urlsToTry Hlist. apply emits_loop_origin.
  destruct (tuple_origin url) eqn:Htuple;
    [|by rewrite (buildDiscoveryUrls_opaque _ _ Hurl Htuple) in Hlist].
  destruct (decide (pathname url = "/")) as [Hroot|Hpath].
  - rewrite (buildDiscoveryUrls_root _ _ Hurl Htuple Hroot) in Hlist. injection Hlist as <-.
    assert (P = "") as ->.
    { rewrite Hroot in HP. exact (stripped_unique _ _ _ HP (stripped_code "/")). }
    repeat apply Forall_cons_2; [..|apply Forall_nil_2]; cbn [fst].
    + exists oauth_well_known. split; [done|]. apply list_elem_of_further, list_elem_of_here.
    + exists oidc_well_known. split; [done|].
      do 2 apply list_elem_of_further. apply list_elem_of_here.
  - rewrite (buildDiscoveryUrls_path _ _ _ Hurl Htuple Hpath H1 H2 HP) in Hlist.
    injection Hlist as <-.
    repeat apply Forall_cons_2; [..|apply Forall_nil_2]; cbn [fst];
      eexists; (split; [reflexivity|]).
    + apply list_elem_of_here.
    + apply list_elem_of_further, list_elem_of_here.
    + do 2 apply list_elem_of_further. apply list_elem_of_here.
    + do 3 apply list_elem_of_further. apply list_elem_of_here.
Qed.

End OriginTheorems.

Lemma discoverAuthorizationServerMetadata_requests_witness :
  emits (origin_request (Some oidc_plain_fetch) example_server_url LATEST_PROTOCOL_VERSION
           [oauth_well_known +:+ "/mcp"; oauth_well_known; oidc_well_known +:+ "/mcp";
            "/mcp" +:+ oidc_well_known])
    (discoverAuthorizationServerMetadata (UObj example_server_url) (Some oidc_plain_fetch)
       None).
Proof.
  apply (discoverAuthorizationServerMetadata_requests (S := Session)
           (UObj example_server_url) example_server_url "/mcp" None (Some oidc_plain_fetch)
           eq_refl eq_refl eq_refl (stripped_code "/mcp")).
Defined.

(** ** Steps that the metadata rules out, and the resource *)

Section GuardTheorems.
Context {S : Type} {platform : Platform} {js : Json} {imports : Imports}
  {globals : Globals S}.

(** X13.  A server whose metadata rules a step out gets no request for
    it.  When the metadata lists grant types without the one of the
    step, [exchangeAuthorization] and [refreshAuthorization] throw the
    incompatible-server error before client authentication and before
    any request; [registerClient] does so when the metadata has no
    registration endpoint.  The world is left as it was. *)
Theorem incompatible_server_no_request (authorizationServerUrl : url_like)
    (md : AuthorizationServerMetadata) (clientInformation : OAuthClientInformation)
    (resource : option URL) (addClientAuthentication : option (@ClientAuthenticator S))
    (fetchFn : option (FetchLike S)) (w : World S) :
  (∀ authorizationCode codeVerifier redirectUri l u,
     grant_types_supported md = Some l → "authorization_code" ∉ l →
     token_endpoint md ≠ "" → new_URL (UStr (token_endpoint md)) = Ok u →
     exchangeAuthorization authorizationServerUrl (Some md) clientInformation
       authorizationCode codeVerifier redirectUri resource addClientAuthentication fetchFn w
     = (Throw (Error "Incompatible auth server: does not support grant type authorization_code"),
        w))
  ∧ (∀ refreshToken l u,
       grant_types_supported md = Some l → "refresh_token" ∉ l →
       new_URL (UStr (token_endpoint md)) = Ok u →
       refreshAuthorization authorizationServerUrl (Some md) clientInformation
         refreshToken resource addClientAuthentication fetchFn w
       = (Throw (Error "Incompatible auth server: does not support grant type refresh_token"),
          w))
  ∧ (∀ clientMetadata,
       registration_endpoint md = None ∨ registration_endpoint md = Some "" →
       registerClient authorizationServerUrl (Some md) clientMetadata fetchFn w
       = (Throw (Error "Incompatible auth server: does not support dynamic client registration"),
          w)).
Proof.
  assert (Hwithout : ∀ l x, grant_types_supported md = Some l → x ∉ l →
            present_without (grant_types_supported md) x = true).
  { intros l x -> Hx. cbn. apply negb_true_iff, not_true_is_false.
    by rewrite includes_elem_of. }
  split; [|split].
  - intros code verifier redirectUri l u Hl Hin Hne Hu. unfold exchangeAuthorization.
    munfold. cbn [fmap option_fmap option_map mbind option_bind].
    replace (truthy (Some (token_endpoint md))) with (Some (token_endpoint md))
      by (by destruct (token_endpoint md)).
    rewrite Hu. cbn [option_bind]. by rewrite (Hwithout _ _ Hl Hin).
  - intros refreshToken l u Hl Hin Hu. unfold refreshAuthorization. munfold.
    rewrite Hu. by rewrite (Hwithout _ _ Hl Hin).
  - intros clientMetadata Hreg. unfold registerClient. munfold.
    by destruct Hreg as [-> | ->].
Qed.

(** X14.  Without a validator of the provider, [selectResourceURL]
    makes no call and no request, and it never makes up a resource: it
    returns one exactly when the protected resource metadata names a
    resource that [checkResourceAllowed] accepts for the server URL and
    that parses, and then it is the resource of the metadata, not the
    one derived from the server URL; it returns [undefined] exactly
    when there is no metadata. *)
Theorem selectResourceURL_without_validator (serverUrl : url_like)
    (provider : OAuthClientProvider S)
    (resourceMetadata : option OAuthProtectedResourceMetadata)
    (defaultResource : URL) (w : World S) :
  validateResourceURL provider = None →
  resourceUrlFromServerUrl serverUrl = Some defaultResource →
  ∃ r, selectResourceURL serverUrl provider resourceMetadata w = (r, w)
       ∧ (∀ u, r = Ok (Some u)
               ↔ ∃ md, resourceMetadata = Some md
                       ∧ checkResourceAllowed defaultResource (resource md) = true
                       ∧ new_URL (UStr (resource md)) = Ok u)
       ∧ (r = Ok None ↔ resourceMetadata = None).
Proof.
  intros Hv Hd. unfold selectResourceURL. munfold. rewrite Hd, Hv.
  destruct resourceMetadata as [md|].
  - destruct (checkResourceAllowed defaultResource (resource md)) eqn:Hallowed; cbn [negb].
    + destruct (new_URL (UStr (resource md))) as [u|e] eqn:Hu; eexists; (split; [done|]).
      * split; [|done]. intros u'. split; [intros [= <-]; by exists md|].
        intros (md' & [= <-] & _ & Hu'). congruence.
      * split; [|done]. intros u'. split; [done|].
        intros (md' & [= <-] & _ & Hu'). congruence.
    + eexists. split; [done|]. split; [|done]. intros u. split; [done|].
      intros (md' & [= <-] & Hallowed' & _). congruence.
  - eexists. split; [done|]. split; [|done]. intros u. split; [done|].
    by intros (md & [= ] & _).
Qed.

End GuardTheorems.

Lemma incompatible_server_no_request_witness :
  let w := example_world "R1" in
  exchangeAuthorization (UObj example_server_url) (Some example_closed_metadata)
    example_client "CODE" "verifier" (UStr "https://app.example.com/callback") None None
    None w
  = (Throw (Error "Incompatible auth server: does not support grant type authorization_code"),
     w).
Proof.
  intros w.
  apply (proj1 (incompatible_server_no_request (S := Session) (UObj example_server_url)
                  example_closed_metadata example_client None None None w)
           "CODE" "verifier" (UStr "https://app.example.com/callback")
           ["client_credentials"] (mkURL "https:" "auth.example.com" "/token" [] "")).
  - reflexivity.
  - intros Hin%includes_elem_of. vm_compute in Hin. discriminate.
  - discriminate.
  - vm_compute. reflexivity.
Defined.

Lemma selectResourceURL_without_validator_witness :
  let w := example_world "R1" in
  selectResourceURL (UObj example_server_url) (example_provider false) None w = (Ok None, w).
Proof.
  intros w.
  destruct (selectResourceURL_without_validator (S := Session) (imports := example_imports)
              (UObj example_server_url)
              (example_provider false) None example_server_url w eq_refl eq_refl)
    as (r & Hrun & _ & Hnone).
  rewrite Hrun. f_equal. by apply Hnone.
Defined.
